(** * AgentEscrow protocol: the escrow custody-and-dispute state machine

    A shallow embedding of the two settlement contracts of the repository,
    [contracts/src/AgentEscrow.sol] and [contracts/src/Escrow.sol], together
    with the token contracts their test-suite runs them against
    ([MockERC20] and [MaliciousToken] of
    [contracts/test/AgentEscrow.stress.t.sol]).

    - Solidity [uint256], [address], [bytes32] and [uint8] values are
      integers ([Z]); arithmetic is the checked arithmetic of Solidity 0.8
      (an overflow or underflow reverts the call).
    - A [mapping] is a finite map read with the zero value as default.
    - An external function is a function from the message ([msg.sender],
      [msg.value], [block.timestamp]) and the world to a [Result]: either
      the next world, or a revert carrying the error.  A reverted call
      leaves the world as it was ([exec]).
    - [AgentEscrow.sol] carries no reentrancy guard and accepts any token
      address.  Wherever it calls out (a token's [transferFrom] or
      [transfer], the low-level call that sends native value) the callee
      has control and may call the contract back: the model hands the world
      to the callee there ([enter]) and reads storage again afterwards.
      [quiet] is the callee that calls nothing back, and [reentrant] the
      callee that plays a script of calls, themselves open to callbacks. *)

From Stdlib Require Import ZArith List Lia Bool.
From stdpp Require Import base option gmap.
Import ListNotations.

Local Open Scope Z_scope.

(** ** Machine integers *)

Abbreviation address := Z (only parsing).
Abbreviation bytes32 := Z (only parsing).
Abbreviation uint256 := Z (only parsing).

Definition MAX_UINT256 : Z := 2 ^ 256 - 1.

(** Solidity 0.8 checked arithmetic: [None] is the arithmetic panic. *)
Definition checked_add (a b : Z) : option Z :=
  if a + b <=? MAX_UINT256 then Some (a + b) else None.

Definition checked_sub (a b : Z) : option Z :=
  if b <=? a then Some (a - b) else None.

Definition checked_mul (a b : Z) : option Z :=
  if a * b <=? MAX_UINT256 then Some (a * b) else None.

(** ** The chain: balances, token contracts, native value *)

(** One value movement that really happened: [t_value] units of [t_asset]
    (a token address, or [0] for the native currency) went from [t_from] to
    [t_to]. *)
Record Transfer := mkTransfer {
  t_asset : address;
  t_from : address;
  t_to : address;
  t_value : Z
}.

(** [balanceOf] is keyed by (asset, holder) and [allowance] by
    (token, owner, spender).  [shouldFail] holds the tokens whose
    [MaliciousToken.shouldFail] flag is set; a token outside it behaves as
    [MockERC20].  [rejecting] holds the accounts that refuse native value.
    [moved] records, in order, every movement of value. *)
Record Chain := mkChain {
  balanceOf : gmap (Z * Z) Z;
  allowance : gmap (Z * Z * Z) Z;
  shouldFail : gset Z;
  rejecting : gset Z;
  moved : list Transfer
}.

Definition bal (c : Chain) (asset holder : address) : Z :=
  default 0 (balanceOf c !! (asset, holder)).

Definition allowed (c : Chain) (token owner spender : address) : Z :=
  default 0 (allowance c !! (token, owner, spender)).

(** [balanceOf[from] -= v; balanceOf[to] += v], both checked. *)
Definition move (asset from to : address) (v : Z) (c : Chain) : option Chain :=
  match checked_sub (bal c asset from) v with
  | None => None
  | Some rest =>
      let b1 := <[(asset, from) := rest]> (balanceOf c) in
      match checked_add (default 0 (b1 !! (asset, to))) v with
      | None => None
      | Some more =>
          Some {| balanceOf := <[(asset, to) := more]> b1;
                  allowance := allowance c;
                  shouldFail := shouldFail c;
                  rejecting := rejecting c;
                  moved := moved c ++ [mkTransfer asset from to v] |}
      end
  end.

(** The outcome of a call into a token contract. *)
Inductive CallOutcome :=
| Returned (success : bool) (c : Chain)
| Reverted.

(** [MaliciousToken.transfer], called by [sender].  No contract lives at
    [address(0)]: a high-level call to it reverts. *)
Definition erc20_transfer (token sender to : address) (amount : Z) (c : Chain)
  : CallOutcome :=
  if decide (token = 0) then Reverted
  else if decide (token ∈ shouldFail c) then Returned false c
  else match move token sender to amount c with
       | Some c' => Returned true c'
       | None => Reverted
       end.

(** [MaliciousToken.transferFrom], called by [spender]. *)
Definition erc20_transferFrom (token spender from to : address) (amount : Z)
  (c : Chain) : CallOutcome :=
  if decide (token = 0) then Reverted
  else if decide (token ∈ shouldFail c) then Returned false c
  else match checked_sub (allowed c token from spender) amount with
       | None => Reverted
       | Some remaining =>
           let c1 := {| balanceOf := balanceOf c;
                        allowance := <[(token, from, spender) := remaining]> (allowance c);
                        shouldFail := shouldFail c;
                        rejecting := rejecting c;
                        moved := moved c |} in
           match move token from to amount c1 with
           | Some c' => Returned true c'
           | None => Reverted
           end
       end.

(** [MaliciousToken.approve], called by [holder]: the allowance is
    overwritten, and the [shouldFail] flag is not consulted. *)
Definition erc20_approve (token holder spender : address) (amount : Z)
  (c : Chain) : CallOutcome :=
  if decide (token = 0) then Reverted
  else Returned true
         {| balanceOf := balanceOf c;
            allowance := <[(token, holder, spender) := amount]> (allowance c);
            shouldFail := shouldFail c;
            rejecting := rejecting c;
            moved := moved c |}.

(** [to.call{value: amount}("")] issued by [from]: the boolean is the
    [success] flag of the low-level call. *)
Definition send_value (from to : address) (amount : Z) (c : Chain)
  : bool * Chain :=
  if decide (to ∈ rejecting c) then (false, c)
  else match move 0 from to amount c with
       | Some c' => (true, c')
       | None => (false, c)
       end.

(** Sum of the values of a list of movements. *)
Definition total (l : list Transfer) : Z :=
  fold_right (fun t acc => t_value t + acc) 0 l.

(** The message of a call. *)
Record Msg := mkMsg {
  msg_sender : address;
  msg_value : Z;
  block_timestamp : Z
}.

(** ** Calls that may revert *)

(** The result of a call: the value it returns, or the error it reverts
    with. *)
Inductive Outcome_of (E A : Type) :=
| Ok (a : A)
| Revert (e : E).
Arguments Ok {E A} a.
Arguments Revert {E A} e.

Definition bind {E A B} (r : Outcome_of E A) (k : A -> Outcome_of E B)
  : Outcome_of E B :=
  match r with
  | Ok a => k a
  | Revert e => Revert e
  end.

Notation "'let!' x ':=' r 'in' k" := (bind r (fun x => k))
  (at level 10, x name, r at level 100, k at level 200).
Notation "'check!' r 'in' k" := (bind r (fun _ => k))
  (at level 10, r at level 100, k at level 200).

(** ** contracts/src/AgentEscrow.sol *)

Module AgentEscrow.

Inductive EscrowState := Pending | Active | Submitted | Disputed | Resolved.

Inductive Outcome := OutcomeNone | FullRelease | FullRefund | Partial.

#[global] Instance EscrowState_eq_dec : EqDecision EscrowState.
Proof. solve_decision. Defined.

#[global] Instance Outcome_eq_dec : EqDecision Outcome.
Proof. solve_decision. Defined.

Record Escrow := mkEscrow {
  client : address;
  worker : address;
  token : address;
  amount : uint256;
  deadline : uint256;
  criteriaHash : bytes32;
  state : EscrowState;
  outcome : Outcome;
  completionPct : Z;
  createdAt : uint256;
  submittedAt : uint256;
  evidenceHash : bytes32
}.

(** The value a [mapping(bytes32 => Escrow)] holds at a key never written. *)
Definition zeroEscrow : Escrow :=
  mkEscrow 0 0 0 0 0 0 Pending OutcomeNone 0 0 0 0.

(** Contract storage, the contract's own address and the chain around it. *)
Record World := mkWorld {
  self : address;
  escrows : gmap Z Escrow;
  arbitrator : address;
  pendingArbitrator : address;
  protocolFeeBps : uint256;
  disputeFeeBps : uint256;
  clientReviewPeriod : uint256;
  arbitrationTimeout : uint256;
  minEscrowAmount : uint256;
  maxEscrowAmount : uint256;
  escrowCount : uint256;
  chain : Chain
}.

(** The custom errors of the contract, and the three ways the EVM itself
    fails a call: the arithmetic panic, a revert bubbling up from a callee,
    and value sent to a function that is not payable (or that the sender
    does not hold). *)
Inductive Error :=
| OnlyArbitrator | OnlyClient | OnlyWorker | InvalidState | InvalidAmount
| DeadlinePassed | ReviewPeriodActive | TransferFailed
| Panic | CalleeReverted | ValueRejected.

Abbreviation Result := (Outcome_of Error).

Definition arith (o : option Z) : Result Z :=
  match o with
  | Some z => Ok z
  | None => Revert Panic
  end.

(** *** Storage access *)

Definition getEscrow (w : World) (escrowId : bytes32) : Escrow :=
  default zeroEscrow (escrows w !! escrowId).

Definition set_escrow (escrowId : bytes32) (e : Escrow) (w : World) : World :=
  mkWorld (self w) (<[escrowId := e]> (escrows w)) (arbitrator w)
    (pendingArbitrator w) (protocolFeeBps w) (disputeFeeBps w)
    (clientReviewPeriod w) (arbitrationTimeout w) (minEscrowAmount w)
    (maxEscrowAmount w) (escrowCount w) (chain w).

Definition set_chain (c : Chain) (w : World) : World :=
  mkWorld (self w) (escrows w) (arbitrator w) (pendingArbitrator w)
    (protocolFeeBps w) (disputeFeeBps w) (clientReviewPeriod w)
    (arbitrationTimeout w) (minEscrowAmount w) (maxEscrowAmount w)
    (escrowCount w) c.

Definition set_escrowCount (n : Z) (w : World) : World :=
  mkWorld (self w) (escrows w) (arbitrator w) (pendingArbitrator w)
    (protocolFeeBps w) (disputeFeeBps w) (clientReviewPeriod w)
    (arbitrationTimeout w) (minEscrowAmount w) (maxEscrowAmount w)
    n (chain w).

Definition set_arbitrators (arb pending : address) (w : World) : World :=
  mkWorld (self w) (escrows w) arb pending
    (protocolFeeBps w) (disputeFeeBps w) (clientReviewPeriod w)
    (arbitrationTimeout w) (minEscrowAmount w) (maxEscrowAmount w)
    (escrowCount w) (chain w).

Definition set_fees (p d : Z) (w : World) : World :=
  mkWorld (self w) (escrows w) (arbitrator w) (pendingArbitrator w)
    p d (clientReviewPeriod w)
    (arbitrationTimeout w) (minEscrowAmount w) (maxEscrowAmount w)
    (escrowCount w) (chain w).

Definition set_limits (lo hi : Z) (w : World) : World :=
  mkWorld (self w) (escrows w) (arbitrator w) (pendingArbitrator w)
    (protocolFeeBps w) (disputeFeeBps w) (clientReviewPeriod w)
    (arbitrationTimeout w) lo hi (escrowCount w) (chain w).

Definition set_timeouts (review arbitration : Z) (w : World) : World :=
  mkWorld (self w) (escrows w) (arbitrator w) (pendingArbitrator w)
    (protocolFeeBps w) (disputeFeeBps w) review arbitration
    (minEscrowAmount w) (maxEscrowAmount w) (escrowCount w) (chain w).

(** Field writes through the storage pointer [e]. *)
Definition accepted (who : address) (e : Escrow) : Escrow :=
  mkEscrow (client e) who (token e) (amount e) (deadline e) (criteriaHash e)
    Active (outcome e) (completionPct e) (createdAt e) (submittedAt e)
    (evidenceHash e).

Definition submitted (evidence : bytes32) (now : Z) (e : Escrow) : Escrow :=
  mkEscrow (client e) (worker e) (token e) (amount e) (deadline e)
    (criteriaHash e) Submitted (outcome e) (completionPct e) (createdAt e)
    now evidence.

Definition disputed (e : Escrow) : Escrow :=
  mkEscrow (client e) (worker e) (token e) (amount e) (deadline e)
    (criteriaHash e) Disputed (outcome e) (completionPct e) (createdAt e)
    (submittedAt e) (evidenceHash e).

Definition resolved (o : Outcome) (pct : Z) (e : Escrow) : Escrow :=
  mkEscrow (client e) (worker e) (token e) (amount e) (deadline e)
    (criteriaHash e) Resolved o pct (createdAt e) (submittedAt e)
    (evidenceHash e).

(** The storage a deployment starts from: the initial values of the state
    variables, and [constructor(_arbitrator)]. *)
Definition constructor (_arbitrator at_ : address) (c : Chain) : World :=
  {| self := at_;
     escrows := ∅;
     arbitrator := _arbitrator;
     pendingArbitrator := 0;
     protocolFeeBps := 100;
     disputeFeeBps := 100;
     clientReviewPeriod := 4 * 3600;
     arbitrationTimeout := 8 * 3600;
     minEscrowAmount := 10 * 10 ^ 6;
     maxEscrowAmount := 5000 * 10 ^ 6;
     escrowCount := 0;
     chain := c |}.

(** *** Modifiers *)

Definition onlyArbitrator (m : Msg) (w : World) : Result unit :=
  if decide (msg_sender m ≠ arbitrator w) then Revert OnlyArbitrator else Ok tt.

Definition onlyClient (escrowId : bytes32) (m : Msg) (w : World) : Result unit :=
  if decide (msg_sender m ≠ client (getEscrow w escrowId))
  then Revert OnlyClient else Ok tt.

Definition onlyWorker (escrowId : bytes32) (m : Msg) (w : World) : Result unit :=
  if decide (msg_sender m ≠ worker (getEscrow w escrowId))
  then Revert OnlyWorker else Ok tt.

Definition inState (escrowId : bytes32) (expected : EscrowState) (w : World)
  : Result unit :=
  if decide (state (getEscrow w escrowId) ≠ expected)
  then Revert InvalidState else Ok tt.

(** A callee that calls nothing back. *)
Definition quiet : address -> World -> World := fun _ w => w.
Arguments quiet _ _ /.

(** *** Fee and split arithmetic, as the functions below compute it *)

Definition protocolFeeOf (w : World) (e : Escrow) : Result Z :=
  let! product := arith (checked_mul (amount e) (protocolFeeBps w)) in
  Ok (product / 10000).

Definition disputeFeeOf (w : World) (e : Escrow) : Result Z :=
  let! product := arith (checked_mul (amount e) (disputeFeeBps w)) in
  Ok (product / 10000).

(** *** Escrow lifecycle *)

Section External.

(** [keccak256(abi.encodePacked(msg.sender, escrowCount++, block.timestamp))]:
    the hash is a parameter of the development. *)
Variable keccak256 : address -> Z -> Z -> bytes32.

(** What a callee does to the contract while it has control: [enter a w] is
    the world the contract finds when the call into [a] comes back.  The
    funds and allowances the callee moves as a caller of the contract are
    part of it. *)
Variable enter : address -> World -> World.

(** *** Internal *)

(** A call into the token contract [tok]: the token has control before and
    after its own bookkeeping. *)
Definition call_token (tok : address) (op : Chain -> CallOutcome) (w : World)
  : Result World :=
  let w1 := enter tok w in
  match op (chain w1) with
  | Returned _ c => Ok (enter tok (set_chain c w1))
  | Reverted => Revert CalleeReverted
  end.

(** [_transfer]: a zero amount returns at once; native value goes through
    the low-level call, which hands control to the recipient, and its
    [success] flag is checked; for a token the value [transfer] returns is
    dropped. *)
Definition _transfer (tok to : address) (amt : Z) (w : World) : Result World :=
  if decide (amt = 0) then Ok w
  else if decide (tok = 0) then
    let '(success, c) := send_value (self w) to amt (chain w) in
    if success then Ok (enter to (set_chain c w)) else Revert TransferFailed
  else
    call_token tok (erc20_transfer tok (self w) to amt) w.

Definition createEscrow (tok : address) (amt deadline_ : Z) (criteria : bytes32)
  (m : Msg) (w : World) : Result (bytes32 * World) :=
  if decide (amt < minEscrowAmount w \/ amt > maxEscrowAmount w)
  then Revert InvalidAmount
  else if decide (deadline_ <= block_timestamp m) then Revert DeadlinePassed
  else
    let! next := arith (checked_add (escrowCount w) 1) in
    let escrowId := keccak256 (msg_sender m) (escrowCount w) (block_timestamp m) in
    let w1 := set_escrowCount next w in
    let! w2 :=
      (if decide (tok = 0) then
         if decide (msg_value m ≠ amt) then Revert InvalidAmount else Ok w1
       else
         call_token tok
           (erc20_transferFrom tok (self w1) (msg_sender m) (self w1) amt) w1)
    in
    Ok (escrowId,
        set_escrow escrowId
          (mkEscrow (msg_sender m) 0 tok amt deadline_ criteria Pending
             OutcomeNone 0 (block_timestamp m) 0 0) w2).

Definition acceptEscrow (escrowId : bytes32) (m : Msg) (w : World)
  : Result World :=
  check! inState escrowId Pending w in
  let e := getEscrow w escrowId in
  if decide (block_timestamp m >= deadline e) then Revert DeadlinePassed
  else Ok (set_escrow escrowId (accepted (msg_sender m) e) w).

Definition submitWork (escrowId evidence : bytes32) (m : Msg) (w : World)
  : Result World :=
  check! onlyWorker escrowId m w in
  check! inState escrowId Active w in
  let e := getEscrow w escrowId in
  Ok (set_escrow escrowId (submitted evidence (block_timestamp m) e) w).

(** The body shared, statement for statement, by [release] and
    [autoRelease] once their guards have passed.  [e] is a storage pointer:
    after a call out, [e.token] and [e.worker] are read from the storage the
    callee left. *)
Definition payWorker (escrowId : bytes32) (w : World) : Result World :=
  let e := getEscrow w escrowId in
  let! protocolFee := protocolFeeOf w e in
  let! workerAmount := arith (checked_sub (amount e) protocolFee) in
  let w1 := set_escrow escrowId (resolved FullRelease 100 e) w in
  let! w2 := _transfer (token e) (worker e) workerAmount w1 in
  _transfer (token (getEscrow w2 escrowId)) (arbitrator w2) protocolFee w2.

Definition release (escrowId : bytes32) (m : Msg) (w : World) : Result World :=
  check! onlyClient escrowId m w in
  check! inState escrowId Submitted w in
  payWorker escrowId w.

(** [dispute] calls the token before it writes [e.state = Disputed]: the
    write goes to the record as the token's call left it. *)
Definition dispute (escrowId : bytes32) (m : Msg) (w : World) : Result World :=
  check! onlyClient escrowId m w in
  check! inState escrowId Submitted w in
  let e := getEscrow w escrowId in
  let! disputeFee := disputeFeeOf w e in
  let! w1 :=
    (if decide (token e = 0) then
       if decide (msg_value m ≠ disputeFee) then Revert InvalidAmount else Ok w
     else
       call_token (token e)
         (erc20_transferFrom (token e) (self w) (msg_sender m) (self w)
            disputeFee) w) in
  Ok (set_escrow escrowId (disputed (getEscrow w1 escrowId)) w1).

Definition autoRelease (escrowId : bytes32) (m : Msg) (w : World)
  : Result World :=
  check! inState escrowId Submitted w in
  let e := getEscrow w escrowId in
  let! opens := arith (checked_add (submittedAt e) (clientReviewPeriod w)) in
  if decide (block_timestamp m < opens) then Revert ReviewPeriodActive
  else payWorker escrowId w.

(** *** Arbitration *)

Definition outcomeOf (pct : Z) : Outcome :=
  if decide (pct = 100) then FullRelease
  else if decide (pct = 0) then FullRefund
  else Partial.

Definition resolve (escrowId : bytes32) (pct : Z) (m : Msg) (w : World)
  : Result World :=
  check! onlyArbitrator m w in
  check! inState escrowId Disputed w in
  if decide (pct > 100) then Revert InvalidAmount
  else
    let e := getEscrow w escrowId in
    let! protocolFee := protocolFeeOf w e in
    let! distributable := arith (checked_sub (amount e) protocolFee) in
    let! scaled := arith (checked_mul distributable pct) in
    let workerAmount := scaled / 100 in
    let! clientRefund := arith (checked_sub distributable workerAmount) in
    let w1 := set_escrow escrowId (resolved (outcomeOf pct) pct e) w in
    let! disputeFee := disputeFeeOf w1 e in
    let! w2 := (if decide (workerAmount > 0)
                then _transfer (token e) (worker e) workerAmount w1
                else Ok w1) in
    let e2 := getEscrow w2 escrowId in
    let! w3 := (if decide (clientRefund > 0)
                then _transfer (token e2) (client e2) clientRefund w2
                else Ok w2) in
    let e3 := getEscrow w3 escrowId in
    let! w4 := (if decide (pct >= 50)
                then _transfer (token e3) (worker e3) disputeFee w3
                else _transfer (token e3) (client e3) disputeFee w3) in
    _transfer (token (getEscrow w4 escrowId)) (arbitrator w4) protocolFee w4.

(** *** Admin *)

Definition initiateArbitratorTransfer (newArbitrator : address) (m : Msg)
  (w : World) : Result World :=
  check! onlyArbitrator m w in
  Ok (set_arbitrators (arbitrator w) newArbitrator w).

Definition acceptArbitratorTransfer (m : Msg) (w : World) : Result World :=
  if decide (msg_sender m ≠ pendingArbitrator w) then Revert OnlyArbitrator
  else Ok (set_arbitrators (pendingArbitrator w) 0 w).

Definition setFees (p d : Z) (m : Msg) (w : World) : Result World :=
  check! onlyArbitrator m w in
  Ok (set_fees p d w).

Definition setLimits (lo hi : Z) (m : Msg) (w : World) : Result World :=
  check! onlyArbitrator m w in
  Ok (set_limits lo hi w).

Definition setTimeouts (review arbitration : Z) (m : Msg) (w : World)
  : Result World :=
  check! onlyArbitrator m w in
  Ok (set_timeouts review arbitration w).

(** *** Transactions *)

Inductive Call :=
| CreateEscrow (tok : address) (amt deadline_ : Z) (criteria : bytes32)
| AcceptEscrow (escrowId : bytes32)
| SubmitWork (escrowId evidence : bytes32)
| Release (escrowId : bytes32)
| Dispute (escrowId : bytes32)
| AutoRelease (escrowId : bytes32)
| Resolve (escrowId : bytes32) (pct : Z)
| InitiateArbitratorTransfer (newArbitrator : address)
| AcceptArbitratorTransfer
| SetFees (p d : Z)
| SetLimits (lo hi : Z)
| SetTimeouts (review arbitration : Z).

Definition payable (c : Call) : bool :=
  match c with
  | CreateEscrow _ _ _ _ | Dispute _ => true
  | _ => false
  end.

(** The value of the message reaches the contract's balance before the body
    runs; a function that is not [payable] refuses any value. *)
Definition takeValue (accepts : bool) (m : Msg) (w : World) : Result World :=
  if decide (msg_value m = 0) then Ok w
  else if accepts then
    match move 0 (msg_sender m) (self w) (msg_value m) (chain w) with
    | Some c => Ok (set_chain c w)
    | None => Revert ValueRejected
    end
  else Revert ValueRejected.

Definition call (c : Call) (m : Msg) (w : World) : Result World :=
  let! w0 := takeValue (payable c) m w in
  match c with
  | CreateEscrow tok amt deadline_ criteria =>
      let! r := createEscrow tok amt deadline_ criteria m w0 in Ok (snd r)
  | AcceptEscrow escrowId => acceptEscrow escrowId m w0
  | SubmitWork escrowId evidence => submitWork escrowId evidence m w0
  | Release escrowId => release escrowId m w0
  | Dispute escrowId => dispute escrowId m w0
  | AutoRelease escrowId => autoRelease escrowId m w0
  | Resolve escrowId pct => resolve escrowId pct m w0
  | InitiateArbitratorTransfer a => initiateArbitratorTransfer a m w0
  | AcceptArbitratorTransfer => acceptArbitratorTransfer m w0
  | SetFees p d => setFees p d m w0
  | SetLimits lo hi => setLimits lo hi m w0
  | SetTimeouts r a => setTimeouts r a m w0
  end.

(** A transaction commits the world the call returns, or leaves the world
    untouched when the call reverts. *)
Definition exec (c : Call) (m : Msg) (w : World) : World :=
  match call c m w with
  | Ok w' => w'
  | Revert _ => w
  end.

(** The identifier a call creates an escrow under, when it is a creation. *)
Definition creates (c : Call) (m : Msg) (w : World) : option bytes32 :=
  match c with
  | CreateEscrow _ _ _ _ =>
      Some (keccak256 (msg_sender m) (escrowCount w) (block_timestamp m))
  | _ => None
  end.

(** The escrow a call is addressed to. *)
Definition target (c : Call) : option bytes32 :=
  match c with
  | AcceptEscrow i | SubmitWork i _ | Release i | Dispute i | AutoRelease i
  | Resolve i _ => Some i
  | _ => None
  end.

(** *** The lifecycle, as the specification draws it *)

(** One forward step of the state of an escrow. *)
Inductive advances : EscrowState -> EscrowState -> Prop :=
| advances_accept : advances Pending Active
| advances_submit : advances Active Submitted
| advances_dispute : advances Submitted Disputed
| advances_release : advances Submitted Resolved
| advances_resolve : advances Disputed Resolved.

(** The complete state sequences. *)
Definition lifecycles : list (list EscrowState) :=
  [ [Pending; Active; Submitted; Disputed; Resolved];
    [Pending; Active; Submitted; Resolved] ].

(** The worlds a sequence of transactions goes through. *)
Fixpoint run (calls : list (Call * Msg)) (w : World) : list World :=
  match calls with
  | [] => []
  | (c, m) :: rest => let w' := exec c m w in w' :: run rest w'
  end.

(** No transaction of the sequence creates an escrow under identifier [i]:
    [keccak256] does not collide with the identifier of an escrow that
    exists. *)
Fixpoint neverCreates (i : bytes32) (calls : list (Call * Msg)) (w : World)
  : Prop :=
  match calls with
  | [] => True
  | (c, m) :: rest =>
      creates c m w <> Some i /\ neverCreates i rest (exec c m w)
  end.

(** A sequence with runs of equal neighbours collapsed to one element. *)
Fixpoint changes (l : list EscrowState) : list EscrowState :=
  match l with
  | [] => []
  | s :: rest =>
      match rest with
      | [] => [s]
      | s' :: _ => if decide (s = s') then changes rest else s :: changes rest
      end
  end.

(** The states escrow [i] is seen in, from [w] on. *)
Definition observed (i : bytes32) (calls : list (Call * Msg)) (w : World)
  : list EscrowState :=
  changes (map (fun w' => state (getEscrow w' i)) (w :: run calls w)).

(** The caller holds the role the addressed function asks for. *)
Definition holdsRole (c : Call) (m : Msg) (w : World) : Prop :=
  match c with
  | SubmitWork i _ => msg_sender m = worker (getEscrow w i)
  | Release i | Dispute i => msg_sender m = client (getEscrow w i)
  | Resolve i _ => msg_sender m = arbitrator w
  | _ => True
  end.

(** The error of the role modifier the addressed function carries
    ([onlyWorker], [onlyClient], [onlyArbitrator]); [acceptEscrow] and
    [autoRelease] carry none and go straight to [inState]. *)
Definition roleError (c : Call) : Error :=
  match c with
  | SubmitWork _ _ => OnlyWorker
  | Release _ | Dispute _ => OnlyClient
  | Resolve _ _ => OnlyArbitrator
  | _ => InvalidState
  end.

(** The ways a lifecycle can go on from state [s], [s] included. *)
Definition continuations (s : EscrowState) : list (list EscrowState) :=
  match s with
  | Pending => lifecycles
  | Active => [ [Active; Submitted; Disputed; Resolved];
                [Active; Submitted; Resolved] ]
  | Submitted => [ [Submitted; Disputed; Resolved]; [Submitted; Resolved] ]
  | Disputed => [ [Disputed; Resolved] ]
  | Resolved => [ [Resolved] ]
  end.

End External.

(** A callee that plays a script: each time it has control it makes the
    calls [script] lists for it, one after the other, catching those that
    revert (the [try]/[catch] of the test-suite's [ReentrancyAttacker]).
    The calls it makes are open to callbacks in turn, [depth] levels deep. *)
Fixpoint reentrant (keccak256 : address -> Z -> Z -> bytes32)
  (script : address -> World -> list (Call * Msg)) (depth : nat)
  (callee : address) (w : World) : World :=
  match depth with
  | O => w
  | S d =>
      fold_left
        (fun w' cm => exec keccak256 (reentrant keccak256 script d)
                        (fst cm) (snd cm) w')
        (script callee w) w
  end.

End AgentEscrow.

(** ** contracts/src/Escrow.sol

    Every external function that moves funds carries [nonReentrant]; calls
    are executed one at a time here, so the guard is always open and leaves
    no trace in the model. *)

Module Escrow.

Inductive EscrowState :=
| PENDING | ACTIVE | SUBMITTED | DISPUTED | RESOLVED | CANCELLED.

#[global] Instance EscrowState_eq_dec : EqDecision EscrowState.
Proof. solve_decision. Defined.

Record EscrowData := mkEscrowData {
  client : address;
  worker : address;
  arbiter : address;
  token : address;
  amount : uint256;
  deadline : uint256;
  criteriaHash : bytes32;
  evidenceHash : bytes32;
  state : EscrowState;
  createdAt : uint256;
  submittedAt : uint256
}.

Definition zeroEscrow : EscrowData :=
  mkEscrowData 0 0 0 0 0 0 0 0 PENDING 0 0.

Record World := mkWorld {
  self : address;
  escrows : gmap Z EscrowData;
  _escrowCounter : uint256;
  protocolArbiter : address;
  owner : address;
  chain : Chain
}.

Definition MIN_ESCROW : Z := 10 ^ 15.          (* 0.001 ether *)
Definition MAX_ESCROW : Z := 5 * 10 ^ 18.      (* 5 ether *)
Definition REVIEW_TIMEOUT : Z := 4 * 3600.     (* 4 hours *)
Definition ARBITER_FEE_BPS : Z := 500.
Definition DISPUTE_FEE_BPS : Z := 100.
Definition BPS_DENOMINATOR : Z := 10000.

Inductive Error :=
| InvalidAmount | InvalidWorker | InvalidDeadline | EscrowNotFound
| InvalidState | NotAuthorized | TransferFailed | DeadlinePassed
| ReviewPeriodActive | InvalidPercentage
| Panic | CalleeReverted | ValueRejected.

Abbreviation Result := (Outcome_of Error).

Definition arith (o : option Z) : Result Z :=
  match o with
  | Some z => Ok z
  | None => Revert Panic
  end.

Definition getEscrow (w : World) (escrowId : bytes32) : EscrowData :=
  default zeroEscrow (escrows w !! escrowId).

Definition set_escrow (escrowId : bytes32) (e : EscrowData) (w : World) : World :=
  mkWorld (self w) (<[escrowId := e]> (escrows w)) (_escrowCounter w)
    (protocolArbiter w) (owner w) (chain w).

Definition set_chain (c : Chain) (w : World) : World :=
  mkWorld (self w) (escrows w) (_escrowCounter w) (protocolArbiter w)
    (owner w) c.

Definition set_counter (n : Z) (w : World) : World :=
  mkWorld (self w) (escrows w) n (protocolArbiter w) (owner w) (chain w).

Definition set_protocolArbiter (a : address) (w : World) : World :=
  mkWorld (self w) (escrows w) (_escrowCounter w) a (owner w) (chain w).

Definition set_owner (a : address) (w : World) : World :=
  mkWorld (self w) (escrows w) (_escrowCounter w) (protocolArbiter w) a
    (chain w).

Definition with_state (s : EscrowState) (e : EscrowData) : EscrowData :=
  mkEscrowData (client e) (worker e) (arbiter e) (token e) (amount e)
    (deadline e) (criteriaHash e) (evidenceHash e) s (createdAt e)
    (submittedAt e).

Definition delivered (evidence : bytes32) (now : Z) (e : EscrowData)
  : EscrowData :=
  mkEscrowData (client e) (worker e) (arbiter e) (token e) (amount e)
    (deadline e) (criteriaHash e) evidence SUBMITTED (createdAt e) now.

(** [constructor(_protocolArbiter)], deployed by [deployer] at [at_]. *)
Definition constructor (_protocolArbiter deployer at_ : address) (c : Chain)
  : World :=
  {| self := at_;
     escrows := ∅;
     _escrowCounter := 0;
     protocolArbiter := _protocolArbiter;
     owner := deployer;
     chain := c |}.

(** *** Modifiers *)

Definition onlyOwner (m : Msg) (w : World) : Result unit :=
  if decide (msg_sender m ≠ owner w) then Revert NotAuthorized else Ok tt.

Definition onlyArbiter (m : Msg) (w : World) : Result unit :=
  if decide (msg_sender m ≠ protocolArbiter w) then Revert NotAuthorized
  else Ok tt.

Definition escrowExists (escrowId : bytes32) (w : World) : Result unit :=
  if decide (client (getEscrow w escrowId) = 0) then Revert EscrowNotFound
  else Ok tt.

Definition inState (escrowId : bytes32) (expectedState : EscrowState)
  (w : World) : Result unit :=
  if decide (state (getEscrow w escrowId) ≠ expectedState)
  then Revert InvalidState else Ok tt.

(** *** Internal *)

(** [_transferFunds]: both branches check the success flag. *)
Definition _transferFunds (tok to : address) (amt : Z) (w : World)
  : Result World :=
  if decide (tok = 0) then
    let '(success, c) := send_value (self w) to amt (chain w) in
    if success then Ok (set_chain c w) else Revert TransferFailed
  else
    match erc20_transfer tok (self w) to amt (chain w) with
    | Returned true c => Ok (set_chain c w)
    | Returned false _ => Revert TransferFailed
    | Reverted => Revert CalleeReverted
    end.

(** *** Views *)

Definition escrowExistsCheck (w : World) (escrowId : bytes32) : bool :=
  bool_decide (client (getEscrow w escrowId) ≠ 0).

Section External.

(** [keccak256(abi.encodePacked(block.timestamp, msg.sender, _escrowCounter++))] *)
Variable keccak256 : Z -> address -> Z -> bytes32.

Definition _generateEscrowId (m : Msg) (w : World) : Result (bytes32 * World) :=
  let! next := arith (checked_add (_escrowCounter w) 1) in
  Ok (keccak256 (block_timestamp m) (msg_sender m) (_escrowCounter w),
      set_counter next w).

Definition createEscrow (worker_ : address) (deadline_ : Z) (criteria : bytes32)
  (m : Msg) (w : World) : Result (bytes32 * World) :=
  if decide (msg_value m < MIN_ESCROW \/ msg_value m > MAX_ESCROW)
  then Revert InvalidAmount
  else if decide (worker_ = 0 \/ worker_ = msg_sender m)
  then Revert InvalidWorker
  else if decide (deadline_ <= block_timestamp m) then Revert InvalidDeadline
  else
    let! r := _generateEscrowId m w in
    let '(escrowId, w1) := r in
    Ok (escrowId,
        set_escrow escrowId
          (mkEscrowData (msg_sender m) worker_ (protocolArbiter w1) 0
             (msg_value m) deadline_ criteria 0 PENDING (block_timestamp m) 0)
          w1).

Definition createEscrowERC20 (worker_ tok : address) (amt deadline_ : Z)
  (criteria : bytes32) (m : Msg) (w : World) : Result (bytes32 * World) :=
  if decide (amt = 0) then Revert InvalidAmount
  else if decide (worker_ = 0 \/ worker_ = msg_sender m)
  then Revert InvalidWorker
  else if decide (deadline_ <= block_timestamp m) then Revert InvalidDeadline
  else
    let! w0 :=
      match erc20_transferFrom tok (self w) (msg_sender m) (self w) amt
              (chain w) with
      | Returned true c => Ok (set_chain c w)
      | Returned false _ => Revert TransferFailed
      | Reverted => Revert CalleeReverted
      end in
    let! r := _generateEscrowId m w0 in
    let '(escrowId, w1) := r in
    Ok (escrowId,
        set_escrow escrowId
          (mkEscrowData (msg_sender m) worker_ (protocolArbiter w1) tok
             amt deadline_ criteria 0 PENDING (block_timestamp m) 0)
          w1).

Definition acceptEscrow (escrowId : bytes32) (m : Msg) (w : World)
  : Result World :=
  check! escrowExists escrowId w in
  check! inState escrowId PENDING w in
  let escrow := getEscrow w escrowId in
  if decide (msg_sender m ≠ worker escrow) then Revert NotAuthorized
  else if decide (block_timestamp m > deadline escrow) then Revert DeadlinePassed
  else Ok (set_escrow escrowId (with_state ACTIVE escrow) w).

Definition submitDeliverable (escrowId evidence : bytes32) (m : Msg) (w : World)
  : Result World :=
  check! escrowExists escrowId w in
  check! inState escrowId ACTIVE w in
  let escrow := getEscrow w escrowId in
  if decide (msg_sender m ≠ worker escrow) then Revert NotAuthorized
  else Ok (set_escrow escrowId (delivered evidence (block_timestamp m) escrow) w).

Definition releasePayment (escrowId : bytes32) (m : Msg) (w : World)
  : Result World :=
  check! escrowExists escrowId w in
  check! inState escrowId SUBMITTED w in
  let escrow := getEscrow w escrowId in
  if decide (msg_sender m ≠ client escrow) then Revert NotAuthorized
  else
    let w1 := set_escrow escrowId (with_state RESOLVED escrow) w in
    _transferFunds (token escrow) (worker escrow) (amount escrow) w1.

Definition dispute (escrowId reasonHash : bytes32) (m : Msg) (w : World)
  : Result World :=
  check! escrowExists escrowId w in
  check! inState escrowId SUBMITTED w in
  let escrow := getEscrow w escrowId in
  if decide (msg_sender m ≠ client escrow) then Revert NotAuthorized
  else
    let! closes := arith (checked_add (submittedAt escrow) REVIEW_TIMEOUT) in
    if decide (block_timestamp m > closes) then Revert ReviewPeriodActive
    else Ok (set_escrow escrowId (with_state DISPUTED escrow) w).

Definition resolveDispute (escrowId : bytes32) (workerPct : Z) (m : Msg)
  (w : World) : Result World :=
  check! onlyArbiter m w in
  check! escrowExists escrowId w in
  check! inState escrowId DISPUTED w in
  if decide (workerPct > 100) then Revert InvalidPercentage
  else
    let escrow := getEscrow w escrowId in
    let w1 := set_escrow escrowId (with_state RESOLVED escrow) w in
    let! product := arith (checked_mul (amount escrow) ARBITER_FEE_BPS) in
    let arbiterFee := product / BPS_DENOMINATOR in
    let! remaining := arith (checked_sub (amount escrow) arbiterFee) in
    let! scaled := arith (checked_mul remaining workerPct) in
    let workerAmount := scaled / 100 in
    let! clientAmount := arith (checked_sub remaining workerAmount) in
    let! w2 := (if decide (arbiterFee > 0)
                then _transferFunds (token escrow) (arbiter escrow) arbiterFee w1
                else Ok w1) in
    let! w3 := (if decide (workerAmount > 0)
                then _transferFunds (token escrow) (worker escrow) workerAmount w2
                else Ok w2) in
    if decide (clientAmount > 0)
    then _transferFunds (token escrow) (client escrow) clientAmount w3
    else Ok w3.

Definition cancelEscrow (escrowId : bytes32) (m : Msg) (w : World)
  : Result World :=
  check! escrowExists escrowId w in
  check! inState escrowId PENDING w in
  let escrow := getEscrow w escrowId in
  if decide (msg_sender m ≠ client escrow) then Revert NotAuthorized
  else
    let w1 := set_escrow escrowId (with_state CANCELLED escrow) w in
    _transferFunds (token escrow) (client escrow) (amount escrow) w1.

Definition claimExpiredEscrow (escrowId : bytes32) (m : Msg) (w : World)
  : Result World :=
  check! escrowExists escrowId w in
  check! inState escrowId SUBMITTED w in
  let escrow := getEscrow w escrowId in
  if decide (msg_sender m ≠ worker escrow) then Revert NotAuthorized
  else
    let! closes := arith (checked_add (submittedAt escrow) REVIEW_TIMEOUT) in
    if decide (block_timestamp m <= closes) then Revert ReviewPeriodActive
    else
      let w1 := set_escrow escrowId (with_state RESOLVED escrow) w in
      _transferFunds (token escrow) (worker escrow) (amount escrow) w1.

(** *** Admin *)

Definition setProtocolArbiter (newArbiter : address) (m : Msg) (w : World)
  : Result World :=
  check! onlyOwner m w in
  Ok (set_protocolArbiter newArbiter w).

Definition transferOwnership (newOwner : address) (m : Msg) (w : World)
  : Result World :=
  check! onlyOwner m w in
  Ok (set_owner newOwner w).

(** *** Transactions *)

Inductive Call :=
| CreateEscrow (worker_ : address) (deadline_ : Z) (criteria : bytes32)
| CreateEscrowERC20 (worker_ tok : address) (amt deadline_ : Z)
    (criteria : bytes32)
| AcceptEscrow (escrowId : bytes32)
| SubmitDeliverable (escrowId evidence : bytes32)
| ReleasePayment (escrowId : bytes32)
| Dispute (escrowId reasonHash : bytes32)
| ResolveDispute (escrowId : bytes32) (workerPct : Z)
| CancelEscrow (escrowId : bytes32)
| ClaimExpiredEscrow (escrowId : bytes32)
| SetProtocolArbiter (newArbiter : address)
| TransferOwnership (newOwner : address).

Definition payable (c : Call) : bool :=
  match c with
  | CreateEscrow _ _ _ => true
  | _ => false
  end.

Definition takeValue (accepts : bool) (m : Msg) (w : World) : Result World :=
  if decide (msg_value m = 0) then Ok w
  else if accepts then
    match move 0 (msg_sender m) (self w) (msg_value m) (chain w) with
    | Some c => Ok (set_chain c w)
    | None => Revert ValueRejected
    end
  else Revert ValueRejected.

Definition call (c : Call) (m : Msg) (w : World) : Result World :=
  let! w0 := takeValue (payable c) m w in
  match c with
  | CreateEscrow worker_ deadline_ criteria =>
      let! r := createEscrow worker_ deadline_ criteria m w0 in Ok (snd r)
  | CreateEscrowERC20 worker_ tok amt deadline_ criteria =>
      let! r := createEscrowERC20 worker_ tok amt deadline_ criteria m w0 in
      Ok (snd r)
  | AcceptEscrow escrowId => acceptEscrow escrowId m w0
  | SubmitDeliverable escrowId evidence => submitDeliverable escrowId evidence m w0
  | ReleasePayment escrowId => releasePayment escrowId m w0
  | Dispute escrowId reasonHash => dispute escrowId reasonHash m w0
  | ResolveDispute escrowId workerPct => resolveDispute escrowId workerPct m w0
  | CancelEscrow escrowId => cancelEscrow escrowId m w0
  | ClaimExpiredEscrow escrowId => claimExpiredEscrow escrowId m w0
  | SetProtocolArbiter a => setProtocolArbiter a m w0
  | TransferOwnership a => transferOwnership a m w0
  end.

Definition exec (c : Call) (m : Msg) (w : World) : World :=
  match call c m w with
  | Ok w' => w'
  | Revert _ => w
  end.

Definition creates (c : Call) (m : Msg) (w : World) : option bytes32 :=
  match c with
  | CreateEscrow _ _ _ | CreateEscrowERC20 _ _ _ _ _ =>
      Some (keccak256 (block_timestamp m) (msg_sender m) (_escrowCounter w))
  | _ => None
  end.

Definition target (c : Call) : option bytes32 :=
  match c with
  | AcceptEscrow i | SubmitDeliverable i _ | ReleasePayment i | Dispute i _
  | ResolveDispute i _ | CancelEscrow i | ClaimExpiredEscrow i => Some i
  | _ => None
  end.

(** *** The lifecycle, as the specification draws it *)

Inductive advances : EscrowState -> EscrowState -> Prop :=
| advances_accept : advances PENDING ACTIVE
| advances_cancel : advances PENDING CANCELLED
| advances_submit : advances ACTIVE SUBMITTED
| advances_dispute : advances SUBMITTED DISPUTED
| advances_release : advances SUBMITTED RESOLVED
| advances_resolve : advances DISPUTED RESOLVED.

Definition lifecycles : list (list EscrowState) :=
  [ [PENDING; ACTIVE; SUBMITTED; DISPUTED; RESOLVED];
    [PENDING; ACTIVE; SUBMITTED; RESOLVED];
    [PENDING; CANCELLED] ].

Fixpoint run (calls : list (Call * Msg)) (w : World) : list World :=
  match calls with
  | [] => []
  | (c, m) :: rest => let w' := exec c m w in w' :: run rest w'
  end.

Fixpoint neverCreates (i : bytes32) (calls : list (Call * Msg)) (w : World)
  : Prop :=
  match calls with
  | [] => True
  | (c, m) :: rest =>
      creates c m w <> Some i /\ neverCreates i rest (exec c m w)
  end.

Fixpoint changes (l : list EscrowState) : list EscrowState :=
  match l with
  | [] => []
  | s :: rest =>
      match rest with
      | [] => [s]
      | s' :: _ => if decide (s = s') then changes rest else s :: changes rest
      end
  end.

Definition observed (i : bytes32) (calls : list (Call * Msg)) (w : World)
  : list EscrowState :=
  changes (map (fun w' => state (getEscrow w' i)) (w :: run calls w)).

(** The caller holds the role the addressed function asks for. *)
Definition holdsRole (c : Call) (m : Msg) (w : World) : Prop :=
  match c with
  | ResolveDispute _ _ => msg_sender m = protocolArbiter w
  | _ => True
  end.

Definition continuations (s : EscrowState) : list (list EscrowState) :=
  match s with
  | PENDING => lifecycles
  | ACTIVE => [ [ACTIVE; SUBMITTED; DISPUTED; RESOLVED];
                [ACTIVE; SUBMITTED; RESOLVED] ]
  | SUBMITTED => [ [SUBMITTED; DISPUTED; RESOLVED]; [SUBMITTED; RESOLVED] ]
  | DISPUTED => [ [DISPUTED; RESOLVED] ]
  | RESOLVED => [ [RESOLVED] ]
  | CANCELLED => [ [CANCELLED] ]
  end.

End External.

End Escrow.

(** ** Vocabulary of the properties *)

(** The movement a payout of [amt] makes: nothing for a zero amount. *)
Definition payout (asset from to : address) (amt : Z) : list Transfer :=
  if decide (amt = 0) then [] else [mkTransfer asset from to amt].


(** An asset honours transfers: the native currency, or a token whose
    [shouldFail] flag is down. *)
Definition honours (c : Chain) (asset : address) : Prop :=
  asset = 0 \/ asset ∉ shouldFail c.

(** An escrow of [Escrow] keeps its funds until it is resolved or
    cancelled. *)
Definition holdsFunds (s : Escrow.EscrowState) : bool :=
  match s with
  | Escrow.RESOLVED | Escrow.CANCELLED => false
  | _ => true
  end.

(** What the record [e] still holds of [asset]. *)
Definition held (asset : address) (e : Escrow.EscrowData) : Z :=
  if decide (Escrow.token e = asset) then
    if holdsFunds (Escrow.state e) then Escrow.amount e else 0
  else 0.

(** What the contract owes in [asset]: the amounts of all the escrows that
    still hold their funds. *)
Definition owed (w : Escrow.World) (asset : address) : Z :=
  map_fold (fun _ e acc => held asset e + acc) 0 (Escrow.escrows w).

(** The contract holds, in every asset, at least what it owes. *)
Definition solvent (w : Escrow.World) : Prop :=
  map_Forall (fun _ e => 0 <= Escrow.amount e) (Escrow.escrows w)
  /\ forall asset, owed w asset <= bal (Escrow.chain w) asset (Escrow.self w).

(** A transaction as the EVM delivers it: the caller is not the contract
    itself, and the [uint] arguments are not negative. *)
Definition delivered_by_evm (self : address) (cm : Escrow.Call * Msg) : Prop :=
  msg_sender (snd cm) <> self
  /\ 0 <= msg_value (snd cm)
  /\ match fst cm with
     | Escrow.CreateEscrowERC20 _ _ amt _ _ => 0 <= amt
     | Escrow.ResolveDispute _ pct => 0 <= pct
     | _ => True
     end.

(** ** The cast of the test-suite

    The accounts and balances the repository's Foundry tests set up, as
    concrete worlds to evaluate the contracts on. *)

Module Scenario.

(** Stands in for [keccak256] in the examples: it packs its three inputs. *)
Definition packed (a b c : Z) : Z := a * 2 ^ 128 + b * 2 ^ 64 + c.

Definition deployer : address := 9.
Definition arbitrator : address := 10.   (* address(0xA) *)
Definition client : address := 11.       (* address(0xB) *)
Definition worker : address := 12.       (* address(0xC) *)
Definition attacker : address := 13.     (* address(0xD) *)
Definition successor : address := 15.    (* address(0xF) *)
Definition usdc : address := 256.
Definition malToken : address := 512.
Definition escrowContract : address := 4096.

Definition criteria : bytes32 := 77.
Definition evidence : bytes32 := 88.
Definition day : Z := 86400.

(** [setUp]: the client holds 100 000 USDC, as many of the malicious token
    and 100 ether, and has approved the escrow contract without limit. *)
Definition funded : Chain :=
  {| balanceOf :=
       <[(usdc, client) := 100000 * 10 ^ 6]>
         (<[(malToken, client) := 100000 * 10 ^ 6]>
            (<[(0, client) := 100 * 10 ^ 18]> ∅));
     allowance :=
       <[(usdc, client, escrowContract) := MAX_UINT256]>
         (<[(malToken, client, escrowContract) := MAX_UINT256]> ∅);
     shouldFail := ∅;
     rejecting := ∅;
     moved := [] |}.

(** [malToken.setShouldFail(true)] *)
Definition setShouldFail (c : Chain) : Chain :=
  {| balanceOf := balanceOf c; allowance := allowance c;
     shouldFail := {[malToken]} ∪ shouldFail c;
     rejecting := rejecting c; moved := moved c |}.

(** [who] is a contract that cannot receive native value. *)
Definition refusing (who : address) (c : Chain) : Chain :=
  {| balanceOf := balanceOf c; allowance := allowance c;
     shouldFail := shouldFail c;
     rejecting := {[who]} ∪ rejecting c; moved := moved c |}.

(** *** AgentEscrow: create, accept, submit, then each way out *)

Definition ae_deployed : AgentEscrow.World :=
  AgentEscrow.constructor arbitrator escrowContract funded.

Definition ae_id : bytes32 := packed client 0 1.

Definition ae_created : AgentEscrow.World :=
  AgentEscrow.exec packed AgentEscrow.quiet
    (AgentEscrow.CreateEscrow usdc (1000 * 10 ^ 6) (1 + day) criteria)
    (mkMsg client 0 1) ae_deployed.

Definition ae_accepted : AgentEscrow.World :=
  AgentEscrow.exec packed AgentEscrow.quiet (AgentEscrow.AcceptEscrow ae_id)
    (mkMsg worker 0 2) ae_created.

Definition ae_submitted : AgentEscrow.World :=
  AgentEscrow.exec packed AgentEscrow.quiet (AgentEscrow.SubmitWork ae_id evidence)
    (mkMsg worker 0 3) ae_accepted.

Definition ae_released : AgentEscrow.World :=
  AgentEscrow.exec packed AgentEscrow.quiet (AgentEscrow.Release ae_id)
    (mkMsg client 0 4) ae_submitted.

Definition ae_disputed : AgentEscrow.World :=
  AgentEscrow.exec packed AgentEscrow.quiet (AgentEscrow.Dispute ae_id)
    (mkMsg client 0 4) ae_submitted.

Definition ae_resolved (pct : Z) : AgentEscrow.World :=
  AgentEscrow.exec packed AgentEscrow.quiet (AgentEscrow.Resolve ae_id pct)
    (mkMsg arbitrator 0 5) ae_disputed.


(** [test_ArbitratorTransfer] *)
Definition ae_nominated : AgentEscrow.World :=
  AgentEscrow.exec packed AgentEscrow.quiet (AgentEscrow.InitiateArbitratorTransfer successor)
    (mkMsg arbitrator 0 1) ae_deployed.

Definition ae_handed_over : AgentEscrow.World :=
  AgentEscrow.exec packed AgentEscrow.quiet AgentEscrow.AcceptArbitratorTransfer
    (mkMsg successor 0 2) ae_nominated.

(** The transactions of the happy path, with a stray accept and a second
    release. *)
Definition happy_path (i : bytes32) : list (AgentEscrow.Call * Msg) :=
  [ (AgentEscrow.AcceptEscrow i, mkMsg worker 0 2);
    (AgentEscrow.SubmitWork i evidence, mkMsg worker 0 3);
    (AgentEscrow.AcceptEscrow i, mkMsg attacker 0 3);
    (AgentEscrow.Release i, mkMsg client 0 4);
    (AgentEscrow.Release i, mkMsg client 0 5) ].



(** [test_MaliciousTokenTransferFailure]: an escrow in the malicious token,
    submitted, and then the token starts failing. *)
Definition mal_id : bytes32 := packed client 0 1.

Definition mal_created : AgentEscrow.World :=
  AgentEscrow.exec packed AgentEscrow.quiet
    (AgentEscrow.CreateEscrow malToken (100 * 10 ^ 6) (1 + day) criteria)
    (mkMsg client 0 1) ae_deployed.

Definition mal_submitted : AgentEscrow.World :=
  AgentEscrow.exec packed AgentEscrow.quiet (AgentEscrow.SubmitWork mal_id evidence)
    (mkMsg worker 0 3)
    (AgentEscrow.exec packed AgentEscrow.quiet (AgentEscrow.AcceptEscrow mal_id)
       (mkMsg worker 0 2) mal_created).

Definition mal_failing : AgentEscrow.World :=
  AgentEscrow.set_chain (setShouldFail (AgentEscrow.chain mal_submitted))
    mal_submitted.

Definition mal_released : AgentEscrow.World :=
  AgentEscrow.exec packed AgentEscrow.quiet (AgentEscrow.Release mal_id) (mkMsg client 0 4)
    mal_failing.

(** The client disputes that escrow while the token still moves (the fee of
    one token is pulled), and then the token starts failing. *)
Definition mal_disputed : AgentEscrow.World :=
  AgentEscrow.exec packed AgentEscrow.quiet (AgentEscrow.Dispute mal_id)
    (mkMsg client 0 4) mal_submitted.

Definition mal_disputed_failing : AgentEscrow.World :=
  AgentEscrow.set_chain (setShouldFail (AgentEscrow.chain mal_disputed))
    mal_disputed.

Definition mal_resolved (pct : Z) : AgentEscrow.World :=
  AgentEscrow.exec packed AgentEscrow.quiet (AgentEscrow.Resolve mal_id pct)
    (mkMsg arbitrator 0 5) mal_disputed_failing.

(** The same token failing from the start, and an escrow created in it. *)
Definition failing_deployed : AgentEscrow.World :=
  AgentEscrow.set_chain (setShouldFail funded) ae_deployed.

Definition failing_created : AgentEscrow.World :=
  AgentEscrow.exec packed AgentEscrow.quiet
    (AgentEscrow.CreateEscrow malToken (100 * 10 ^ 6) (1 + day) criteria)
    (mkMsg client 0 1) failing_deployed.

(** The client takes its own job. *)
Definition ae_self_accepted : AgentEscrow.World :=
  AgentEscrow.exec packed AgentEscrow.quiet (AgentEscrow.AcceptEscrow ae_id)
    (mkMsg client 0 2) ae_created.

(** An identifier no escrow was created under. *)
Definition unknown_id : bytes32 := 12345.

(** A native escrow of 1000e6 wei, submitted. *)
Definition eth_id : bytes32 := packed client 0 1.

Definition eth_created : AgentEscrow.World :=
  AgentEscrow.exec packed AgentEscrow.quiet
    (AgentEscrow.CreateEscrow 0 (1000 * 10 ^ 6) (1 + day) criteria)
    (mkMsg client (1000 * 10 ^ 6) 1) ae_deployed.

Definition eth_submitted : AgentEscrow.World :=
  AgentEscrow.exec packed AgentEscrow.quiet (AgentEscrow.SubmitWork eth_id evidence)
    (mkMsg worker 0 3)
    (AgentEscrow.exec packed AgentEscrow.quiet (AgentEscrow.AcceptEscrow eth_id)
       (mkMsg worker 0 2) eth_created).

(** The same escrow when the worker cannot receive native value. *)
Definition eth_refused : AgentEscrow.World :=
  AgentEscrow.set_chain (refusing worker (AgentEscrow.chain eth_submitted))
    eth_submitted.

(** [test_ReentrancyProtection_AutoRelease]: the worker of the native
    escrow is the attacker contract, whose [receive] calls [autoRelease]
    again on the escrow being paid out. *)
Definition atk_submitted : AgentEscrow.World :=
  AgentEscrow.exec packed AgentEscrow.quiet
    (AgentEscrow.SubmitWork eth_id evidence) (mkMsg attacker 0 3)
    (AgentEscrow.exec packed AgentEscrow.quiet (AgentEscrow.AcceptEscrow eth_id)
       (mkMsg attacker 0 2) eth_created).

Definition ReentrancyAttacker (callee : address) (w : AgentEscrow.World)
  : list (AgentEscrow.Call * Msg) :=
  if decide (callee = attacker)
  then [(AgentEscrow.AutoRelease eth_id, mkMsg attacker 0 (3 + 5 * 3600))]
  else [].

(** A second escrow, of 2000 USDC, shares the contract with the submitted
    one. *)
Definition ae_pooled : AgentEscrow.World :=
  AgentEscrow.exec packed AgentEscrow.quiet
    (AgentEscrow.CreateEscrow usdc (2000 * 10 ^ 6) (3 + day) criteria)
    (mkMsg client 0 3) ae_submitted.

Definition other_id : bytes32 := packed client 1 3.

(** A token with transfer hooks: each time the token has control, the
    client, a contract, releases the escrow [ae_id]. *)
Definition releases_back (callee : address) (w : AgentEscrow.World)
  : list (AgentEscrow.Call * Msg) :=
  if decide (callee = usdc)
  then [(AgentEscrow.Release ae_id, mkMsg client 0 4)]
  else [].

Definition hooked : address -> AgentEscrow.World -> AgentEscrow.World :=
  AgentEscrow.reentrant packed releases_back 1.

(** The client disputes through the hooked token, and the arbitrator
    resolves the dispute for the worker. *)
Definition ae_reopened : AgentEscrow.World :=
  AgentEscrow.exec packed hooked (AgentEscrow.Dispute ae_id)
    (mkMsg client 0 4) ae_pooled.

Definition ae_repaid : AgentEscrow.World :=
  AgentEscrow.exec packed AgentEscrow.quiet (AgentEscrow.Resolve ae_id 100)
    (mkMsg arbitrator 0 5) ae_reopened.

(** *** Escrow: one ether for a designated worker *)

Definition v1_deployed : Escrow.World :=
  Escrow.constructor arbitrator deployer escrowContract funded.

Definition v1_id : bytes32 := packed 1 client 0.

Definition v1_created : Escrow.World :=
  Escrow.exec packed (Escrow.CreateEscrow worker (1 + day) criteria)
    (mkMsg client (10 ^ 18) 1) v1_deployed.

Definition v1_accepted : Escrow.World :=
  Escrow.exec packed (Escrow.AcceptEscrow v1_id) (mkMsg worker 0 2) v1_created.

Definition v1_submitted : Escrow.World :=
  Escrow.exec packed (Escrow.SubmitDeliverable v1_id evidence)
    (mkMsg worker 0 3) v1_accepted.

Definition v1_disputed : Escrow.World :=
  Escrow.exec packed (Escrow.Dispute v1_id 0) (mkMsg client 0 4) v1_submitted.

Definition v1_resolved (pct : Z) : Escrow.World :=
  Escrow.exec packed (Escrow.ResolveDispute v1_id pct)
    (mkMsg arbitrator 0 5) v1_disputed.

Definition v1_cancel_path : list (Escrow.Call * Msg) :=
  [ (Escrow.AcceptEscrow v1_id, mkMsg client 0 2);
    (Escrow.CancelEscrow v1_id, mkMsg client 0 3);
    (Escrow.AcceptEscrow v1_id, mkMsg worker 0 4) ].

End Scenario.

(** * Facts about the chain *)

Section ChainFacts.

Lemma checked_sub_Some a b r :
  checked_sub a b = Some r <-> b <= a /\ r = a - b.
Proof.
  unfold checked_sub. destruct (Z.leb_spec b a); split.
  - intros [= <-]. lia.
  - intros [_ ->]. reflexivity.
  - discriminate.
  - lia.
Qed.

Lemma checked_add_Some a b r :
  checked_add a b = Some r <-> a + b <= MAX_UINT256 /\ r = a + b.
Proof.
  unfold checked_add. destruct (Z.leb_spec (a + b) MAX_UINT256); split.
  - intros [= <-]. lia.
  - intros [_ ->]. reflexivity.
  - discriminate.
  - lia.
Qed.

Lemma checked_mul_Some a b r :
  checked_mul a b = Some r <-> a * b <= MAX_UINT256 /\ r = a * b.
Proof.
  unfold checked_mul. destruct (Z.leb_spec (a * b) MAX_UINT256); split.
  - intros [= <-]. lia.
  - intros [_ ->]. reflexivity.
  - discriminate.
  - lia.
Qed.

Lemma checked_sub_None a b : checked_sub a b = None <-> a < b.
Proof.
  unfold checked_sub. destruct (Z.leb_spec b a); split; intros H0;
    first [discriminate | lia | reflexivity].
Qed.

Lemma total_app l1 l2 : total (l1 ++ l2) = total l1 + total l2.
Proof. induction l1 as [|t l1 IH]; simpl; [reflexivity | rewrite IH; lia]. Qed.

Lemma total_payout asset from to amt : total (payout asset from to amt) = amt.
Proof. unfold payout. case_decide; simpl; lia. Qed.

(** A move changes the balances and the record of movements, nothing else. *)
Lemma move_frame asset from to v c c' :
  move asset from to v c = Some c' ->
  moved c' = moved c ++ [mkTransfer asset from to v]
  /\ allowance c' = allowance c
  /\ shouldFail c' = shouldFail c
  /\ rejecting c' = rejecting c.
Proof.
  unfold move. intros H.
  destruct (checked_sub _ _); [|discriminate].
  destruct (checked_add _ _); [|discriminate].
  injection H as <-. simpl. auto.
Qed.

(** The balance of every holder after a move. *)
Lemma bal_move asset from to v c c' a x :
  move asset from to v c = Some c' ->
  bal c' a x =
    bal c a x
    - (if decide ((a, x) = (asset, from)) then v else 0)
    + (if decide ((a, x) = (asset, to)) then v else 0).
Proof.
  unfold move. intros H.
  destruct (checked_sub _ _) as [rest|] eqn:Hs; [|discriminate].
  destruct (checked_add _ _) as [more|] eqn:Ha; [|discriminate].
  apply checked_sub_Some in Hs as [Hle ->].
  apply checked_add_Some in Ha as [Hle' ->].
  injection H as <-. unfold bal in *. simpl.
  destruct (decide ((a, x) = (asset, to))) as [->|Hto].
  - rewrite lookup_insert_eq. simpl.
    destruct (decide ((asset, to) = (asset, from))) as [->|Hfrom].
    + rewrite lookup_insert_eq. simpl. lia.
    + rewrite lookup_insert_ne by congruence. lia.
  - rewrite lookup_insert_ne by congruence.
    destruct (decide ((a, x) = (asset, from))) as [->|Hfrom].
    + rewrite lookup_insert_eq. simpl. lia.
    + rewrite lookup_insert_ne by congruence. lia.
Qed.

Lemma bal_move_same asset from to v c c' x :
  move asset from to v c = Some c' ->
  bal c' asset x =
    bal c asset x
    - (if decide (x = from) then v else 0)
    + (if decide (x = to) then v else 0).
Proof.
  intros H. rewrite (bal_move _ _ _ _ _ _ asset x H).
  destruct (decide (x = from)), (decide (x = to)),
    (decide ((asset, x) = (asset, from))), (decide ((asset, x) = (asset, to)));
    congruence.
Qed.

(** A holder with the funds can always pay a holder with room for them. *)
Lemma move_possible asset from to v c :
  v <= bal c asset from ->
  bal c asset to - (if decide (to = from) then v else 0) + v <= MAX_UINT256 ->
  exists c', move asset from to v c = Some c'.
Proof.
  intros Hfunds Hroom. unfold move.
  destruct (checked_sub _ _) as [rest|] eqn:Hs.
  2:{ apply checked_sub_None in Hs. lia. }
  apply checked_sub_Some in Hs as [_ ->].
  destruct (checked_add _ _) as [more|] eqn:Ha; [eauto|].
  exfalso. unfold checked_add in Ha.
  destruct (Z.leb_spec
    (default 0 (<[(asset, from):=bal c asset from - v]> (balanceOf c) !! (asset, to)) + v)
    MAX_UINT256) as [|Hgt]; [discriminate|].
  destruct (decide (to = from)) as [->|Hne].
  - rewrite lookup_insert_eq in Hgt. simpl in Hgt. lia.
  - rewrite lookup_insert_ne in Hgt by congruence. unfold bal in Hroom. lia.
Qed.

End ChainFacts.

(** * Facts about calls that may revert *)

Lemma bind_Ok {E A B} (r : Outcome_of E A) (k : A -> Outcome_of E B) b :
  bind r k = Ok b <-> exists a, r = Ok a /\ k a = Ok b.
Proof.
  destruct r as [a|e]; simpl; split.
  - eauto.
  - intros (a' & [= <-] & H). exact H.
  - discriminate.
  - intros (a' & H & _). discriminate.
Qed.

(** * AgentEscrow.sol: the operations *)

Section AgentEscrowFacts.

Import AgentEscrow.

Lemma arith_Ok o z : arith o = Ok z <-> o = Some z.
Proof. destruct o; simpl; split; congruence. Qed.

Lemma onlyClient_Ok i m w u :
  onlyClient i m w = Ok u <-> msg_sender m = client (getEscrow w i).
Proof.
  unfold onlyClient. destruct u. case_decide; split; intros; try done;
    match goal with H : ¬ ¬ _ |- _ => apply dec_stable in H end; done.
Qed.

Lemma onlyWorker_Ok i m w u :
  onlyWorker i m w = Ok u <-> msg_sender m = worker (getEscrow w i).
Proof.
  unfold onlyWorker. destruct u. case_decide; split; intros; try done;
    match goal with H : ¬ ¬ _ |- _ => apply dec_stable in H end; done.
Qed.

Lemma onlyArbitrator_Ok m w u :
  onlyArbitrator m w = Ok u <-> msg_sender m = arbitrator w.
Proof.
  unfold onlyArbitrator. destruct u. case_decide; split; intros; try done;
    match goal with H : ¬ ¬ _ |- _ => apply dec_stable in H end; done.
Qed.

Lemma inState_Ok i s w u :
  inState i s w = Ok u <-> state (getEscrow w i) = s.
Proof.
  unfold inState. destruct u. case_decide; split; intros; try done;
    match goal with H : ¬ ¬ _ |- _ => apply dec_stable in H end; done.
Qed.

Lemma getEscrow_set_escrow i j e w :
  getEscrow (set_escrow i e w) j = if decide (i = j) then e else getEscrow w j.
Proof.
  unfold getEscrow, set_escrow. simpl. case_decide as Hij.
  - subst. rewrite lookup_insert_eq. reflexivity.
  - rewrite lookup_insert_ne by exact Hij. reflexivity.
Qed.

Lemma getEscrow_set_escrow_eq i e w : getEscrow (set_escrow i e w) i = e.
Proof. rewrite getEscrow_set_escrow. destruct (decide (i = i)); done. Qed.

Lemma getEscrow_set_chain c w j : getEscrow (set_chain c w) j = getEscrow w j.
Proof. reflexivity. Qed.

(** A call into a token that calls nothing back changes the chain alone. *)
Lemma call_token_Ok tok op w w' :
  call_token quiet tok op w = Ok w' -> exists c, w' = set_chain c w.
Proof.
  unfold call_token, quiet. destruct (op (chain w)) as [b c|]; [|discriminate].
  intros [= <-]. eauto.
Qed.

(** What a successful [_transfer] leaves behind: only the chain changes, and
    on an asset that honours transfers the payout is on record. *)
Lemma transfer_Ok tok to amt w w' :
  _transfer quiet tok to amt w = Ok w' ->
  exists c',
    w' = set_chain c' w
    /\ shouldFail c' = shouldFail (chain w)
    /\ rejecting c' = rejecting (chain w)
    /\ (honours (chain w) tok ->
        moved c' = moved (chain w) ++ payout tok (self w) to amt)
    /\ (~ honours (chain w) tok -> c' = chain w).
Proof.
  unfold _transfer, call_token, quiet, payout. intros H.
  destruct (decide (amt = 0)) as [->|Hamt].
  { injection H as <-. exists (chain w). destruct w; simpl.
    rewrite app_nil_r. auto. }
  destruct (decide (tok = 0)) as [->|Htok].
  - unfold send_value in H.
    destruct (decide (to ∈ rejecting (chain w))); [discriminate|].
    destruct (move 0 (self w) to amt (chain w)) as [c'|] eqn:Hm; [|discriminate].
    injection H as <-. exists c'.
    apply move_frame in Hm as (Hmv & _ & Hsf & Hrj).
    repeat split; auto. intros Hn. exfalso. apply Hn. left. reflexivity.
  - unfold erc20_transfer in H.
    destruct (decide (tok = 0)); [contradiction|].
    destruct (decide (tok ∈ shouldFail (chain w))) as [Hin|Hnin].
    + injection H as <-. exists (chain w). repeat split; auto.
      intros [?|?]; contradiction.
    + destruct (move tok (self w) to amt (chain w)) as [c'|] eqn:Hm;
        [|discriminate].
      injection H as <-. exists c'.
      apply move_frame in Hm as (Hmv & _ & Hsf & Hrj).
      repeat split; auto. intros Hn. exfalso. apply Hn. right. exact Hnin.
Qed.

(** With callees that call nothing back, the record [payWorker] reads again
    after the first payout is the record it wrote before it. *)
Lemma payWorker_quiet i w :
  payWorker quiet i w =
    let e := getEscrow w i in
    let! protocolFee := protocolFeeOf w e in
    let! workerAmount := arith (checked_sub (amount e) protocolFee) in
    let w1 := set_escrow i (resolved FullRelease 100 e) w in
    let! w2 := _transfer quiet (token e) (worker e) workerAmount w1 in
    _transfer quiet (token e) (arbitrator w2) protocolFee w2.
Proof.
  unfold payWorker. cbv zeta.
  destruct (protocolFeeOf w (getEscrow w i)) as [fee|]; [|reflexivity].
  cbn [bind].
  destruct (arith (checked_sub (amount (getEscrow w i)) fee)) as [wa|];
    [|reflexivity].
  cbn [bind].
  destruct (_transfer quiet _ _ wa _) as [w2|] eqn:H2; [|reflexivity].
  cbn [bind]. apply transfer_Ok in H2 as (c2 & -> & _).
  rewrite getEscrow_set_chain, getEscrow_set_escrow_eq. reflexivity.
Qed.

Lemma protocolFeeOf_Ok w e fee :
  protocolFeeOf w e = Ok fee <->
  amount e * protocolFeeBps w <= MAX_UINT256
  /\ fee = amount e * protocolFeeBps w / 10000.
Proof.
  unfold protocolFeeOf. rewrite bind_Ok. split.
  - intros (p & Hp & [= <-]). apply arith_Ok, checked_mul_Some in Hp as [? ->].
    auto.
  - intros [Hle ->]. exists (amount e * protocolFeeBps w). split; [|reflexivity].
    apply arith_Ok, checked_mul_Some. auto.
Qed.

Lemma disputeFeeOf_Ok w e fee :
  disputeFeeOf w e = Ok fee <->
  amount e * disputeFeeBps w <= MAX_UINT256
  /\ fee = amount e * disputeFeeBps w / 10000.
Proof.
  unfold disputeFeeOf. rewrite bind_Ok. split.
  - intros (p & Hp & [= <-]). apply arith_Ok, checked_mul_Some in Hp as [? ->].
    auto.
  - intros [Hle ->]. exists (amount e * disputeFeeBps w). split; [|reflexivity].
    apply arith_Ok, checked_mul_Some. auto.
Qed.

(** The anatomy of a successful [resolve]: who called, what was computed,
    what the record became and, on an asset that honours transfers, the
    four payouts in the order the function issues them. *)
Lemma resolve_Ok i pct m w w' :
  0 <= pct ->
  resolve quiet i pct m w = Ok w' ->
  let e := getEscrow w i in
  exists protocolFee disputeFee workerAmount clientRefund,
    msg_sender m = arbitrator w
    /\ state e = Disputed
    /\ pct <= 100
    /\ protocolFeeOf w e = Ok protocolFee
    /\ disputeFeeOf w e = Ok disputeFee
    /\ protocolFee <= amount e
    /\ workerAmount = (amount e - protocolFee) * pct / 100
    /\ 0 <= workerAmount <= amount e - protocolFee
    /\ clientRefund = amount e - protocolFee - workerAmount
    /\ getEscrow w' i = resolved (outcomeOf pct) pct e
    /\ (honours (chain w) (token e) ->
        moved (chain w') =
          moved (chain w)
          ++ payout (token e) (self w) (worker e) workerAmount
          ++ payout (token e) (self w) (client e) clientRefund
          ++ payout (token e) (self w)
               (if decide (pct >= 50) then worker e else client e) disputeFee
          ++ payout (token e) (self w) (arbitrator w) protocolFee).
Proof.
  intros Hpct H e. unfold resolve in H.
  apply bind_Ok in H as ([] & Harb & H). apply onlyArbitrator_Ok in Harb.
  apply bind_Ok in H as ([] & Hst & H). apply inState_Ok in Hst.
  destruct (decide (pct > 100)) as [|Hle]; [discriminate|].
  fold e in H.
  apply bind_Ok in H as (protocolFee & Hfee & H).
  apply bind_Ok in H as (distributable & Hdist & H).
  apply arith_Ok, checked_sub_Some in Hdist as [Hfle ->].
  apply bind_Ok in H as (scaled & Hsc & H).
  apply arith_Ok, checked_mul_Some in Hsc as [_ ->].
  apply bind_Ok in H as (clientRefund & Hcr & H).
  apply arith_Ok, checked_sub_Some in Hcr as [Hwle ->].
  apply bind_Ok in H as (disputeFee & Hdf & H).
  apply bind_Ok in H as (w2 & H2 & H).
  apply bind_Ok in H as (w3 & H3 & H).
  apply bind_Ok in H as (w4 & H4 & H).
  set (workerAmount := (amount e - protocolFee) * pct / 100) in *.
  assert (Hw0 : 0 <= workerAmount).
  { apply Z.div_pos; [|lia]. apply Z.mul_nonneg_nonneg; lia. }
  set (w1 := set_escrow i (resolved (outcomeOf pct) pct e) w) in *.
  assert (Hd : disputeFeeOf w e = Ok disputeFee) by exact Hdf.
  assert (Hrec : getEscrow w1 i = resolved (outcomeOf pct) pct e)
    by apply getEscrow_set_escrow_eq.
  (* first payout: the worker's share *)
  assert (E2 : exists c2, w2 = set_chain c2 w1
            /\ shouldFail c2 = shouldFail (chain w)
            /\ (honours (chain w) (token e) ->
                moved c2 = moved (chain w)
                  ++ payout (token e) (self w) (worker e) workerAmount)).
  { destruct (decide (workerAmount > 0)).
    - apply transfer_Ok in H2 as (c2 & -> & Hsf & _ & Hmv & _).
      exists c2. repeat split; auto.
    - injection H2 as <-. exists (chain w). repeat split.
      intros _. assert (workerAmount = 0) as -> by lia.
      unfold payout. simpl. rewrite app_nil_r. reflexivity. }
  destruct E2 as (c2 & -> & Hsf2 & Hmv2).
  rewrite ?getEscrow_set_chain, Hrec in H3. cbn [token client resolved] in H3.
  (* second payout: the client's refund *)
  assert (E3 : exists c3, w3 = set_chain c3 w1
            /\ shouldFail c3 = shouldFail (chain w)
            /\ (honours (chain w) (token e) ->
                moved c3 = moved c2
                  ++ payout (token e) (self w) (client e)
                       (amount e - protocolFee - workerAmount))).
  { destruct (decide (amount e - protocolFee - workerAmount > 0)).
    - apply transfer_Ok in H3 as (c3 & -> & Hsf & _ & Hmv & _).
      exists c3. simpl in *. repeat split; [congruence|].
      intros Hh. apply Hmv. unfold honours in *. simpl. rewrite Hsf2. exact Hh.
    - injection H3 as <-. exists c2. repeat split; auto.
      intros _.
      assert (amount e - protocolFee - workerAmount = 0) as -> by lia.
      unfold payout. simpl. rewrite app_nil_r. reflexivity. }
  destruct E3 as (c3 & -> & Hsf3 & Hmv3).
  rewrite ?getEscrow_set_chain, Hrec in H4.
  cbn [token client worker resolved] in H4.
  (* third payout: the dispute fee, to one side *)
  assert (E4 : exists c4, w4 = set_chain c4 w1
            /\ shouldFail c4 = shouldFail (chain w)
            /\ (honours (chain w) (token e) ->
                moved c4 = moved c3
                  ++ payout (token e) (self w)
                       (if decide (pct >= 50) then worker e else client e)
                       disputeFee)).
  { destruct (decide (pct >= 50));
      apply transfer_Ok in H4 as (c4 & -> & Hsf & _ & Hmv & _);
      exists c4; simpl in *; (repeat split; [congruence|]);
      intros Hh; apply Hmv; unfold honours in *; simpl; rewrite Hsf3; exact Hh. }
  destruct E4 as (c4 & -> & Hsf4 & Hmv4).
  rewrite ?getEscrow_set_chain, Hrec in H. cbn [token resolved] in H.
  (* fourth payout: the protocol fee *)
  apply transfer_Ok in H as (c5 & -> & Hsf5 & _ & Hmv5 & _). simpl in *.
  exists protocolFee, disputeFee, workerAmount,
    (amount e - protocolFee - workerAmount).
  repeat split; auto; try lia.
  intros Hh. rewrite Hmv5, Hmv4, Hmv3, Hmv2 by
    (try exact Hh; unfold honours in *; rewrite ?Hsf4; exact Hh).
  rewrite <- !app_assoc. reflexivity.
Qed.

(** The anatomy of a successful [dispute]: the client called on a submitted
    escrow, and the fee [amount * disputeFeeBps / 10000] was taken: as the
    value of the message for a native escrow, pulled from the caller for a
    token escrow. *)
Lemma dispute_Ok i m w w' :
  dispute quiet i m w = Ok w' ->
  let e := getEscrow w i in
  exists disputeFee,
    msg_sender m = client e
    /\ state e = Submitted
    /\ disputeFeeOf w e = Ok disputeFee
    /\ getEscrow w' i = disputed e
    /\ shouldFail (chain w') = shouldFail (chain w)
    /\ (token e = 0 -> msg_value m = disputeFee /\ chain w' = chain w)
    /\ (token e <> 0 -> token e ∉ shouldFail (chain w) ->
        moved (chain w') =
          moved (chain w)
          ++ [mkTransfer (token e) (msg_sender m) (self w) disputeFee]).
Proof.
  intros H e. unfold dispute in H. fold e in H.
  apply bind_Ok in H as ([] & Hcl & H). apply onlyClient_Ok in Hcl.
  apply bind_Ok in H as ([] & Hst & H). apply inState_Ok in Hst.
  apply bind_Ok in H as (fee & Hfee & H).
  apply bind_Ok in H as (w1 & H1 & H).
  injection H as <-. exists fee.
  rewrite getEscrow_set_escrow_eq.
  destruct (decide (token e = 0)) as [Htok|Htok].
  - destruct (decide (msg_value m ≠ fee)) as [|Hv]; [discriminate|].
    apply dec_stable in Hv. injection H1 as <-.
    repeat split; auto. contradiction.
  - unfold call_token, quiet, erc20_transferFrom in H1.
    destruct (decide (token e = 0)); [contradiction|].
    destruct (decide (token e ∈ shouldFail (chain w))) as [Hin|Hnin].
    + injection H1 as <-. repeat split; auto; contradiction.
    + destruct (checked_sub _ _) as [remaining|]; [|discriminate].
      match type of H1 with
      | context [move ?a ?f ?t ?v ?c] =>
          destruct (move a f t v c) as [c'|] eqn:Hm; [|discriminate]
      end.
      injection H1 as <-. apply move_frame in Hm as (Hmv & _ & Hsf & _).
      simpl in *. repeat split; auto; try contradiction.
Qed.

End AgentEscrowFacts.

(** * Escrow.sol: the operations *)

Section EscrowFacts.

Import Escrow.

Lemma arith_Ok' o z : arith o = Ok z <-> o = Some z.
Proof. destruct o; simpl; split; congruence. Qed.

Lemma onlyArbiter_Ok m w u :
  onlyArbiter m w = Ok u <-> msg_sender m = protocolArbiter w.
Proof.
  unfold onlyArbiter. destruct u. case_decide; split; intros; try done;
    match goal with H : ¬ ¬ _ |- _ => apply dec_stable in H end; done.
Qed.

Lemma escrowExists_Ok i w u :
  escrowExists i w = Ok u <-> client (getEscrow w i) <> 0.
Proof. unfold escrowExists. destruct u. case_decide; split; intros; done. Qed.

Lemma inState_Ok' i s w u :
  inState i s w = Ok u <-> state (getEscrow w i) = s.
Proof.
  unfold inState. destruct u. case_decide; split; intros; try done;
    match goal with H : ¬ ¬ _ |- _ => apply dec_stable in H end; done.
Qed.

Lemma getEscrow_set_escrow' i j e w :
  getEscrow (set_escrow i e w) j = if decide (i = j) then e else getEscrow w j.
Proof.
  unfold getEscrow, set_escrow. simpl. case_decide as Hij.
  - subst. rewrite lookup_insert_eq. reflexivity.
  - rewrite lookup_insert_ne by exact Hij. reflexivity.
Qed.

Lemma getEscrow_set_chain' c w j : getEscrow (set_chain c w) j = getEscrow w j.
Proof. reflexivity. Qed.

Lemma getEscrow_set_escrow_eq' i e w : getEscrow (set_escrow i e w) i = e.
Proof. rewrite getEscrow_set_escrow'. destruct (decide (i = i)); done. Qed.

(** A successful [_transferFunds] has moved the funds: a token that returns
    [false] makes it revert. *)
Lemma transferFunds_Ok tok to amt w w' :
  _transferFunds tok to amt w = Ok w' ->
  exists c',
    w' = set_chain c' w
    /\ shouldFail c' = shouldFail (chain w)
    /\ rejecting c' = rejecting (chain w)
    /\ moved c' = moved (chain w) ++ [mkTransfer tok (self w) to amt].
Proof.
  unfold _transferFunds. intros H.
  destruct (decide (tok = 0)) as [->|Htok].
  - unfold send_value in H.
    destruct (decide (to ∈ rejecting (chain w))); [discriminate|].
    destruct (move 0 (self w) to amt (chain w)) as [c'|] eqn:Hm; [|discriminate].
    injection H as <-. exists c'.
    apply move_frame in Hm as (Hmv & _ & Hsf & Hrj). auto.
  - unfold erc20_transfer in H.
    destruct (decide (tok = 0)); [contradiction|].
    destruct (decide (tok ∈ shouldFail (chain w))); [discriminate|].
    destruct (move tok (self w) to amt (chain w)) as [c'|] eqn:Hm;
      [|discriminate].
    injection H as <-. exists c'.
    apply move_frame in Hm as (Hmv & _ & Hsf & Hrj). auto.
Qed.

(** A payout statement of [resolveDispute]: guarded by [amt > 0]. *)
Lemma guarded_transferFunds_Ok tok to amt w w' :
  0 <= amt ->
  (if decide (amt > 0) then _transferFunds tok to amt w else Ok w) = Ok w' ->
  exists c',
    w' = set_chain c' w
    /\ moved c' = moved (chain w) ++ payout tok (self w) to amt.
Proof.
  intros Hnn H. unfold payout. destruct (decide (amt > 0)).
  - apply transferFunds_Ok in H as (c' & -> & _ & _ & Hmv).
    exists c'. split; [reflexivity|].
    destruct (decide (amt = 0)); [lia|exact Hmv].
  - injection H as <-. exists (chain w). destruct w; simpl.
    destruct (decide (amt = 0)); [|lia]. rewrite app_nil_r. auto.
Qed.

(** The anatomy of a successful [resolveDispute]. *)
Lemma resolveDispute_Ok i pct m w w' :
  0 <= pct ->
  0 <= amount (getEscrow w i) ->
  resolveDispute i pct m w = Ok w' ->
  let e := getEscrow w i in
  exists arbiterFee workerAmount clientAmount,
    msg_sender m = protocolArbiter w
    /\ client e <> 0
    /\ state e = DISPUTED
    /\ pct <= 100
    /\ arbiterFee = amount e * ARBITER_FEE_BPS / BPS_DENOMINATOR
    /\ arbiterFee <= amount e
    /\ workerAmount = (amount e - arbiterFee) * pct / 100
    /\ clientAmount = amount e - arbiterFee - workerAmount
    /\ getEscrow w' i = with_state RESOLVED e
    /\ moved (chain w') =
         moved (chain w)
         ++ payout (token e) (self w) (arbiter e) arbiterFee
         ++ payout (token e) (self w) (worker e) workerAmount
         ++ payout (token e) (self w) (client e) clientAmount.
Proof.
  intros Hpct Hamt0 H e. unfold resolveDispute in H. fold e in H, Hamt0.
  apply bind_Ok in H as ([] & Harb & H). apply onlyArbiter_Ok in Harb.
  apply bind_Ok in H as ([] & Hex & H). apply escrowExists_Ok in Hex.
  apply bind_Ok in H as ([] & Hst & H). apply inState_Ok' in Hst.
  destruct (decide (pct > 100)) as [|Hle]; [discriminate|].
  apply bind_Ok in H as (product & Hp & H).
  apply arith_Ok', checked_mul_Some in Hp as [_ ->].
  apply bind_Ok in H as (remaining & Hrem & H).
  apply arith_Ok', checked_sub_Some in Hrem as [Hfle ->].
  apply bind_Ok in H as (scaled & Hsc & H).
  apply arith_Ok', checked_mul_Some in Hsc as [_ ->].
  apply bind_Ok in H as (clientAmount & Hca & H).
  apply arith_Ok', checked_sub_Some in Hca as [Hwle ->].
  apply bind_Ok in H as (w2 & H2 & H).
  apply bind_Ok in H as (w3 & H3 & H).
  set (arbiterFee := amount e * ARBITER_FEE_BPS / BPS_DENOMINATOR) in *.
  set (workerAmount := (amount e - arbiterFee) * pct / 100) in *.
  assert (Hw0 : 0 <= workerAmount).
  { apply Z.div_pos; [|lia]. apply Z.mul_nonneg_nonneg; lia. }
  assert (Hf0 : 0 <= arbiterFee).
  { subst arbiterFee. apply Z.div_pos; unfold ARBITER_FEE_BPS, BPS_DENOMINATOR; lia. }
  apply guarded_transferFunds_Ok in H2 as (c2 & -> & Hmv2); [|exact Hf0].
  apply guarded_transferFunds_Ok in H3 as (c3 & -> & Hmv3); [|exact Hw0].
  apply guarded_transferFunds_Ok in H as (c4 & -> & Hmv4); [|lia].
  simpl in *.
  exists arbiterFee, workerAmount, (amount e - arbiterFee - workerAmount).
  repeat split; auto; try lia.
  - apply getEscrow_set_escrow_eq'.
  - rewrite Hmv4, Hmv3, Hmv2. rewrite <- !app_assoc. reflexivity.
Qed.

End EscrowFacts.

(** * AgentEscrow.sol: payouts that go through *)

Section AgentEscrowPayouts.

Import AgentEscrow.

(** A payout the contract can afford, to a recipient that has room for it
    and takes it, goes through. *)
Lemma transfer_succeeds tok to amt w :
  0 <= amt ->
  amt <= bal (chain w) tok (self w) ->
  bal (chain w) tok to - (if decide (to = self w) then amt else 0) + amt
    <= MAX_UINT256 ->
  (tok = 0 -> to ∉ rejecting (chain w)) ->
  exists c',
    _transfer quiet tok to amt w = Ok (set_chain c' w)
    /\ rejecting c' = rejecting (chain w)
    /\ (c' = chain w \/ move tok (self w) to amt (chain w) = Some c').
Proof.
  intros Hamt Hfunds Hroom Htakes. unfold _transfer, call_token, quiet.
  destruct (decide (amt = 0)).
  { exists (chain w). destruct w; auto. }
  destruct (move_possible tok (self w) to amt (chain w) Hfunds Hroom)
    as (c' & Hm).
  destruct (decide (tok = 0)) as [->|Htok].
  - unfold send_value.
    destruct (decide (to ∈ rejecting (chain w))) as [Hin|_].
    { exfalso. apply Htakes; [reflexivity|exact Hin]. }
    rewrite Hm. exists c'. apply move_frame in Hm as Hf.
    destruct Hf as (_ & _ & _ & Hrj). auto.
  - unfold erc20_transfer.
    destruct (decide (tok = 0)); [contradiction|].
    destruct (decide (tok ∈ shouldFail (chain w))).
    { exists (chain w). auto. }
    rewrite Hm. exists c'. apply move_frame in Hm as Hf.
    destruct Hf as (_ & _ & _ & Hrj). auto.
Qed.



End AgentEscrowPayouts.

(** * The scenarios run as the tests expect *)

Section ScenarioChecks.

Import Scenario.

Example ae_lifecycle_states :
  AgentEscrow.state (AgentEscrow.getEscrow ae_created ae_id) = AgentEscrow.Pending
  /\ AgentEscrow.state (AgentEscrow.getEscrow ae_accepted ae_id) = AgentEscrow.Active
  /\ AgentEscrow.state (AgentEscrow.getEscrow ae_submitted ae_id) = AgentEscrow.Submitted
  /\ AgentEscrow.state (AgentEscrow.getEscrow ae_disputed ae_id) = AgentEscrow.Disputed
  /\ AgentEscrow.state (AgentEscrow.getEscrow (ae_resolved 70) ae_id) = AgentEscrow.Resolved
  /\ AgentEscrow.state (AgentEscrow.getEscrow ae_released ae_id) = AgentEscrow.Resolved.
Proof. vm_compute. repeat split. Qed.

(** [test_ProtocolFeeCalculation]: of 1000 USDC the worker receives 990 and
    the arbitrator 10. *)
Example ae_release_pays :
  moved (AgentEscrow.chain ae_released) =
    moved (AgentEscrow.chain ae_submitted)
    ++ [mkTransfer usdc escrowContract worker (990 * 10 ^ 6);
        mkTransfer usdc escrowContract arbitrator (10 * 10 ^ 6)].
Proof. vm_compute. reflexivity. Qed.

(** Resolution at 70: worker 693 + 10, client 297, arbitrator 10. *)
Example ae_resolve70_pays :
  moved (AgentEscrow.chain (ae_resolved 70)) =
    moved (AgentEscrow.chain ae_disputed)
    ++ [mkTransfer usdc escrowContract worker (693 * 10 ^ 6);
        mkTransfer usdc escrowContract client (297 * 10 ^ 6);
        mkTransfer usdc escrowContract worker (10 * 10 ^ 6);
        mkTransfer usdc escrowContract arbitrator (10 * 10 ^ 6)].
Proof. vm_compute. reflexivity. Qed.

Example v1_lifecycle_states :
  Escrow.state (Escrow.getEscrow v1_created v1_id) = Escrow.PENDING
  /\ Escrow.state (Escrow.getEscrow v1_accepted v1_id) = Escrow.ACTIVE
  /\ Escrow.state (Escrow.getEscrow v1_submitted v1_id) = Escrow.SUBMITTED
  /\ Escrow.state (Escrow.getEscrow v1_disputed v1_id) = Escrow.DISPUTED
  /\ Escrow.state (Escrow.getEscrow (v1_resolved 70) v1_id) = Escrow.RESOLVED.
Proof. vm_compute. repeat split. Qed.

End ScenarioChecks.

(** * Conservation of value and the dispute-fee rule *)

Section Conservation.

Import AgentEscrow.



End Conservation.

Section ConservationWitnesses.

Import Scenario.

Lemma honours_funded_usdc :
  honours (AgentEscrow.chain ae_submitted) usdc
  /\ honours (AgentEscrow.chain ae_disputed) usdc.
Proof.
  split; right; apply (bool_decide_unpack _); vm_compute; exact I.
Defined.



End ConservationWitnesses.

(** * AgentEscrow.sol: what one transaction can change *)

Section AgentEscrowSteps.

Import AgentEscrow.

Variable keccak256 : address -> Z -> Z -> bytes32.

Lemma takeValue_Ok accepts m w w0 :
  takeValue accepts m w = Ok w0 -> exists c, w0 = set_chain c w.
Proof.
  unfold takeValue. intros H.
  destruct (decide (msg_value m = 0)).
  - injection H as <-. exists (chain w). destruct w; reflexivity.
  - destruct accepts; [|discriminate].
    destruct (move _ _ _ _ _) as [c|]; [|discriminate].
    injection H as <-. eauto.
Qed.

(** Take a successful call apart, down to the world it returns. *)
Ltac inv_world :=
  repeat match goal with
  | H : bind _ _ = Ok _ |- _ => apply bind_Ok in H as (? & ? & H)
  | H : Revert _ = Ok _ |- _ => discriminate H
  | H : Ok _ = Ok _ |- _ => injection H as H
  | H : (if decide ?P then _ else _) = Ok _ |- _ => destruct (decide P)
  | H : _transfer quiet _ _ _ _ = Ok _ |- _ => apply transfer_Ok in H as (? & H & _)
  | H : takeValue _ _ _ = Ok _ |- _ => apply takeValue_Ok in H as (? & H)
  | H : call_token quiet _ _ _ = Ok _ |- _ => apply call_token_Ok in H as (? & H)
  end; subst.


(** Only the accept step, called by the pending arbitrator, changes the
    arbitrator; and the new arbitrator is that caller. *)
Lemma call_arbitrator c m w w' :
  call keccak256 quiet c m w = Ok w' ->
  arbitrator w' <> arbitrator w ->
  c = AcceptArbitratorTransfer
  /\ msg_sender m = pendingArbitrator w
  /\ arbitrator w' = msg_sender m.
Proof.
  intros H Hne. unfold call in H.
  apply bind_Ok in H as (w0 & Hv & H).
  apply takeValue_Ok in Hv as (c0 & ->).
  destruct c;
    unfold createEscrow, acceptEscrow, submitWork, release, dispute,
      autoRelease, resolve, payWorker, initiateArbitratorTransfer,
      acceptArbitratorTransfer, setFees, setLimits, setTimeouts in H;
    inv_world; simpl in *; try contradiction.
  match goal with H : ¬ _ ≠ _ |- _ => apply dec_stable in H end.
  repeat split; congruence.
Qed.










(** The pending arbitrator is written by the arbitrator's nomination and
    cleared by the accept step, and by nothing else. *)
Lemma call_pendingArbitrator c m w w' :
  call keccak256 quiet c m w = Ok w' ->
  pendingArbitrator w' <> pendingArbitrator w ->
  (exists a, c = InitiateArbitratorTransfer a
             /\ msg_sender m = arbitrator w /\ pendingArbitrator w' = a)
  \/ (c = AcceptArbitratorTransfer /\ pendingArbitrator w' = 0).
Proof.
  intros H Hne. unfold call in H.
  apply bind_Ok in H as (w0 & Hv & H).
  apply takeValue_Ok in Hv as (c0 & ->).
  destruct c;
    unfold createEscrow, acceptEscrow, submitWork, release, dispute,
      autoRelease, resolve, payWorker, initiateArbitratorTransfer,
      acceptArbitratorTransfer, setFees, setLimits, setTimeouts in H;
    inv_world; simpl in *; try contradiction.
  - left. eexists. repeat split.
    match goal with H : onlyArbitrator _ _ = Ok _ |- _ =>
      apply onlyArbitrator_Ok in H; exact H end.
  - right. auto.
Qed.


End AgentEscrowSteps.

(** * Escrow.sol: what one transaction can change *)

Section EscrowSteps.

Import Escrow.

Variable keccak256 : Z -> address -> Z -> bytes32.

Lemma takeValue_Ok_v1 accepts m w w0 :
  takeValue accepts m w = Ok w0 -> exists c, w0 = set_chain c w.
Proof.
  unfold takeValue. intros H.
  destruct (decide (msg_value m = 0)).
  - injection H as <-. exists (chain w). destruct w; reflexivity.
  - destruct accepts; [|discriminate].
    destruct (move _ _ _ _ _) as [c|]; [|discriminate].
    injection H as <-. eauto.
Qed.

Ltac inv_world_v1 :=
  repeat match goal with
  | H : bind _ _ = Ok _ |- _ => apply bind_Ok in H as (? & ? & H)
  | H : Revert _ = Ok _ |- _ => discriminate H
  | H : Ok _ = Ok _ |- _ => injection H as H
  | H : (_, _) = (_, _) |- _ => injection H as ? ?
  | H : (if decide ?P then _ else _) = Ok _ |- _ => destruct (decide P)
  | H : (let '(_, _) := ?r in _) = Ok _ |- _ => destruct r
  | H : _transferFunds _ _ _ _ = Ok _ |- _ =>
      apply transferFunds_Ok in H as (? & H & _)
  | H : takeValue _ _ _ = Ok _ |- _ => apply takeValue_Ok_v1 in H as (? & H)
  | H : match ?x with Returned _ _ => _ | Reverted => _ end = Ok _ |- _ =>
      destruct x as [[|] ?|]
  | H : arith _ = Ok _ |- _ => apply arith_Ok' in H
  end; subst.












(** No call brings an existing escrow to have its client as worker. *)
Lemma call_keeps_parties c m w w' j :
  call keccak256 c m w = Ok w' ->
  (forall j, client (getEscrow w j) <> 0 ->
             worker (getEscrow w j) <> client (getEscrow w j)) ->
  client (getEscrow w' j) <> 0 ->
  worker (getEscrow w' j) <> client (getEscrow w' j).
Proof.
  intros H Hinv. unfold call in H.
  apply bind_Ok in H as (w0 & Hv & H).
  apply takeValue_Ok_v1 in Hv as (c0 & ->).
  destruct c;
    unfold createEscrow, createEscrowERC20, _generateEscrowId, acceptEscrow,
      submitDeliverable, releasePayment, dispute, resolveDispute, cancelEscrow,
      claimExpiredEscrow, setProtocolArbiter, transferOwnership in H;
    inv_world_v1; simpl;
    rewrite ?getEscrow_set_chain';
    try (apply Hinv);
    rewrite getEscrow_set_escrow'; case_decide as Hj;
    try (apply Hinv); subst; simpl;
    rewrite ?getEscrow_set_chain'; try (apply Hinv);
    intros _; tauto.
Qed.

(** The owner replaces the protocol arbiter in one call. *)
Lemma setProtocolArbiter_Ok a m w :
  msg_sender m = owner w ->
  setProtocolArbiter a m w = Ok (set_protocolArbiter a w).
Proof.
  intros Ho. unfold setProtocolArbiter, onlyOwner.
  destruct (decide (msg_sender m ≠ owner w)); [contradiction|reflexivity].
Qed.

End EscrowSteps.

(** * The lifecycle and the terminal states *)

Section Lifecycle.

Import Scenario.




End Lifecycle.

(** * Rotation of the arbitrator *)

Section Rotation.

Import Scenario.

(** C8 (amended) — AgentEscrow rotates its arbitrator in two phases.  A
    nomination, which only the arbitrator can make, records the nominee and
    leaves the arbitrator in place; of all calls, only
    [acceptArbitratorTransfer] made by the recorded nominee changes the
    arbitrator, and it makes that caller the arbitrator; the nominee is
    recorded by the arbitrator's nomination and by nothing else.  Escrow has
    no such handover: its owner replaces [protocolArbiter] with one
    [setProtocolArbiter] call. *)
Theorem arbitrator_handover_two_phase :
  (forall a m w w',
      AgentEscrow.initiateArbitratorTransfer a m w = Ok w' ->
      msg_sender m = AgentEscrow.arbitrator w
      /\ AgentEscrow.arbitrator w' = AgentEscrow.arbitrator w
      /\ AgentEscrow.pendingArbitrator w' = a)
  /\ (forall keccak256 c m w w',
      AgentEscrow.call keccak256 AgentEscrow.quiet c m w = Ok w' ->
      AgentEscrow.arbitrator w' <> AgentEscrow.arbitrator w ->
      c = AgentEscrow.AcceptArbitratorTransfer
      /\ msg_sender m = AgentEscrow.pendingArbitrator w
      /\ AgentEscrow.arbitrator w' = msg_sender m)
  /\ (forall keccak256 c m w w',
      AgentEscrow.call keccak256 AgentEscrow.quiet c m w = Ok w' ->
      AgentEscrow.pendingArbitrator w' <> AgentEscrow.pendingArbitrator w ->
      (exists a, c = AgentEscrow.InitiateArbitratorTransfer a
                 /\ msg_sender m = AgentEscrow.arbitrator w
                 /\ AgentEscrow.pendingArbitrator w' = a)
      \/ (c = AgentEscrow.AcceptArbitratorTransfer
          /\ AgentEscrow.pendingArbitrator w' = 0))
  /\ (forall m w,
      msg_sender m = AgentEscrow.pendingArbitrator w ->
      AgentEscrow.acceptArbitratorTransfer m w
      = Ok (AgentEscrow.set_arbitrators (AgentEscrow.pendingArbitrator w) 0 w))
  /\ (forall newArbiter m w,
      msg_sender m = Escrow.owner w ->
      Escrow.setProtocolArbiter newArbiter m w
      = Ok (Escrow.set_protocolArbiter newArbiter w)).
Proof.
  repeat apply conj.
  - intros a m w w' H. unfold AgentEscrow.initiateArbitratorTransfer in H.
    apply bind_Ok in H as ([] & Harb & H). apply onlyArbitrator_Ok in Harb.
    injection H as <-. auto.
  - intros k c m w w'. apply call_arbitrator.
  - intros k c m w w'. apply call_pendingArbitrator.
  - intros m w Hp. unfold AgentEscrow.acceptArbitratorTransfer.
    destruct (decide (msg_sender m ≠ AgentEscrow.pendingArbitrator w));
      [contradiction|reflexivity].
  - intros newArbiter m w Ho. apply setProtocolArbiter_Ok. exact Ho.
Qed.

Lemma arbitrator_handover_two_phase_witness :
  AgentEscrow.initiateArbitratorTransfer successor (mkMsg arbitrator 0 1)
    ae_deployed = Ok ae_nominated
  /\ AgentEscrow.arbitrator ae_nominated = arbitrator
  /\ AgentEscrow.pendingArbitrator ae_nominated = successor
  /\ AgentEscrow.call packed AgentEscrow.quiet AgentEscrow.AcceptArbitratorTransfer
       (mkMsg successor 0 2) ae_nominated = Ok ae_handed_over
  /\ AgentEscrow.arbitrator ae_handed_over = successor
  /\ Escrow.setProtocolArbiter successor (mkMsg deployer 0 1) v1_deployed
     = Ok (Escrow.set_protocolArbiter successor v1_deployed).
Proof.
  destruct arbitrator_handover_two_phase as (Hnom & Harb & _ & _ & Hset).
  assert (H1 : AgentEscrow.initiateArbitratorTransfer successor
                 (mkMsg arbitrator 0 1) ae_deployed = Ok ae_nominated)
    by (vm_compute; reflexivity).
  assert (H2 : AgentEscrow.call packed AgentEscrow.quiet AgentEscrow.AcceptArbitratorTransfer
                 (mkMsg successor 0 2) ae_nominated = Ok ae_handed_over)
    by (vm_compute; reflexivity).
  destruct (Hnom _ _ _ _ H1) as (_ & Hsame & Hpend).
  destruct (Harb packed _ _ _ _ H2) as (_ & _ & Hnew);
    [vm_compute; discriminate|].
  split; [exact H1|]. split; [rewrite Hsame; reflexivity|].
  split; [exact Hpend|]. split; [exact H2|]. split; [exact Hnew|].
  apply Hset. reflexivity.
Defined.

(** C8 as stated fails on Escrow: one call by the owner, who is not the
    arbiter, replaces the protocol arbiter; the successor accepts nothing. *)
Lemma owner_replaces_arbiter_in_one_call :
  Escrow.protocolArbiter v1_deployed = arbitrator
  /\ Escrow.call packed (Escrow.SetProtocolArbiter successor)
       (mkMsg deployer 0 1) v1_deployed
     = Ok (Escrow.set_protocolArbiter successor v1_deployed)
  /\ Escrow.protocolArbiter
       (Escrow.exec packed (Escrow.SetProtocolArbiter successor)
          (mkMsg deployer 0 1) v1_deployed) = successor
  /\ successor <> arbitrator.
Proof.
  repeat split; try (vm_compute; reflexivity). vm_compute. discriminate.
Qed.

End Rotation.

(** * The protocol fee against the amount *)

Section FeeBound.

Import AgentEscrow.



End FeeBound.

Section FeeBoundWitness.

Import Scenario.


End FeeBoundWitness.

(** * A token that refuses to move *)

Section TransferFailure.

Import Scenario.

(** AgentEscrow's [_transfer] drops the boolean [transfer] returns: when the
    token answers [false] the call goes on as if paid. *)
Lemma transfer_swallows_false tok to amt w :
  tok <> 0 ->
  tok ∈ shouldFail (AgentEscrow.chain w) ->
  AgentEscrow._transfer AgentEscrow.quiet tok to amt w = Ok w.
Proof.
  intros Htok Hfail.
  unfold AgentEscrow._transfer, AgentEscrow.call_token, AgentEscrow.quiet,
    erc20_transfer.
  destruct (decide (amt = 0)); [reflexivity|].
  destruct (decide (tok = 0)); [contradiction|].
  destruct (decide (tok ∈ shouldFail (AgentEscrow.chain w))); [|contradiction].
  destruct w; reflexivity.
Qed.

(** Escrow's [_transferFunds] checks it. *)
Lemma transferFunds_reverts_on_false tok to amt w :
  tok <> 0 ->
  tok ∈ shouldFail (Escrow.chain w) ->
  Escrow._transferFunds tok to amt w = Revert Escrow.TransferFailed.
Proof.
  intros Htok Hfail. unfold Escrow._transferFunds, erc20_transfer.
  destruct (decide (tok = 0)); [contradiction|].
  destruct (decide (tok ∈ shouldFail (Escrow.chain w))); [reflexivity|contradiction].
Qed.

(** C6 — the code at the failing input.  With the malicious token failing,
    the client's [release] of the submitted 100-token escrow returns
    normally: the escrow is [Resolved] with outcome [FullRelease], while the
    chain is exactly as before, the worker holding nothing and the contract
    still holding the 100 tokens.  In the same way [createEscrow] in the
    failing token records a [Pending] escrow of 100 tokens without taking
    custody of any. *)
Theorem release_swallows_failed_token_transfer :
  malToken ∈ shouldFail (AgentEscrow.chain mal_failing)
  /\ AgentEscrow.release AgentEscrow.quiet mal_id (mkMsg client 0 4) mal_failing = Ok mal_released
  /\ AgentEscrow.state (AgentEscrow.getEscrow mal_failing mal_id)
     = AgentEscrow.Submitted
  /\ AgentEscrow.state (AgentEscrow.getEscrow mal_released mal_id)
     = AgentEscrow.Resolved
  /\ AgentEscrow.outcome (AgentEscrow.getEscrow mal_released mal_id)
     = AgentEscrow.FullRelease
  /\ AgentEscrow.chain mal_released = AgentEscrow.chain mal_failing
  /\ bal (AgentEscrow.chain mal_released) malToken worker = 0
  /\ bal (AgentEscrow.chain mal_released) malToken escrowContract = 100 * 10 ^ 6
  /\ AgentEscrow.call packed AgentEscrow.quiet
       (AgentEscrow.CreateEscrow malToken (100 * 10 ^ 6) (1 + day) criteria)
       (mkMsg client 0 1) failing_deployed = Ok failing_created
  /\ AgentEscrow.amount (AgentEscrow.getEscrow failing_created mal_id)
     = 100 * 10 ^ 6
  /\ AgentEscrow.state (AgentEscrow.getEscrow failing_created mal_id)
     = AgentEscrow.Pending
  /\ AgentEscrow.client (AgentEscrow.getEscrow failing_created mal_id) = client
  /\ bal (AgentEscrow.chain failing_created) malToken escrowContract = 0.
Proof.
  split; [apply (bool_decide_unpack _); vm_compute; exact I|].
  repeat (apply conj; [vm_compute; reflexivity|]).
  vm_compute; reflexivity.
Qed.

End TransferFailure.

(** * Accepting an escrow *)

Section Accept.

Import Scenario.

(** C9 (amended) — Accepting under an identifier no escrow was created
    under fails and changes nothing, in both contracts.  Escrow signals
    [EscrowNotFound].  AgentEscrow has no such signal: the unwritten record
    reads as [Pending] with deadline 0, so the call gets past the state
    check and reverts with [DeadlinePassed]. *)
Theorem accept_unknown_escrow_fails :
  (forall i m w,
      AgentEscrow.escrows w !! i = None ->
      0 <= block_timestamp m ->
      AgentEscrow.acceptEscrow i m w = Revert AgentEscrow.DeadlinePassed
      /\ forall keccak256,
          AgentEscrow.exec keccak256 AgentEscrow.quiet (AgentEscrow.AcceptEscrow i) m w = w)
  /\ (forall i m w,
      Escrow.escrows w !! i = None ->
      Escrow.acceptEscrow i m w = Revert Escrow.EscrowNotFound
      /\ forall keccak256,
          Escrow.exec keccak256 (Escrow.AcceptEscrow i) m w = w).
Proof.
  split.
  - intros i m w Hnone Hnow.
    assert (He : AgentEscrow.getEscrow w i = AgentEscrow.zeroEscrow).
    { unfold AgentEscrow.getEscrow. rewrite Hnone. reflexivity. }
    assert (Hacc : AgentEscrow.acceptEscrow i m w
                   = Revert AgentEscrow.DeadlinePassed).
    { unfold AgentEscrow.acceptEscrow, AgentEscrow.inState. rewrite He. simpl.
      destruct (decide (block_timestamp m >= 0)); [reflexivity|lia]. }
    split; [exact Hacc|]. intros k.
    unfold AgentEscrow.exec, AgentEscrow.call, AgentEscrow.takeValue. simpl.
    destruct (decide (msg_value m = 0)); simpl; [|reflexivity].
    rewrite Hacc. reflexivity.
  - intros i m w Hnone.
    assert (He : Escrow.getEscrow w i = Escrow.zeroEscrow).
    { unfold Escrow.getEscrow. rewrite Hnone. reflexivity. }
    assert (Hacc : Escrow.acceptEscrow i m w = Revert Escrow.EscrowNotFound).
    { unfold Escrow.acceptEscrow, Escrow.escrowExists. rewrite He. simpl.
      reflexivity. }
    split; [exact Hacc|]. intros k.
    unfold Escrow.exec, Escrow.call, Escrow.takeValue. simpl.
    destruct (decide (msg_value m = 0)); simpl; [|reflexivity].
    rewrite Hacc. reflexivity.
Qed.

Lemma accept_unknown_escrow_fails_witness :
  AgentEscrow.escrows ae_submitted !! unknown_id = None
  /\ AgentEscrow.acceptEscrow unknown_id (mkMsg worker 0 4) ae_submitted
     = Revert AgentEscrow.DeadlinePassed
  /\ Escrow.escrows v1_submitted !! unknown_id = None
  /\ Escrow.acceptEscrow unknown_id (mkMsg worker 0 4) v1_submitted
     = Revert Escrow.EscrowNotFound.
Proof.
  destruct accept_unknown_escrow_fails as (Hae & Hv1).
  assert (H1 : AgentEscrow.escrows ae_submitted !! unknown_id = None)
    by (vm_compute; reflexivity).
  assert (H2 : Escrow.escrows v1_submitted !! unknown_id = None)
    by (vm_compute; reflexivity).
  split; [exact H1|]. split.
  - apply (Hae unknown_id (mkMsg worker 0 4) ae_submitted H1).
    vm_compute. discriminate.
  - split; [exact H2|].
    apply (Hv1 unknown_id (mkMsg worker 0 4) v1_submitted H2).
Defined.

(** C9 as stated fails on AgentEscrow: the accept of an unknown identifier
    is answered with [DeadlinePassed]. *)
Lemma accept_unknown_escrow_says_deadline_passed :
  AgentEscrow.escrows ae_submitted !! unknown_id = None
  /\ AgentEscrow.call packed AgentEscrow.quiet (AgentEscrow.AcceptEscrow unknown_id)
       (mkMsg worker 0 4) ae_submitted
     = Revert AgentEscrow.DeadlinePassed.
Proof. split; vm_compute; reflexivity. Qed.

(** C3 (amended) — AgentEscrow: [acceptEscrow] succeeds exactly when the
    escrow is [Pending] and the deadline has not been reached, whoever
    calls, the client included; it makes the caller the worker and the
    escrow [Active].  Escrow: [acceptEscrow] succeeds exactly when the escrow
    exists, is [PENDING], the caller is the worker named at creation and the
    deadline is not over (the deadline instant itself still counts); it
    makes the escrow [ACTIVE].  There every call keeps the worker of an
    existing escrow different from its client, so the client's own accept
    is turned away with [NotAuthorized]. *)
Theorem accept_conditions :
  (forall i m w w',
      AgentEscrow.acceptEscrow i m w = Ok w' <->
      AgentEscrow.state (AgentEscrow.getEscrow w i) = AgentEscrow.Pending
      /\ block_timestamp m < AgentEscrow.deadline (AgentEscrow.getEscrow w i)
      /\ w' = AgentEscrow.set_escrow i
                (AgentEscrow.accepted (msg_sender m) (AgentEscrow.getEscrow w i))
                w)
  /\ (forall i m w w',
      Escrow.acceptEscrow i m w = Ok w' <->
      Escrow.client (Escrow.getEscrow w i) <> 0
      /\ Escrow.state (Escrow.getEscrow w i) = Escrow.PENDING
      /\ msg_sender m = Escrow.worker (Escrow.getEscrow w i)
      /\ block_timestamp m <= Escrow.deadline (Escrow.getEscrow w i)
      /\ w' = Escrow.set_escrow i
                (Escrow.with_state Escrow.ACTIVE (Escrow.getEscrow w i)) w)
  /\ (forall keccak256 c m w w',
      Escrow.call keccak256 c m w = Ok w' ->
      (forall j, Escrow.client (Escrow.getEscrow w j) <> 0 ->
                 Escrow.worker (Escrow.getEscrow w j)
                 <> Escrow.client (Escrow.getEscrow w j)) ->
      forall j, Escrow.client (Escrow.getEscrow w' j) <> 0 ->
                Escrow.worker (Escrow.getEscrow w' j)
                <> Escrow.client (Escrow.getEscrow w' j))
  /\ (forall i m w,
      Escrow.client (Escrow.getEscrow w i) <> 0 ->
      Escrow.state (Escrow.getEscrow w i) = Escrow.PENDING ->
      Escrow.worker (Escrow.getEscrow w i)
      <> Escrow.client (Escrow.getEscrow w i) ->
      msg_sender m = Escrow.client (Escrow.getEscrow w i) ->
      Escrow.acceptEscrow i m w = Revert Escrow.NotAuthorized).
Proof.
  repeat apply conj.
  - intros i m w w'. unfold AgentEscrow.acceptEscrow, AgentEscrow.inState.
    destruct (decide (AgentEscrow.state (AgentEscrow.getEscrow w i)
                      ≠ AgentEscrow.Pending)) as [Hs|Hs]; simpl.
    { split; [discriminate|]. intros (? & _). contradiction. }
    apply dec_stable in Hs.
    destruct (decide (block_timestamp m
                      >= AgentEscrow.deadline (AgentEscrow.getEscrow w i))).
    { split; [discriminate|]. intros (_ & ? & _). lia. }
    split.
    + intros [= <-]. repeat split; [exact Hs|lia].
    + intros (_ & _ & ->). reflexivity.
  - intros i m w w'.
    unfold Escrow.acceptEscrow, Escrow.escrowExists, Escrow.inState.
    destruct (decide (Escrow.client (Escrow.getEscrow w i) = 0)); simpl.
    { split; [discriminate|]. intros (? & _). contradiction. }
    destruct (decide (Escrow.state (Escrow.getEscrow w i) ≠ Escrow.PENDING))
      as [Hs|Hs]; simpl.
    { split; [discriminate|]. intros (_ & ? & _). contradiction. }
    apply dec_stable in Hs.
    destruct (decide (msg_sender m ≠ Escrow.worker (Escrow.getEscrow w i)))
      as [Hw|Hw].
    { split; [discriminate|]. intros (_ & _ & ? & _). contradiction. }
    apply dec_stable in Hw.
    destruct (decide (block_timestamp m
                      > Escrow.deadline (Escrow.getEscrow w i))).
    { split; [discriminate|]. intros (_ & _ & _ & ? & _). lia. }
    split.
    + intros [= <-]. repeat split; auto; lia.
    + intros (_ & _ & _ & _ & ->). reflexivity.
  - intros k c m w w' Hcall Hinv j. revert Hcall Hinv. apply call_keeps_parties.
  - intros i m w Hex Hs Hne Hc.
    unfold Escrow.acceptEscrow, Escrow.escrowExists, Escrow.inState.
    destruct (decide (Escrow.client (Escrow.getEscrow w i) = 0));
      [contradiction|]. simpl.
    destruct (decide (Escrow.state (Escrow.getEscrow w i) ≠ Escrow.PENDING));
      [contradiction|]. simpl.
    destruct (decide (msg_sender m ≠ Escrow.worker (Escrow.getEscrow w i)))
      as [|Hw]; [reflexivity|].
    apply dec_stable in Hw. congruence.
Qed.

Lemma accept_conditions_witness :
  AgentEscrow.acceptEscrow ae_id (mkMsg worker 0 2) ae_created
  = Ok (AgentEscrow.set_escrow ae_id
          (AgentEscrow.accepted worker (AgentEscrow.getEscrow ae_created ae_id))
          ae_created)
  /\ Escrow.acceptEscrow v1_id (mkMsg worker 0 2) v1_created
     = Ok (Escrow.set_escrow v1_id
             (Escrow.with_state Escrow.ACTIVE (Escrow.getEscrow v1_created v1_id))
             v1_created)
  /\ Escrow.acceptEscrow v1_id (mkMsg client 0 2) v1_created
     = Revert Escrow.NotAuthorized.
Proof.
  destruct accept_conditions as (Hae & Hv1 & _ & Hclient).
  split; [|split].
  - apply Hae. split; [vm_compute; reflexivity|].
    split; [vm_compute; reflexivity|reflexivity].
  - apply Hv1. split; [vm_compute; discriminate|].
    split; [vm_compute; reflexivity|]. split; [vm_compute; reflexivity|].
    split; [vm_compute; discriminate|reflexivity].
  - apply Hclient.
    + vm_compute. discriminate.
    + vm_compute. reflexivity.
    + vm_compute. discriminate.
    + vm_compute. reflexivity.
Defined.

(** C3 as stated fails on AgentEscrow: the client accepts its own pending
    escrow and becomes its worker.  (And Escrow still accepts at the
    deadline instant itself.) *)
Lemma client_accepts_own_escrow :
  AgentEscrow.client (AgentEscrow.getEscrow ae_created ae_id) = client
  /\ AgentEscrow.state (AgentEscrow.getEscrow ae_created ae_id)
     = AgentEscrow.Pending
  /\ AgentEscrow.acceptEscrow ae_id (mkMsg client 0 2) ae_created
     = Ok ae_self_accepted
  /\ AgentEscrow.worker (AgentEscrow.getEscrow ae_self_accepted ae_id) = client
  /\ AgentEscrow.state (AgentEscrow.getEscrow ae_self_accepted ae_id)
     = AgentEscrow.Active
  /\ Escrow.deadline (Escrow.getEscrow v1_created v1_id) = 1 + day
  /\ Escrow.state
       (Escrow.getEscrow
          (Escrow.exec packed (Escrow.AcceptEscrow v1_id)
             (mkMsg worker 0 (1 + day)) v1_created) v1_id)
     = Escrow.ACTIVE.
Proof.
  repeat (apply conj; [vm_compute; reflexivity|]). vm_compute. reflexivity.
Qed.

End Accept.

(** * Raising a dispute *)

Section RaiseDispute.

Import Scenario.




End RaiseDispute.

(** * Release after the review window *)

Section ForcedRelease.

Import AgentEscrow.

(** The anatomy of a successful payout to the worker. *)
Lemma payWorker_Ok i w w' :
  payWorker quiet i w = Ok w' ->
  let e := getEscrow w i in
  exists fee,
    fee = amount e * protocolFeeBps w / 10000
    /\ fee <= amount e
    /\ getEscrow w' i = resolved FullRelease 100 e
    /\ (honours (chain w) (token e) ->
        moved (chain w') =
          moved (chain w)
          ++ payout (token e) (self w) (worker e) (amount e - fee)
          ++ payout (token e) (self w) (arbitrator w) fee).
Proof.
  intros H e. rewrite payWorker_quiet in H. cbv zeta in H. fold e in H.
  apply bind_Ok in H as (fee & Hfee & H).
  apply protocolFeeOf_Ok in Hfee as [_ ->].
  apply bind_Ok in H as (workerAmount & Hwa & H).
  apply arith_Ok, checked_sub_Some in Hwa as [Hle ->].
  apply bind_Ok in H as (w2 & H2 & H).
  apply transfer_Ok in H2 as (c2 & -> & Hsf2 & _ & Hmv2 & _).
  apply transfer_Ok in H as (c3 & -> & _ & _ & Hmv3 & _).
  simpl in *. eexists. split; [reflexivity|]. split; [exact Hle|].
  split; [apply getEscrow_set_escrow_eq|].
  intros Hh. rewrite Hmv3, Hmv2 by
    (try exact Hh; unfold honours in *; rewrite ?Hsf2; exact Hh).
  rewrite <- app_assoc. reflexivity.
Qed.

(** The payout goes through when the fee fits the amount, the contract
    holds the amount, the two recipients have room for it and, for a native
    escrow, take it. *)
Lemma payWorker_succeeds i w :
  let e := getEscrow w i in
  let c := chain w in
  0 <= amount e ->
  0 <= protocolFeeBps w <= 10000 ->
  amount e * protocolFeeBps w <= MAX_UINT256 ->
  amount e <= bal c (token e) (self w) <= MAX_UINT256 ->
  bal c (token e) (worker e) + amount e <= MAX_UINT256 ->
  bal c (token e) (arbitrator w) + amount e <= MAX_UINT256 ->
  (token e = 0 -> (worker e ∉ rejecting c) /\ (arbitrator w ∉ rejecting c)) ->
  exists w', payWorker quiet i w = Ok w'.
Proof.
  intros e c Hamt [Hb0 Hb1] Hmul [Hfunds Hmax] Hroomw Hrooma Htakes.
  rewrite payWorker_quiet. cbv zeta. fold e.
  assert (Hfee : protocolFeeOf w e = Ok (amount e * protocolFeeBps w / 10000)).
  { apply protocolFeeOf_Ok. auto. }
  rewrite Hfee. simpl.
  set (fee := amount e * protocolFeeBps w / 10000) in *.
  assert (H0 : 0 <= fee).
  { apply Z.div_pos; [apply Z.mul_nonneg_nonneg; lia|lia]. }
  assert (H1 : fee <= amount e).
  { apply Z.div_le_upper_bound; [lia|]. nia. }
  assert (Hsub : checked_sub (amount e) fee = Some (amount e - fee)).
  { apply checked_sub_Some. lia. }
  rewrite Hsub. simpl.
  set (w1 := set_escrow i (resolved FullRelease 100 e) w).
  destruct (transfer_succeeds (token e) (worker e) (amount e - fee) w1)
    as (c2 & H2 & Hrj2 & Hc2); simpl; fold c.
  { lia. }
  { lia. }
  { destruct (decide (worker e = self w)) as [Heq|_]; [rewrite Heq|]; lia. }
  { intros Hz. apply Htakes. exact Hz. }
  rewrite H2. simpl.
  change (chain w1) with c in *. change (self w1) with (self w) in *.
  destruct (transfer_succeeds (token e) (arbitrator w) fee (set_chain c2 w1))
    as (c3 & H3 & _ & _); simpl.
  { exact H0. }
  { destruct Hc2 as [->|Hm]; [fold c; lia|].
    rewrite (bal_move_same _ _ _ _ _ _ (self w) Hm). fold c.
    destruct (decide (self w = self w)); [|contradiction].
    destruct (decide (self w = worker e)); lia. }
  { destruct Hc2 as [->|Hm].
    - fold c. destruct (decide (arbitrator w = self w)) as [Heq|_];
        [rewrite Heq|]; lia.
    - rewrite (bal_move_same _ _ _ _ _ _ (arbitrator w) Hm). fold c.
      destruct (decide (arbitrator w = self w)) as [Heq|Hne].
      + rewrite Heq. destruct (decide (self w = worker e)); lia.
      + destruct (decide (arbitrator w = worker e)) as [Heq|_];
          [rewrite Heq|]; lia. }
  { intros Hz. rewrite Hrj2. apply Htakes. exact Hz. }
  eexists. exact H3.
Qed.


End ForcedRelease.

Section ForcedReleaseWitness.

Import Scenario.



End ForcedReleaseWitness.

(** A closed decidable proposition, by evaluation. *)
Ltac decided := apply (bool_decide_unpack _); vm_compute; exact I.

(** * The token contracts of the test-suite *)

Section TokenContracts.

Import Scenario.

Lemma allowed_insert c t o s v t' o' s' bals sf rj mv :
  allowed {| balanceOf := bals; allowance := <[(t, o, s) := v]> (allowance c);
             shouldFail := sf; rejecting := rj; moved := mv |} t' o' s'
  = if decide ((t', o', s') = (t, o, s)) then v else allowed c t' o' s'.
Proof.
  unfold allowed. simpl. case_decide as Hk.
  - injection Hk as -> -> ->. rewrite lookup_insert_eq. reflexivity.
  - rewrite lookup_insert_ne by congruence. reflexivity.
Qed.

(** The anatomy of a [transferFrom] that returned [true]. *)
Lemma erc20_transferFrom_true token spender from to amount c c' :
  erc20_transferFrom token spender from to amount c = Returned true c' ->
  token <> 0
  /\ (token ∉ shouldFail c)
  /\ amount <= allowed c token from spender
  /\ amount <= bal c token from
  /\ (forall t o s, allowed c' t o s =
        if decide ((t, o, s) = (token, from, spender))
        then allowed c token from spender - amount else allowed c t o s)
  /\ (forall a x, bal c' a x =
        bal c a x
        - (if decide ((a, x) = (token, from)) then amount else 0)
        + (if decide ((a, x) = (token, to)) then amount else 0))
  /\ moved c' = moved c ++ [mkTransfer token from to amount]
  /\ shouldFail c' = shouldFail c
  /\ rejecting c' = rejecting c.
Proof.
  unfold erc20_transferFrom. intros H.
  destruct (decide (token = 0)) as [|Htok]; [discriminate|].
  destruct (decide (token ∈ shouldFail c)) as [|Hsf]; [discriminate|].
  destruct (checked_sub _ _) as [remaining|] eqn:Hs; [|discriminate].
  apply checked_sub_Some in Hs as [Hle ->].
  match type of H with
  | context [move ?a ?f ?t ?v ?c1] =>
      destruct (move a f t v c1) as [c2|] eqn:Hm; [|discriminate]
  end.
  injection H as <-.
  pose proof (move_frame _ _ _ _ _ _ Hm) as (Hmv & Hal & Hsf' & Hrj).
  split; [exact Htok|]. split; [exact Hsf|]. split; [exact Hle|].
  split.
  { unfold move in Hm.
    destruct (checked_sub _ _) as [r|] eqn:Hs; [|discriminate].
    apply checked_sub_Some in Hs as [Hb _]. exact Hb. }
  split.
  { intros t o s. unfold allowed at 1. rewrite Hal. apply (allowed_insert c). }
  split; [|auto].
  intros a x. rewrite (bal_move _ _ _ _ _ _ a x Hm). reflexivity.
Qed.


Lemma move_None asset from to v c :
  move asset from to v c = None <->
  bal c asset from < v
  \/ MAX_UINT256 < bal c asset to - (if decide (to = from) then v else 0) + v.
Proof.
  split.
  - intros H.
    destruct (Z_lt_le_dec (bal c asset from) v) as [|Hf]; [left; assumption|].
    right.
    destruct (Z_lt_le_dec MAX_UINT256
                (bal c asset to - (if decide (to = from) then v else 0) + v))
      as [|Hr]; [assumption|].
    destruct (move_possible asset from to v c Hf Hr) as (c' & Hc').
    congruence.
  - intros Hor.
    destruct (move asset from to v c) as [c'|] eqn:Hm; [|reflexivity].
    exfalso.
    pose proof (bal_move_same _ _ _ _ _ _ to Hm) as Hto.
    unfold move in Hm.
    destruct (checked_sub _ _) as [r|] eqn:Hs; [|discriminate].
    apply checked_sub_Some in Hs as [Hb ->].
    destruct (checked_add _ _) as [more|] eqn:Ha; [|discriminate].
    apply checked_add_Some in Ha as [Hle ->].
    destruct Hor as [|Hgt]; [lia|].
    destruct (decide (to = from)) as [->|Hne].
    + rewrite lookup_insert_eq in Hle. simpl in Hle. lia.
    + rewrite lookup_insert_ne in Hle by congruence. unfold bal in Hgt. lia.
Qed.

(** X1 — A [transfer] of the test tokens that returned [true] took
    exactly [amount] from the sender, who held it, and gave it to the
    recipient: every other balance of the token, every balance of any other
    asset and every allowance is as before, and the movement is on record.
    A transfer to oneself leaves the balance where it was. *)
Theorem erc20_transfer_moves_exactly token sender to amount c c' :
  erc20_transfer token sender to amount c = Returned true c' ->
  amount <= bal c token sender
  /\ (forall x, bal c' token x =
        bal c token x
        - (if decide (x = sender) then amount else 0)
        + (if decide (x = to) then amount else 0))
  /\ (forall a x, a <> token -> bal c' a x = bal c a x)
  /\ allowance c' = allowance c
  /\ moved c' = moved c ++ [mkTransfer token sender to amount].
Proof.
  unfold erc20_transfer. intros H.
  destruct (decide (token = 0)); [discriminate|].
  destruct (decide (token ∈ shouldFail c)); [discriminate|].
  destruct (move token sender to amount c) as [c2|] eqn:Hm; [|discriminate].
  injection H as <-.
  pose proof (move_frame _ _ _ _ _ _ Hm) as (Hmv & Hal & _ & _).
  split.
  { destruct (Z_lt_le_dec (bal c token sender) amount) as [Hlt|]; [|assumption].
    assert (move token sender to amount c = None) by (apply move_None; auto).
    congruence. }
  split; [intros x; apply (bal_move_same _ _ _ _ _ _ x Hm)|].
  split; [|auto].
  intros a x Ha. rewrite (bal_move _ _ _ _ _ _ a x Hm).
  repeat case_decide; congruence || lia.
Qed.

Lemma erc20_transfer_moves_exactly_witness :
  exists c',
    erc20_transfer usdc client worker 5 funded = Returned true c'
    /\ bal c' usdc worker = 5
    /\ bal c' usdc client = 100000 * 10 ^ 6 - 5.
Proof.
  destruct (erc20_transfer usdc client worker 5 funded) as [[|] c'|] eqn:H;
    try (vm_compute in H; discriminate H).
  exists c'. split; [reflexivity|].
  destruct (erc20_transfer_moves_exactly _ _ _ _ _ _ H) as (_ & Hb & _).
  rewrite (Hb worker), (Hb client). vm_compute. auto.
Defined.

(** X2 — A [transferFrom] that returned [true] was covered by the
    allowance the owner gave the spender and by the owner's balance; it
    lowers that one allowance by [amount], leaves every other allowance
    alone, and moves [amount] from the owner to the recipient. *)
Theorem erc20_transferFrom_spends_allowance token spender from to amount c c' :
  erc20_transferFrom token spender from to amount c = Returned true c' ->
  amount <= allowed c token from spender
  /\ amount <= bal c token from
  /\ allowed c' token from spender = allowed c token from spender - amount
  /\ (forall t o s, (t, o, s) <> (token, from, spender) ->
        allowed c' t o s = allowed c t o s)
  /\ (forall x, bal c' token x =
        bal c token x
        - (if decide (x = from) then amount else 0)
        + (if decide (x = to) then amount else 0))
  /\ (forall a x, a <> token -> bal c' a x = bal c a x).
Proof.
  intros H.
  apply erc20_transferFrom_true in H
    as (_ & _ & Hal & Hb & Hall & Hbal & _).
  split; [exact Hal|]. split; [exact Hb|]. split.
  { rewrite Hall. destruct (decide _); [reflexivity|congruence]. }
  split.
  { intros t o s Hne. rewrite Hall.
    destruct (decide _); [congruence|reflexivity]. }
  split; intros; rewrite Hbal; repeat case_decide; congruence || lia.
Qed.

Lemma erc20_transferFrom_spends_allowance_witness :
  exists c',
    erc20_transferFrom usdc escrowContract client escrowContract 7 funded
    = Returned true c'
    /\ allowed c' usdc client escrowContract = MAX_UINT256 - 7
    /\ bal c' usdc escrowContract = 7.
Proof.
  destruct (erc20_transferFrom usdc escrowContract client escrowContract 7
              funded)
    as [[|] c'|] eqn:H; try (vm_compute in H; discriminate H).
  exists c'. split; [reflexivity|].
  destruct (erc20_transferFrom_spends_allowance _ _ _ _ _ _ _ H)
    as (_ & _ & Ha & _ & Hb & _).
  rewrite Ha, (Hb escrowContract). vm_compute. auto.
Defined.

(** X3 — While the [shouldFail] flag of [MaliciousToken] is up,
    [transfer] and [transferFrom] return [false] for every argument and
    leave the chain exactly as it was; [approve] does not consult the flag
    and still sets the allowance. *)
Theorem failing_token_moves_nothing token c :
  token <> 0 ->
  token ∈ shouldFail c ->
  (forall sender to amount,
      erc20_transfer token sender to amount c = Returned false c)
  /\ (forall spender from to amount,
      erc20_transferFrom token spender from to amount c = Returned false c)
  /\ (forall holder spender n, exists c',
      erc20_approve token holder spender n c = Returned true c'
      /\ allowed c' token holder spender = n
      /\ balanceOf c' = balanceOf c).
Proof.
  intros Htok Hsf. repeat apply conj.
  - intros. unfold erc20_transfer. repeat case_decide; done.
  - intros. unfold erc20_transferFrom. repeat case_decide; done.
  - intros. unfold erc20_approve. case_decide; [contradiction|].
    eexists. split; [reflexivity|]. split; [|reflexivity].
    rewrite (allowed_insert c). case_decide; congruence.
Qed.

Lemma failing_token_moves_nothing_witness :
  malToken <> 0
  /\ (malToken ∈ shouldFail (setShouldFail funded))
  /\ erc20_transfer malToken client worker 5 (setShouldFail funded)
     = Returned false (setShouldFail funded).
Proof.
  assert (H0 : malToken <> 0) by (vm_compute; discriminate).
  assert (H1 : malToken ∈ shouldFail (setShouldFail funded)).
  { decided. }
  split; [exact H0|]. split; [exact H1|].
  apply (failing_token_moves_nothing malToken (setShouldFail funded) H0 H1).
Defined.

(** X4 — Approve, then spend.  After the holder approved [n] to a
    spender, the spender's [transferFrom] of more than [n] reverts; of [v]
    up to [n], when the holder has the funds and the recipient the room, it
    returns [true], leaves an allowance of [n - v] and credits the
    recipient. *)
Theorem approve_then_transferFrom token holder spender to n v c c1 :
  erc20_approve token holder spender n c = Returned true c1 ->
  token ∉ shouldFail c ->
  (n < v -> erc20_transferFrom token spender holder to v c1 = Reverted)
  /\ (v <= n ->
      v <= bal c token holder ->
      bal c token to - (if decide (to = holder) then v else 0) + v
        <= MAX_UINT256 ->
      exists c2,
        erc20_transferFrom token spender holder to v c1 = Returned true c2
        /\ allowed c2 token holder spender = n - v
        /\ bal c2 token to =
             bal c token to - (if decide (to = holder) then v else 0) + v).
Proof.
  unfold erc20_approve. intros H Hsf.
  destruct (decide (token = 0)) as [|Htok]; [discriminate|].
  injection H as <-.
  assert (Hal : allowed
            {| balanceOf := balanceOf c;
               allowance := <[(token, holder, spender) := n]> (allowance c);
               shouldFail := shouldFail c; rejecting := rejecting c;
               moved := moved c |} token holder spender = n).
  { rewrite (allowed_insert c). case_decide; congruence. }
  split.
  - intros Hlt. unfold erc20_transferFrom.
    destruct (decide (token = 0)); [contradiction|]. simpl shouldFail.
    destruct (decide (token ∈ shouldFail c)); [contradiction|].
    rewrite Hal.
    destruct (checked_sub n v) as [r|] eqn:Hs; [|reflexivity].
    apply checked_sub_Some in Hs. lia.
  - intros Hle Hfunds Hroom.
    match goal with
    | |- exists c2, erc20_transferFrom _ _ _ _ _ ?c1 = _ /\ _ =>
        destruct (erc20_transferFrom token spender holder to v c1)
          as [[|] c2|] eqn:H
    end.
    + exists c2. split; [reflexivity|].
      apply erc20_transferFrom_true in H
        as (_ & _ & _ & _ & Hall & Hbal & _).
      split.
      * rewrite Hall, Hal.
        destruct (decide ((token, holder, spender) = (token, holder, spender)));
          [reflexivity|congruence].
      * rewrite Hbal. unfold bal. simpl.
        repeat case_decide; try congruence; try lia.
    + exfalso. unfold erc20_transferFrom in H.
      destruct (decide (token = 0)); [contradiction|]. simpl shouldFail in H.
      destruct (decide (token ∈ shouldFail c)); [contradiction|].
      destruct (checked_sub _ _); [|discriminate].
      destruct (move _ _ _ _ _); discriminate.
    + exfalso. unfold erc20_transferFrom in H.
      destruct (decide (token = 0)); [contradiction|]. simpl shouldFail in H.
      destruct (decide (token ∈ shouldFail c)); [contradiction|].
      rewrite Hal in H.
      destruct (checked_sub n v) as [r|] eqn:Hs.
      2:{ apply checked_sub_None in Hs. lia. }
      match type of H with
      | context [move ?a ?f ?t ?x ?c1] =>
          destruct (move_possible a f t x c1) as (c2 & Hm)
      end; [exact Hfunds|exact Hroom|].
      rewrite Hm in H. discriminate.
Qed.

Lemma approve_then_transferFrom_witness :
  exists c1,
    erc20_approve usdc client attacker 10 funded = Returned true c1
    /\ (usdc ∉ shouldFail funded)
    /\ erc20_transferFrom usdc attacker client attacker 11 c1 = Reverted.
Proof.
  destruct (erc20_approve usdc client attacker 10 funded) as [[|] c1|] eqn:H;
    try (vm_compute in H; discriminate H).
  assert (H1 : usdc ∉ shouldFail funded) by decided.
  exists c1. split; [reflexivity|]. split; [exact H1|].
  apply (approve_then_transferFrom usdc client attacker attacker 10 11 funded c1
           H H1).
  lia.
Defined.

End TokenContracts.

(** * AgentEscrow.sol: creation, submission and the client's release *)

Section AgentEscrowCustody.

Import AgentEscrow.

Variable keccak256 : address -> Z -> Z -> bytes32.

(** What [takeValue] does to the balances. *)
Lemma takeValue_bal accepts m w w0 :
  takeValue accepts m w = Ok w0 ->
  exists c,
    w0 = set_chain c w
    /\ shouldFail c = shouldFail (chain w)
    /\ rejecting c = rejecting (chain w)
    /\ allowance c = allowance (chain w)
    /\ moved c = moved (chain w)
                 ++ payout 0 (msg_sender m) (self w) (msg_value m)
    /\ (forall a x, bal c a x =
          bal (chain w) a x
          - (if decide ((a, x) = (0, msg_sender m)) then msg_value m else 0)
          + (if decide ((a, x) = (0, self w)) then msg_value m else 0)).
Proof.
  unfold takeValue, payout. intros H.
  destruct (decide (msg_value m = 0)) as [Hz|Hnz].
  - injection H as <-. exists (chain w). rewrite Hz, app_nil_r.
    destruct w; simpl. repeat split; auto.
    intros. repeat case_decide; lia.
  - destruct accepts; [|discriminate].
    destruct (move _ _ _ _ _) as [c|] eqn:Hm; [|discriminate].
    injection H as <-. exists c.
    pose proof (move_frame _ _ _ _ _ _ Hm) as (Hmv & Hal & Hsf & Hrj).
    repeat split; auto.
    intros a x. apply (bal_move _ _ _ _ _ _ a x Hm).
Qed.

(** X5 — A native escrow takes its amount into custody.  A
    successful [createEscrow] with [token = address(0)] had
    [msg.value = amount], an amount within the limits and a deadline in the
    future; it records a [Pending] escrow of the caller with no worker under
    the identifier hashed from the caller, the counter and the time, leaves
    every other record alone, advances the counter by one, and the
    contract's native balance is up, the caller's down, by the amount. *)
Theorem create_native_takes_custody amt d crit m w w' :
  call keccak256 quiet (CreateEscrow 0 amt d crit) m w = Ok w' ->
  msg_sender m <> self w ->
  let i := keccak256 (msg_sender m) (escrowCount w) (block_timestamp m) in
  msg_value m = amt
  /\ minEscrowAmount w <= amt <= maxEscrowAmount w
  /\ block_timestamp m < d
  /\ getEscrow w' i =
       mkEscrow (msg_sender m) 0 0 amt d crit Pending OutcomeNone 0
         (block_timestamp m) 0 0
  /\ (forall j, j <> i -> getEscrow w' j = getEscrow w j)
  /\ escrowCount w' = escrowCount w + 1
  /\ bal (chain w') 0 (self w) = bal (chain w) 0 (self w) + amt
  /\ bal (chain w') 0 (msg_sender m) = bal (chain w) 0 (msg_sender m) - amt.
Proof.
  intros H Hself i. unfold call in H.
  apply bind_Ok in H as (w0 & Hv & H).
  apply takeValue_bal in Hv as (c0 & -> & _ & _ & _ & _ & Hbal).
  apply bind_Ok in H as ([i' w1] & H & [= <-]). simpl.
  unfold createEscrow in H. simpl in H.
  destruct (decide (amt < minEscrowAmount w \/ amt > maxEscrowAmount w))
    as [|Hrange]; [discriminate|].
  destruct (decide (d <= block_timestamp m)) as [|Hd]; [discriminate|].
  apply bind_Ok in H as (next & Hn & H).
  apply arith_Ok, checked_add_Some in Hn as [_ ->].
  apply bind_Ok in H as (w2 & H2 & H).
  destruct (decide (0 = 0)); [|contradiction].
  destruct (decide (msg_value m ≠ amt)) as [|Hval]; [discriminate|].
  apply dec_stable in Hval.
  injection H2 as <-. injection H as <- <-.
  split; [exact Hval|]. split; [lia|]. split; [lia|].
  split; [apply getEscrow_set_escrow_eq|].
  split.
  { intros j Hj. rewrite getEscrow_set_escrow.
    case_decide as Hij; [subst i; congruence|reflexivity]. }
  split; [reflexivity|]. simpl. rewrite !Hbal, Hval.
  split; repeat case_decide; congruence || lia.
Qed.

(** X6 — A token escrow pulls its amount from the client.  After a
    successful [createEscrow] in a token that honours transfers, the
    client's allowance to the contract and the client's balance are down by
    the amount, which both covered, and the contract's balance is up by it.
    The function is [payable] and does not look at [msg.value] for a token
    escrow: whatever native value came with the call stays in the
    contract. *)
Theorem create_token_takes_custody tok amt d crit m w w' :
  call keccak256 quiet (CreateEscrow tok amt d crit) m w = Ok w' ->
  tok <> 0 ->
  tok ∉ shouldFail (chain w) ->
  msg_sender m <> self w ->
  let i := keccak256 (msg_sender m) (escrowCount w) (block_timestamp m) in
  getEscrow w' i =
    mkEscrow (msg_sender m) 0 tok amt d crit Pending OutcomeNone 0
      (block_timestamp m) 0 0
  /\ amt <= allowed (chain w) tok (msg_sender m) (self w)
  /\ amt <= bal (chain w) tok (msg_sender m)
  /\ allowed (chain w') tok (msg_sender m) (self w)
     = allowed (chain w) tok (msg_sender m) (self w) - amt
  /\ bal (chain w') tok (self w) = bal (chain w) tok (self w) + amt
  /\ bal (chain w') tok (msg_sender m) = bal (chain w) tok (msg_sender m) - amt
  /\ bal (chain w') 0 (self w) = bal (chain w) 0 (self w) + msg_value m.
Proof.
  intros H Htok Hsf Hself i. unfold call in H.
  apply bind_Ok in H as (w0 & Hv & H).
  apply takeValue_bal in Hv as (c0 & -> & Hsf0 & _ & Hal0 & _ & Hbal0).
  apply bind_Ok in H as ([i' w1] & H & [= <-]). simpl.
  unfold createEscrow in H. simpl in H.
  destruct (decide (amt < minEscrowAmount w \/ amt > maxEscrowAmount w))
    as [|Hrange]; [discriminate|].
  destruct (decide (d <= block_timestamp m)) as [|Hd]; [discriminate|].
  apply bind_Ok in H as (next & Hn & H).
  apply arith_Ok, checked_add_Some in Hn as [_ ->].
  apply bind_Ok in H as (w2 & H2 & H).
  destruct (decide (tok = 0)); [contradiction|].
  unfold call_token, quiet in H2. simpl in H2.
  destruct (erc20_transferFrom tok (self w) (msg_sender m) (self w) amt c0)
    as [[|] c1|] eqn:Hpull; [| |discriminate].
  2:{ unfold erc20_transferFrom in Hpull.
      destruct (decide (tok = 0)); [contradiction|].
      destruct (decide (tok ∈ shouldFail c0)) as [Hin|_].
      { rewrite Hsf0 in Hin. contradiction. }
      destruct (checked_sub _ _); [|discriminate].
      destruct (move _ _ _ _ _); discriminate. }
  apply erc20_transferFrom_true in Hpull
    as (_ & _ & Hal & Hb & Hall & Hbal & _).
  injection H2 as <-. injection H as <- <-. simpl.
  assert (Ha0 : forall t o s, allowed c0 t o s = allowed (chain w) t o s).
  { intros. unfold allowed. rewrite Hal0. reflexivity. }
  rewrite Ha0 in Hal. rewrite Hbal0 in Hb.
  split; [apply getEscrow_set_escrow_eq|].
  split; [exact Hal|].
  split.
  { revert Hb. repeat case_decide; try congruence; lia. }
  split.
  { rewrite Hall, Ha0.
    destruct (decide ((tok, msg_sender m, self w)
                      = (tok, msg_sender m, self w)));
      [reflexivity|congruence]. }
  rewrite !Hbal, !Hbal0.
  repeat apply conj; repeat case_decide; congruence || lia.
Qed.


(** X8 — [setLimits] checks nothing: once the arbitrator has set
    a minimum above the maximum, every [createEscrow], by anyone and for any
    amount, reverts with [InvalidAmount]. *)
Theorem inverted_limits_block_creation lo hi m w :
  msg_sender m = arbitrator w ->
  msg_value m = 0 ->
  hi < lo ->
  forall tok amt d crit m',
    createEscrow keccak256 quiet tok amt d crit m'
      (exec keccak256 quiet (SetLimits lo hi) m w)
    = Revert InvalidAmount.
Proof.
  intros Harb Hv Hinv tok amt d crit m'.
  unfold exec, call, takeValue, setLimits, onlyArbitrator.
  destruct (decide (msg_value m = 0)); [|contradiction]. simpl.
  destruct (decide (msg_sender m ≠ arbitrator w)); [contradiction|]. simpl.
  unfold createEscrow. simpl.
  destruct (decide (amt < lo \/ amt > hi)); [reflexivity|lia].
Qed.

(** X9 — Every outcome of a [submitWork] transaction.  Value sent
    along is refused; a caller who is not the worker gets [OnlyWorker]
    whatever the state; the worker gets [InvalidState] unless the escrow is
    [Active]; otherwise the evidence and the time of the call are recorded
    and the escrow is [Submitted].  No outcome depends on the deadline: the
    worker may submit after it. *)
Theorem submitWork_outcomes i ev m w :
  let e := getEscrow w i in
  (msg_value m <> 0 ->
   call keccak256 quiet (SubmitWork i ev) m w = Revert ValueRejected)
  /\ (msg_value m = 0 -> msg_sender m <> worker e ->
      call keccak256 quiet (SubmitWork i ev) m w = Revert OnlyWorker)
  /\ (msg_value m = 0 -> msg_sender m = worker e -> state e <> Active ->
      call keccak256 quiet (SubmitWork i ev) m w = Revert InvalidState)
  /\ (msg_value m = 0 -> msg_sender m = worker e -> state e = Active ->
      call keccak256 quiet (SubmitWork i ev) m w
      = Ok (set_escrow i (submitted ev (block_timestamp m) e) w)).
Proof.
  intros e. subst e.
  unfold call, takeValue, submitWork, onlyWorker, inState. simpl payable.
  repeat apply conj; intros; repeat (case_decide; simpl; try congruence).
Qed.

End AgentEscrowCustody.

Section AgentEscrowCustodyWitnesses.

Import Scenario.

Lemma create_native_takes_custody_witness :
  AgentEscrow.call packed AgentEscrow.quiet
    (AgentEscrow.CreateEscrow 0 (1000 * 10 ^ 6) (1 + day) criteria)
    (mkMsg client (1000 * 10 ^ 6) 1) ae_deployed = Ok eth_created
  /\ client <> AgentEscrow.self ae_deployed
  /\ bal (AgentEscrow.chain eth_created) 0 escrowContract = 1000 * 10 ^ 6.
Proof.
  assert (H : AgentEscrow.call packed AgentEscrow.quiet
                (AgentEscrow.CreateEscrow 0 (1000 * 10 ^ 6) (1 + day) criteria)
                (mkMsg client (1000 * 10 ^ 6) 1) ae_deployed = Ok eth_created)
    by (vm_compute; reflexivity).
  assert (Hs : client <> AgentEscrow.self ae_deployed)
    by (vm_compute; discriminate).
  split; [exact H|]. split; [exact Hs|].
  destruct (create_native_takes_custody packed _ _ _ _ _ _ H Hs)
    as (_ & _ & _ & _ & _ & _ & Hb & _).
  simpl in Hb. rewrite Hb. vm_compute. reflexivity.
Defined.

Lemma create_token_takes_custody_witness :
  AgentEscrow.call packed AgentEscrow.quiet
    (AgentEscrow.CreateEscrow usdc (1000 * 10 ^ 6) (1 + day) criteria)
    (mkMsg client 0 1) ae_deployed = Ok ae_created
  /\ usdc <> 0
  /\ (usdc ∉ shouldFail (AgentEscrow.chain ae_deployed))
  /\ client <> AgentEscrow.self ae_deployed
  /\ bal (AgentEscrow.chain ae_created) usdc escrowContract = 1000 * 10 ^ 6.
Proof.
  assert (H : AgentEscrow.call packed AgentEscrow.quiet
                (AgentEscrow.CreateEscrow usdc (1000 * 10 ^ 6) (1 + day)
                   criteria)
                (mkMsg client 0 1) ae_deployed = Ok ae_created)
    by (vm_compute; reflexivity).
  assert (H0 : usdc <> 0) by (vm_compute; discriminate).
  assert (H1 : usdc ∉ shouldFail (AgentEscrow.chain ae_deployed)) by decided.
  assert (Hs : client <> AgentEscrow.self ae_deployed)
    by (vm_compute; discriminate).
  split; [exact H|]. split; [exact H0|]. split; [exact H1|]. split; [exact Hs|].
  destruct (create_token_takes_custody packed _ _ _ _ _ _ _ H H0 H1 Hs)
    as (_ & _ & _ & _ & Hb & _).
  simpl in Hb. rewrite Hb. vm_compute. reflexivity.
Defined.


Lemma inverted_limits_block_creation_witness :
  msg_sender (mkMsg arbitrator 0 1) = AgentEscrow.arbitrator ae_deployed
  /\ AgentEscrow.createEscrow packed AgentEscrow.quiet usdc (1000 * 10 ^ 6) (1 + day) criteria
       (mkMsg client 0 2)
       (AgentEscrow.exec packed AgentEscrow.quiet (AgentEscrow.SetLimits 2 1)
          (mkMsg arbitrator 0 1) ae_deployed)
     = Revert AgentEscrow.InvalidAmount.
Proof.
  split; [reflexivity|].
  apply (inverted_limits_block_creation packed 2 1 (mkMsg arbitrator 0 1)
           ae_deployed);
    [reflexivity|reflexivity|lia].
Defined.

Lemma submitWork_outcomes_witness :
  AgentEscrow.call packed AgentEscrow.quiet (AgentEscrow.SubmitWork ae_id evidence)
    (mkMsg worker 0 (2 + day)) ae_accepted
  = Ok (AgentEscrow.set_escrow ae_id
          (AgentEscrow.submitted evidence (2 + day)
             (AgentEscrow.getEscrow ae_accepted ae_id))
          ae_accepted)
  /\ AgentEscrow.deadline (AgentEscrow.getEscrow ae_accepted ae_id) < 2 + day
  /\ AgentEscrow.call packed AgentEscrow.quiet (AgentEscrow.SubmitWork ae_id evidence)
       (mkMsg client 0 3) ae_released
     = Revert AgentEscrow.OnlyWorker.
Proof.
  split; [|split].
  - apply (proj2 (proj2 (proj2 (submitWork_outcomes packed ae_id evidence
                                  (mkMsg worker 0 (2 + day)) ae_accepted))));
      vm_compute; reflexivity.
  - vm_compute. reflexivity.
  - apply (proj1 (proj2 (submitWork_outcomes packed ae_id evidence
                           (mkMsg client 0 3) ae_released)));
      vm_compute; [reflexivity|discriminate].
Defined.

End AgentEscrowCustodyWitnesses.

(** * AgentEscrow.sol: what a payout does to the balances *)

Section AgentEscrowPayments.

Import AgentEscrow.

Variable keccak256 : address -> Z -> Z -> bytes32.

(** The balances after a [_transfer] in an asset that honours transfers. *)
Lemma transfer_bal tok to amt w w' :
  _transfer quiet tok to amt w = Ok w' ->
  honours (chain w) tok ->
  forall a x,
    bal (chain w') a x =
      bal (chain w) a x
      - (if decide ((a, x) = (tok, self w)) then amt else 0)
      + (if decide ((a, x) = (tok, to)) then amt else 0).
Proof.
  unfold _transfer, call_token, quiet. intros H Hh a x.
  destruct (decide (amt = 0)) as [->|Hamt].
  { injection H as <-. repeat case_decide; lia. }
  destruct (decide (tok = 0)) as [->|Htok].
  - unfold send_value in H.
    destruct (decide (to ∈ rejecting (chain w))); [discriminate|].
    destruct (move 0 (self w) to amt (chain w)) as [c'|] eqn:Hm;
      [|discriminate].
    injection H as <-. simpl. apply (bal_move _ _ _ _ _ _ a x Hm).
  - unfold erc20_transfer in H.
    destruct (decide (tok = 0)); [contradiction|].
    destruct (decide (tok ∈ shouldFail (chain w))).
    { destruct Hh; contradiction. }
    destruct (move tok (self w) to amt (chain w)) as [c'|] eqn:Hm;
      [|discriminate].
    injection H as <-. simpl. apply (bal_move _ _ _ _ _ _ a x Hm).
Qed.


Lemma payWorker_bal i w w' :
  payWorker quiet i w = Ok w' ->
  let e := getEscrow w i in
  let fee := amount e * protocolFeeBps w / 10000 in
  honours (chain w) (token e) ->
  fee <= amount e
  /\ forall a x,
       bal (chain w') a x =
         bal (chain w) a x
         - (if decide ((a, x) = (token e, self w)) then amount e else 0)
         + (if decide ((a, x) = (token e, worker e)) then amount e - fee else 0)
         + (if decide ((a, x) = (token e, arbitrator w)) then fee else 0).
Proof.
  intros H e fee Hh. rewrite payWorker_quiet in H. cbv zeta in H. fold e in H.
  apply bind_Ok in H as (fee' & Hfee & H).
  apply protocolFeeOf_Ok in Hfee as [_ ->]. fold fee in H.
  apply bind_Ok in H as (workerAmount & Hwa & H).
  apply arith_Ok, checked_sub_Some in Hwa as [Hle ->].
  apply bind_Ok in H as (w2 & H2 & H).
  pose proof (transfer_bal _ _ _ _ _ H2 Hh) as Hb2.
  apply transfer_Ok in H2 as (c2 & -> & Hsf2 & _).
  assert (Hh2 : honours c2 (token e)).
  { unfold honours in *. rewrite Hsf2. exact Hh. }
  pose proof (transfer_bal _ _ _ _ _ H Hh2) as Hb3.
  split; [exact Hle|].
  intros a x. rewrite Hb3, Hb2. simpl.
  repeat case_decide; try congruence; lia.
Qed.

(** X10 — The balances after [release] and [autoRelease].  On an
    asset that honours transfers, a successful call found the escrow
    [Submitted] and leaves the contract's balance down by the amount, the
    worker's up by the amount less the protocol fee, and the arbitrator's up
    by the fee (summed, when two of them are the same account); no other
    balance of the asset and no balance of another asset changes. *)
Theorem release_pays_worker_and_fee i m w w' :
  release quiet i m w = Ok w' \/ autoRelease quiet i m w = Ok w' ->
  let e := getEscrow w i in
  let fee := amount e * protocolFeeBps w / 10000 in
  honours (chain w) (token e) ->
  state e = Submitted
  /\ fee <= amount e
  /\ (forall x,
        bal (chain w') (token e) x =
          bal (chain w) (token e) x
          - (if decide (x = self w) then amount e else 0)
          + (if decide (x = worker e) then amount e - fee else 0)
          + (if decide (x = arbitrator w) then fee else 0))
  /\ (forall a x, a <> token e -> bal (chain w') a x = bal (chain w) a x).
Proof.
  intros H e fee Hh.
  assert (Hpay : state e = Submitted /\ payWorker quiet i w = Ok w').
  { destruct H as [H|H].
    - unfold release in H.
      apply bind_Ok in H as ([] & _ & H).
      apply bind_Ok in H as ([] & Hst & H). apply inState_Ok in Hst. auto.
    - unfold autoRelease in H.
      apply bind_Ok in H as ([] & Hst & H). apply inState_Ok in Hst.
      apply bind_Ok in H as (opens & _ & H).
      destruct (decide (block_timestamp m < opens)); [discriminate|]. auto. }
  destruct Hpay as [Hst Hpay].
  apply payWorker_bal in Hpay as [Hle Hb]; [|exact Hh].
  split; [exact Hst|]. split; [exact Hle|].
  split; intros; rewrite Hb; fold e fee;
    repeat case_decide; try congruence; lia.
Qed.

(** X11 — The client's [release] has no time condition: on a
    [Submitted] escrow whose payout the contract can make, it succeeds for
    the client at every timestamp and resolves the escrow as a full
    release. *)
Theorem release_has_no_time_condition i w :
  let e := getEscrow w i in
  let c := chain w in
  state e = Submitted ->
  0 <= amount e ->
  0 <= protocolFeeBps w <= 10000 ->
  amount e * protocolFeeBps w <= MAX_UINT256 ->
  amount e <= bal c (token e) (self w) <= MAX_UINT256 ->
  bal c (token e) (worker e) + amount e <= MAX_UINT256 ->
  bal c (token e) (arbitrator w) + amount e <= MAX_UINT256 ->
  (token e = 0 -> (worker e ∉ rejecting c) /\ (arbitrator w ∉ rejecting c)) ->
  forall m,
    msg_sender m = client e ->
    exists w',
      release quiet i m w = Ok w'
      /\ getEscrow w' i = resolved FullRelease 100 e.
Proof.
  intros e c Hst Hamt Hbps Hmul Hfunds Hrw Hra Htakes m Hcl.
  destruct (payWorker_succeeds i w Hamt Hbps Hmul Hfunds Hrw Hra Htakes)
    as (w' & Hpay).
  exists w'. split.
  - unfold release, onlyClient, inState. fold e.
    destruct (decide (msg_sender m ≠ client e)); [contradiction|].
    destruct (decide (state e ≠ Submitted)); [contradiction|]. exact Hpay.
  - apply payWorker_Ok in Hpay as (fee & _ & _ & Hrec & _). exact Hrec.
Qed.

(** X12 — A worker that cannot receive native value cannot be
    paid.  On a [Submitted] native escrow whose worker rejects the value,
    [release] by the client and [autoRelease] after the review period both
    revert with [TransferFailed], at every time. *)
Theorem rejecting_worker_blocks_payout i w :
  let e := getEscrow w i in
  token e = 0 ->
  state e = Submitted ->
  amount e * protocolFeeBps w <= MAX_UINT256 ->
  amount e * protocolFeeBps w / 10000 < amount e ->
  worker e ∈ rejecting (chain w) ->
  forall enter m,
    (msg_sender m = client e -> release enter i m w = Revert TransferFailed)
    /\ (submittedAt e + clientReviewPeriod w <= block_timestamp m ->
        submittedAt e + clientReviewPeriod w <= MAX_UINT256 ->
        autoRelease enter i m w = Revert TransferFailed).
Proof.
  intros e Htok Hst Hmul Hfee Hrej enter m.
  assert (Hpay : payWorker enter i w = Revert TransferFailed).
  { unfold payWorker. fold e.
    rewrite (proj2 (protocolFeeOf_Ok w e _) (conj Hmul eq_refl)). simpl.
    rewrite (proj2 (checked_sub_Some (amount e) _ _)
               (conj (Z.lt_le_incl _ _ Hfee) eq_refl)).
    simpl.
    assert (Ht : forall amt w1,
               amt <> 0 -> chain w1 = chain w ->
               _transfer enter (token e) (worker e) amt w1 = Revert TransferFailed).
    { intros amt w1 Hnz Hc. unfold _transfer, send_value.
      destruct (decide (amt = 0)); [contradiction|].
      destruct (decide (token e = 0)); [|contradiction]. rewrite Hc.
      destruct (decide (worker e ∈ rejecting (chain w)));
        [reflexivity|contradiction]. }
    rewrite Ht; [reflexivity|lia|reflexivity]. }
  split.
  - intros Hcl. unfold release, onlyClient, inState. fold e.
    destruct (decide (msg_sender m ≠ client e)); [contradiction|].
    destruct (decide (state e ≠ Submitted)); [contradiction|]. exact Hpay.
  - intros Hopen Hmax. unfold autoRelease, inState. fold e.
    destruct (decide (state e ≠ Submitted)); [contradiction|]. simpl.
    rewrite (proj2 (checked_add_Some _ _ _) (conj Hmax eq_refl)). simpl.
    destruct (decide (block_timestamp m < _)); [lia|]. exact Hpay.
Qed.






End AgentEscrowPayments.

Section AgentEscrowPaymentsWitnesses.

Import Scenario.

Lemma release_pays_worker_and_fee_witness :
  (AgentEscrow.release AgentEscrow.quiet ae_id (mkMsg client 0 4) ae_submitted = Ok ae_released
   \/ AgentEscrow.autoRelease AgentEscrow.quiet ae_id (mkMsg client 0 4) ae_submitted
      = Ok ae_released)
  /\ honours (AgentEscrow.chain ae_submitted) usdc
  /\ bal (AgentEscrow.chain ae_released) usdc worker = 990 * 10 ^ 6
  /\ bal (AgentEscrow.chain ae_released) usdc arbitrator = 10 * 10 ^ 6
  /\ bal (AgentEscrow.chain ae_released) usdc escrowContract = 0.
Proof.
  assert (H : AgentEscrow.release AgentEscrow.quiet ae_id (mkMsg client 0 4) ae_submitted
              = Ok ae_released
              \/ AgentEscrow.autoRelease AgentEscrow.quiet ae_id (mkMsg client 0 4) ae_submitted
                 = Ok ae_released) by (left; vm_compute; reflexivity).
  split; [exact H|]. split; [exact (proj1 honours_funded_usdc)|].
  destruct (release_pays_worker_and_fee ae_id (mkMsg client 0 4) ae_submitted
              ae_released H (proj1 honours_funded_usdc))
    as (_ & _ & Hb & _).
  change (AgentEscrow.token (AgentEscrow.getEscrow ae_submitted ae_id))
    with usdc in Hb.
  rewrite (Hb worker), (Hb arbitrator), (Hb escrowContract).
  vm_compute. auto.
Defined.

Lemma release_has_no_time_condition_witness :
  AgentEscrow.state (AgentEscrow.getEscrow ae_submitted ae_id)
  = AgentEscrow.Submitted
  /\ exists w',
       AgentEscrow.release AgentEscrow.quiet ae_id (mkMsg client 0 (10 ^ 12)) ae_submitted = Ok w'
       /\ AgentEscrow.state (AgentEscrow.getEscrow w' ae_id)
          = AgentEscrow.Resolved.
Proof.
  assert (Hs : AgentEscrow.state (AgentEscrow.getEscrow ae_submitted ae_id)
               = AgentEscrow.Submitted) by (vm_compute; reflexivity).
  split; [exact Hs|].
  destruct (release_has_no_time_condition ae_id ae_submitted Hs)
    with (m := mkMsg client 0 (10 ^ 12)) as (w' & Hr & Hrec).
  - vm_compute. discriminate.
  - split; vm_compute; discriminate.
  - vm_compute. discriminate.
  - split; vm_compute; discriminate.
  - vm_compute. discriminate.
  - vm_compute. discriminate.
  - intros Hz. vm_compute in Hz. discriminate.
  - vm_compute. reflexivity.
  - exists w'. split; [exact Hr|]. rewrite Hrec. reflexivity.
Defined.

Lemma rejecting_worker_blocks_payout_witness :
  AgentEscrow.token (AgentEscrow.getEscrow eth_refused eth_id) = 0
  /\ (worker ∈ rejecting (AgentEscrow.chain eth_refused))
  /\ AgentEscrow.release AgentEscrow.quiet eth_id (mkMsg client 0 4) eth_refused
     = Revert AgentEscrow.TransferFailed
  /\ AgentEscrow.autoRelease AgentEscrow.quiet eth_id (mkMsg attacker 0 (3 + 5 * 3600))
       eth_refused
     = Revert AgentEscrow.TransferFailed.
Proof.
  assert (H0 : AgentEscrow.token (AgentEscrow.getEscrow eth_refused eth_id) = 0)
    by (vm_compute; reflexivity).
  assert (H1 : worker ∈ rejecting (AgentEscrow.chain eth_refused)) by decided.
  assert (Hst : AgentEscrow.state (AgentEscrow.getEscrow eth_refused eth_id)
                = AgentEscrow.Submitted) by (vm_compute; reflexivity).
  assert (Hmul : AgentEscrow.amount (AgentEscrow.getEscrow eth_refused eth_id)
                 * AgentEscrow.protocolFeeBps eth_refused <= MAX_UINT256)
    by (vm_compute; discriminate).
  assert (Hfee : AgentEscrow.amount (AgentEscrow.getEscrow eth_refused eth_id)
                 * AgentEscrow.protocolFeeBps eth_refused / 10000
                 < AgentEscrow.amount
                     (AgentEscrow.getEscrow eth_refused eth_id))
    by (vm_compute; reflexivity).
  split; [exact H0|]. split; [exact H1|]. split.
  - apply (rejecting_worker_blocks_payout eth_id eth_refused H0 Hst Hmul Hfee H1
             AgentEscrow.quiet (mkMsg client 0 4)).
    vm_compute. reflexivity.
  - apply (rejecting_worker_blocks_payout eth_id eth_refused H0 Hst Hmul Hfee H1
             AgentEscrow.quiet (mkMsg attacker 0 (3 + 5 * 3600)));
      vm_compute; discriminate.
Defined.



End AgentEscrowPaymentsWitnesses.

(** * AgentEscrow.sol: what stays as it is *)

Section AgentEscrowForever.

Import AgentEscrow.

Variable keccak256 : address -> Z -> Z -> bytes32.

Ltac inv_record :=
  repeat match goal with
  | H : bind _ _ = Ok _ |- _ => apply bind_Ok in H as (? & ? & H)
  | H : Revert _ = Ok _ |- _ => discriminate H
  | H : Ok _ = Ok _ |- _ => injection H as H
  | H : (if decide ?P then _ else _) = Ok _ |- _ => destruct (decide P)
  | H : _transfer quiet _ _ _ _ = Ok _ |- _ => apply transfer_Ok in H as (? & H & _)
  | H : takeValue _ _ _ = Ok _ |- _ => apply takeValue_Ok in H as (? & H)
  | H : call_token quiet _ _ _ = Ok _ |- _ => apply call_token_Ok in H as (? & H)
  | H : inState _ _ _ = Ok _ |- _ => apply inState_Ok in H
  | H : onlyClient _ _ _ = Ok _ |- _ => apply onlyClient_Ok in H
  | H : onlyArbitrator _ _ = Ok _ |- _ => apply onlyArbitrator_Ok in H
  | H : onlyWorker _ _ _ = Ok _ |- _ => apply onlyWorker_Ok in H
  end; subst.

(** Every way one transaction can rewrite the record of an escrow. *)
Lemma call_record c m w w' j :
  call keccak256 quiet c m w = Ok w' ->
  creates keccak256 c m w <> Some j ->
  let e := getEscrow w j in
  getEscrow w' j = e
  \/ (c = AcceptEscrow j /\ state e = Pending
      /\ block_timestamp m < deadline e
      /\ getEscrow w' j = accepted (msg_sender m) e)
  \/ (exists ev, c = SubmitWork j ev /\ state e = Active
      /\ msg_sender m = worker e
      /\ getEscrow w' j = submitted ev (block_timestamp m) e)
  \/ (c = Dispute j /\ state e = Submitted /\ msg_sender m = client e
      /\ getEscrow w' j = disputed e)
  \/ ((c = Release j \/ c = AutoRelease j) /\ state e = Submitted
      /\ getEscrow w' j = resolved FullRelease 100 e)
  \/ (exists pct, c = Resolve j pct /\ state e = Disputed
      /\ msg_sender m = arbitrator w
      /\ getEscrow w' j = resolved (outcomeOf pct) pct e).
Proof.
  intros H Hfresh e. subst e. unfold call in H.
  apply bind_Ok in H as (w0 & Hv & H).
  apply takeValue_Ok in Hv as (c0 & ->).
  destruct c; simpl in Hfresh;
    unfold createEscrow, acceptEscrow, submitWork, release, dispute,
      autoRelease, resolve, payWorker, initiateArbitratorTransfer,
      acceptArbitratorTransfer, setFees, setLimits, setTimeouts in H;
    inv_record; simpl;
    rewrite ?getEscrow_set_chain in *;
    try (left; reflexivity);
    try (rewrite getEscrow_set_escrow; case_decide as Hj;
         [subst; try congruence|left; reflexivity]).
  all: simpl in *; rewrite ?getEscrow_set_chain in *.
  all: first
    [ solve [right; left; repeat split; auto; lia]
    | solve [do 2 right; left; eexists; repeat split; eauto]
    | solve [do 3 right; left; repeat split; auto]
    | solve [do 4 right; left; repeat split; auto]
    | solve [do 5 right; eexists; repeat split; eauto] ].
Qed.

Lemma exec_record c m w j :
  creates keccak256 c m w <> Some j ->
  let e := getEscrow w j in
  let e' := getEscrow (exec keccak256 quiet c m w) j in
  e' = e
  \/ (c = AcceptEscrow j /\ state e = Pending
      /\ block_timestamp m < deadline e
      /\ e' = accepted (msg_sender m) e)
  \/ (exists ev, c = SubmitWork j ev /\ state e = Active
      /\ msg_sender m = worker e
      /\ e' = submitted ev (block_timestamp m) e)
  \/ (c = Dispute j /\ state e = Submitted /\ msg_sender m = client e
      /\ e' = disputed e)
  \/ ((c = Release j \/ c = AutoRelease j) /\ state e = Submitted
      /\ e' = resolved FullRelease 100 e)
  \/ (exists pct, c = Resolve j pct /\ state e = Disputed
      /\ msg_sender m = arbitrator w
      /\ e' = resolved (outcomeOf pct) pct e).
Proof.
  intros Hfresh. unfold exec.
  destruct (call keccak256 quiet c m w) as [w'|err] eqn:Hc.
  - exact (call_record c m w w' j Hc Hfresh).
  - left. reflexivity.
Qed.

Lemma exec_keeps_terms c m w j :
  creates keccak256 c m w <> Some j ->
  let e := getEscrow w j in
  let e' := getEscrow (exec keccak256 quiet c m w) j in
  client e' = client e /\ token e' = token e /\ amount e' = amount e
  /\ deadline e' = deadline e /\ criteriaHash e' = criteriaHash e
  /\ createdAt e' = createdAt e
  /\ (state e <> Pending -> worker e' = worker e /\ state e' <> Pending)
  /\ (state e <> Pending -> state e <> Active ->
      submittedAt e' = submittedAt e /\ evidenceHash e' = evidenceHash e
      /\ state e' <> Active).
Proof.
  intros Hfresh e e'.
  destruct (exec_record c m w j Hfresh)
    as [H|[(_ & Hs & _ & H)|[(ev & _ & Hs & _ & H)|[(_ & Hs & _ & H)
       |[(_ & Hs & H)|(pct & _ & Hs & _ & H)]]]]];
    fold e e' in H, Hs || fold e e' in H; rewrite H; simpl;
    repeat apply conj; intros; repeat split; try reflexivity;
    try congruence; try discriminate.
Qed.

(** X15 — The terms of an escrow are fixed.  Through every
    sequence of transactions (none of which creates an escrow under the same
    identifier), client, token, amount, deadline, criteria hash and creation
    time stay what they are; the worker stays once the escrow has left
    [Pending], and the evidence and submission time stay once it has left
    [Active]. *)
Theorem escrow_terms_never_change i calls : forall w,
  neverCreates keccak256 quiet i calls w ->
  Forall (fun w' =>
            let e := getEscrow w i in
            let e' := getEscrow w' i in
            client e' = client e /\ token e' = token e
            /\ amount e' = amount e /\ deadline e' = deadline e
            /\ criteriaHash e' = criteriaHash e
            /\ createdAt e' = createdAt e
            /\ (state e <> Pending -> worker e' = worker e)
            /\ (state e <> Pending -> state e <> Active ->
                submittedAt e' = submittedAt e
                /\ evidenceHash e' = evidenceHash e))
    (run keccak256 quiet calls w).
Proof.
  induction calls as [|[c m] rest IH]; intros w Hfresh; simpl; [constructor|].
  destruct Hfresh as [Hc Hrest].
  pose proof (exec_keeps_terms c m w i Hc)
    as (Hcl & Htk & Ham & Hdl & Hcr & Hat & Hwk & Hsub).
  constructor.
  - cbv zeta. repeat apply conj; try assumption.
    + intros Hp. apply Hwk. exact Hp.
    + intros Hp Ha. destruct (Hsub Hp Ha) as (? & ? & _). auto.
  - eapply Forall_impl; [apply (IH _ Hrest)|].
    cbv zeta. intros w' (Gcl & Gtk & Gam & Gdl & Gcr & Gat & Gwk & Gsub).
    repeat apply conj; try congruence.
    + intros Hp. destruct (Hwk Hp) as [Hw Hp']. rewrite (Gwk Hp'). exact Hw.
    + intros Hp Ha. destruct (Hwk Hp) as [_ Hp'].
      destruct (Hsub Hp Ha) as (Hs & He & Ha').
      destruct (Gsub Hp' Ha') as [Gs Ge]. split; congruence.
Qed.


(** X17 — A disputed escrow waits for the arbitrator, however
    long.  As long as neither the arbitrator nor its nominee is the caller,
    every sequence of transactions, at whatever times (and short of a
    creation under the same identifier), leaves a [Disputed] escrow and the
    arbitrator as they are. *)
Theorem disputed_waits_for_arbitrator i calls : forall w,
  state (getEscrow w i) = Disputed ->
  neverCreates keccak256 quiet i calls w ->
  Forall (fun cm => msg_sender (snd cm) <> arbitrator w
                    /\ msg_sender (snd cm) <> pendingArbitrator w) calls ->
  Forall (fun w' => getEscrow w' i = getEscrow w i
                    /\ arbitrator w' = arbitrator w)
    (run keccak256 quiet calls w).
Proof.
  induction calls as [|[c m] rest IH]; intros w Hs Hfresh Hnot; simpl;
    [constructor|].
  destruct Hfresh as [Hc Hrest].
  apply Forall_cons in Hnot as [[Hna Hnp] Hnot]. simpl in Hna, Hnp.
  assert (Hsame : getEscrow (exec keccak256 quiet c m w) i = getEscrow w i).
  { destruct (exec_record c m w i Hc)
      as [H|[(_ & Hs' & _)|[(ev & _ & Hs' & _)|[(_ & Hs' & _)
         |[(_ & Hs' & _)|(pct & _ & _ & Harb & _)]]]]];
      [exact H|congruence..]. }
  assert (Hroles : arbitrator (exec keccak256 quiet c m w) = arbitrator w
                   /\ pendingArbitrator (exec keccak256 quiet c m w)
                      = pendingArbitrator w).
  { unfold exec. destruct (call keccak256 quiet c m w) as [w'|err] eqn:Hcall;
      [|split; reflexivity].
    split.
    - destruct (decide (arbitrator w' = arbitrator w)) as [|Hne]; [assumption|].
      destruct (call_arbitrator keccak256 c m w w' Hcall Hne) as (_ & Hp & _).
      contradiction.
    - destruct (decide (pendingArbitrator w' = pendingArbitrator w))
        as [|Hne]; [assumption|].
      destruct (call_pendingArbitrator keccak256 c m w w' Hcall Hne)
        as [(a & _ & Ha & _)|(-> & _)]; [contradiction|].
      exfalso. unfold call, takeValue, acceptArbitratorTransfer in Hcall.
      simpl in Hcall.
      destruct (decide (msg_value m = 0)); [|discriminate]. simpl in Hcall.
      destruct (decide (msg_sender m ≠ pendingArbitrator w)); [discriminate|].
      contradiction. }
  destruct Hroles as [Harb Hpend].
  constructor; [split; assumption|].
  rewrite <- Hsame, <- Harb. apply IH.
  - rewrite Hsame. exact Hs.
  - exact Hrest.
  - rewrite Harb, Hpend. exact Hnot.
Qed.

End AgentEscrowForever.

Section AgentEscrowDeadSetting.

Import AgentEscrow.

Variable keccak256 : address -> Z -> Z -> bytes32.

Lemma transfer_timeouts r x tok to amt w :
  _transfer quiet tok to amt (set_timeouts r x w)
  = match _transfer quiet tok to amt w with
    | Ok w' => Ok (set_timeouts r x w')
    | Revert e => Revert e
    end.
Proof.
  unfold _transfer, call_token, quiet. simpl.
  destruct (decide (amt = 0)); [reflexivity|].
  destruct (decide (tok = 0)).
  - destruct (send_value _ _ _ _) as [[|] c]; reflexivity.
  - destruct (erc20_transfer _ _ _ _ _); reflexivity.
Qed.

(** X18 — Nothing reads [arbitrationTimeout].  Every function but
    [setTimeouts], which overwrites it, behaves the same whatever its value:
    the same error, or the same next world up to that one variable. *)
Theorem arbitrationTimeout_is_never_read c m w x :
  (forall r a, c <> SetTimeouts r a) ->
  call keccak256 quiet c m (set_timeouts (clientReviewPeriod w) x w)
  = match call keccak256 quiet c m w with
    | Ok w' => Ok (set_timeouts (clientReviewPeriod w') x w')
    | Revert e => Revert e
    end.
Proof.
  intros Hc. unfold call.
  assert (Hv : takeValue (payable c) m (set_timeouts (clientReviewPeriod w) x w)
               = match takeValue (payable c) m w with
                 | Ok w' => Ok (set_timeouts (clientReviewPeriod w) x w')
                 | Revert e => Revert e
                 end).
  { unfold takeValue. simpl.
    destruct (decide (msg_value m = 0)); [reflexivity|].
    destruct (payable c); [|reflexivity].
    destruct (move _ _ _ _ _); reflexivity. }
  rewrite Hv. clear Hv.
  destruct (takeValue (payable c) m w) as [w0|err] eqn:Hv0; simpl;
    [|reflexivity].
  apply takeValue_Ok in Hv0 as (c0 & ->).
  destruct c; try (exfalso; eapply Hc; reflexivity); clear Hc;
    destruct w;
    unfold createEscrow, acceptEscrow, submitWork, release, dispute,
      autoRelease, resolve, payWorker, initiateArbitratorTransfer,
      acceptArbitratorTransfer, setFees, setLimits, setTimeouts,
      onlyArbitrator, onlyClient, onlyWorker, inState, protocolFeeOf,
      disputeFeeOf, _transfer, call_token, quiet, getEscrow; simpl.
  all: repeat
    (match goal with
     | |- context [decide ?P] => destruct (decide P)
     | |- context [arith ?o] => destruct o
     | |- context [send_value ?a ?b ?v ?ch] =>
         destruct (send_value a b v ch) as [[|] ?]
     | |- context [erc20_transfer ?t ?a ?b ?v ?ch] =>
         destruct (erc20_transfer t a b v ch) as [? ?|]
     | |- context [erc20_transferFrom ?t ?s ?a ?b ?v ?ch] =>
         destruct (erc20_transferFrom t s a b v ch) as [? ?|]
     end; simpl); try reflexivity.
Qed.

End AgentEscrowDeadSetting.

(** * AgentEscrow.sol: settings that change under an open escrow *)

Section AgentEscrowSettings.

Import AgentEscrow.

Variable keccak256 : address -> Z -> Z -> bytes32.

(** X19 — The review period is the one in force when
    [autoRelease] is called.  After the arbitrator's [setTimeouts], an escrow
    that was already [Submitted] is released from [submittedAt] plus the new
    period on, and not before; with a period of zero, at once. *)
Theorem review_period_is_read_at_release_time i r a m w :
  msg_sender m = arbitrator w ->
  msg_value m = 0 ->
  state (getEscrow w i) = Submitted ->
  submittedAt (getEscrow w i) + r <= MAX_UINT256 ->
  let w1 := exec keccak256 quiet (SetTimeouts r a) m w in
  forall m',
    (block_timestamp m' < submittedAt (getEscrow w i) + r ->
     autoRelease quiet i m' w1 = Revert ReviewPeriodActive)
    /\ (submittedAt (getEscrow w i) + r <= block_timestamp m' ->
        autoRelease quiet i m' w1 = payWorker quiet i w1).
Proof.
  intros Harb Hv Hs Hmax w1 m'.
  assert (Hw1 : w1 = set_timeouts r a w).
  { subst w1. unfold exec, call, takeValue, setTimeouts, onlyArbitrator.
    destruct (decide (msg_value m = 0)); [|contradiction]. simpl.
    destruct (decide (msg_sender m ≠ arbitrator w)); [contradiction|].
    reflexivity. }
  rewrite Hw1. unfold autoRelease, inState.
  change (getEscrow (set_timeouts r a w) i) with (getEscrow w i).
  destruct (decide (state (getEscrow w i) ≠ Submitted)); [contradiction|].
  simpl bind.
  rewrite (proj2 (checked_add_Some _ _ _) (conj Hmax eq_refl)). simpl.
  split; intros Ht;
    destruct (decide (block_timestamp m' < submittedAt (getEscrow w i) + r));
    try reflexivity; lia.
Qed.

(** X20 — The dispute fee handed back is priced at resolution.  On
    a token escrow whose token honours transfers, [dispute] collects
    [amount * disputeFeeBps / 10000] at the rate then in force; after a
    [setFees], [resolve] pays out the amount plus [amount * d / 10000] at
    the new rate [d], whatever was collected. *)
Theorem dispute_fee_is_repriced_at_resolution i pct p d md ms mr w wd ws wr :
  dispute quiet i md w = Ok wd ->
  setFees p d ms wd = Ok ws ->
  resolve quiet i pct mr ws = Ok wr ->
  0 <= pct ->
  let e := getEscrow w i in
  token e <> 0 ->
  token e ∉ shouldFail (chain w) ->
  moved (chain wd)
  = moved (chain w)
    ++ [mkTransfer (token e) (client e) (self w)
          (amount e * disputeFeeBps w / 10000)]
  /\ exists paid,
       moved (chain wr) = moved (chain wd) ++ paid
       /\ total paid = amount e + amount e * d / 10000.
Proof.
  intros Hd Hf Hr Hpct e Htok Hsf.
  apply dispute_Ok in Hd
    as (df & Hcl & _ & Hdf & Hrec & Hsfd & _ & Hmvd).
  fold e in Hcl, Hdf, Hrec, Hmvd.
  apply disputeFeeOf_Ok in Hdf as [_ ->].
  specialize (Hmvd Htok Hsf). rewrite Hcl in Hmvd.
  split; [exact Hmvd|].
  unfold setFees in Hf. apply bind_Ok in Hf as ([] & _ & [= <-]).
  apply resolve_Ok in Hr
    as (pf & df' & wa & cr & _ & _ & _ & Hpf & Hdf' & _ & _ & _ & Hcr & _
        & Hmv);
    [|exact Hpct].
  change (getEscrow (set_fees p d wd) i) with (getEscrow wd i) in *.
  rewrite Hrec in *. simpl in Hpf, Hdf', Hcr, Hmv.
  apply disputeFeeOf_Ok in Hdf' as [_ Hdf']. simpl in Hdf'.
  eexists. split.
  - apply Hmv. right. rewrite Hsfd. exact Hsf.
  - rewrite !total_app, !total_payout. subst cr df'. fold e. lia.
Qed.

End AgentEscrowSettings.

Section AgentEscrowForeverWitnesses.

Import Scenario.

Lemma escrow_terms_never_change_witness :
  AgentEscrow.neverCreates packed AgentEscrow.quiet ae_id (happy_path ae_id) ae_created
  /\ Forall (fun w' =>
               AgentEscrow.client (AgentEscrow.getEscrow w' ae_id) = client
               /\ AgentEscrow.amount (AgentEscrow.getEscrow w' ae_id)
                  = 1000 * 10 ^ 6)
       (AgentEscrow.run packed AgentEscrow.quiet (happy_path ae_id) ae_created).
Proof.
  assert (Hn : AgentEscrow.neverCreates packed AgentEscrow.quiet ae_id (happy_path ae_id)
                 ae_created).
  { simpl. repeat split; discriminate. }
  split; [exact Hn|].
  eapply Forall_impl;
    [exact (escrow_terms_never_change packed ae_id (happy_path ae_id)
              ae_created Hn)|].
  cbv zeta. intros w' (Hc & _ & Ha & _). rewrite Hc, Ha.
  vm_compute. auto.
Defined.


Lemma disputed_waits_for_arbitrator_witness :
  AgentEscrow.state (AgentEscrow.getEscrow ae_disputed ae_id)
  = AgentEscrow.Disputed
  /\ Forall (fun w' =>
               AgentEscrow.getEscrow w' ae_id
               = AgentEscrow.getEscrow ae_disputed ae_id
               /\ AgentEscrow.arbitrator w'
                  = AgentEscrow.arbitrator ae_disputed)
       (AgentEscrow.run packed AgentEscrow.quiet
          [ (AgentEscrow.Resolve ae_id 50, mkMsg attacker 0 (10 ^ 9));
            (AgentEscrow.AutoRelease ae_id, mkMsg worker 0 (10 ^ 9 + 1)) ]
          ae_disputed).
Proof.
  assert (Hs : AgentEscrow.state (AgentEscrow.getEscrow ae_disputed ae_id)
               = AgentEscrow.Disputed) by (vm_compute; reflexivity).
  split; [exact Hs|].
  apply (disputed_waits_for_arbitrator packed ae_id _ ae_disputed Hs).
  - simpl. repeat split; discriminate.
  - repeat constructor; vm_compute; discriminate.
Defined.

Lemma arbitrationTimeout_is_never_read_witness :
  (forall r a, AgentEscrow.Release ae_id <> AgentEscrow.SetTimeouts r a)
  /\ AgentEscrow.call packed AgentEscrow.quiet (AgentEscrow.Release ae_id) (mkMsg client 0 4)
       (AgentEscrow.set_timeouts (4 * 3600) 0 ae_submitted)
     = Ok (AgentEscrow.set_timeouts (4 * 3600) 0 ae_released).
Proof.
  assert (Hc : forall r a,
             AgentEscrow.Release ae_id <> AgentEscrow.SetTimeouts r a)
    by discriminate.
  split; [exact Hc|].
  pose proof (arbitrationTimeout_is_never_read packed
                (AgentEscrow.Release ae_id) (mkMsg client 0 4) ae_submitted 0
                Hc) as H.
  change (AgentEscrow.clientReviewPeriod ae_submitted) with (4 * 3600) in H.
  rewrite H. vm_compute. reflexivity.
Defined.

Lemma review_period_is_read_at_release_time_witness :
  msg_sender (mkMsg arbitrator 0 4) = AgentEscrow.arbitrator ae_submitted
  /\ AgentEscrow.state (AgentEscrow.getEscrow ae_submitted ae_id)
     = AgentEscrow.Submitted
  /\ AgentEscrow.autoRelease AgentEscrow.quiet ae_id (mkMsg attacker 0 4)
       (AgentEscrow.exec packed AgentEscrow.quiet (AgentEscrow.SetTimeouts 0 0)
          (mkMsg arbitrator 0 4) ae_submitted)
     = AgentEscrow.payWorker AgentEscrow.quiet ae_id
         (AgentEscrow.exec packed AgentEscrow.quiet (AgentEscrow.SetTimeouts 0 0)
            (mkMsg arbitrator 0 4) ae_submitted).
Proof.
  assert (Ha : msg_sender (mkMsg arbitrator 0 4)
               = AgentEscrow.arbitrator ae_submitted) by reflexivity.
  assert (Hs : AgentEscrow.state (AgentEscrow.getEscrow ae_submitted ae_id)
               = AgentEscrow.Submitted) by (vm_compute; reflexivity).
  split; [exact Ha|]. split; [exact Hs|].
  apply (review_period_is_read_at_release_time packed ae_id 0 0
           (mkMsg arbitrator 0 4) ae_submitted Ha eq_refl Hs).
  - vm_compute. discriminate.
  - vm_compute. discriminate.
Defined.

Lemma dispute_fee_is_repriced_at_resolution_witness :
  AgentEscrow.dispute AgentEscrow.quiet ae_id (mkMsg client 0 4) ae_submitted = Ok ae_disputed
  /\ AgentEscrow.setFees 100 50 (mkMsg arbitrator 0 5) ae_disputed
     = Ok (AgentEscrow.set_fees 100 50 ae_disputed)
  /\ exists wr paid,
       AgentEscrow.resolve AgentEscrow.quiet ae_id 70 (mkMsg arbitrator 0 6)
         (AgentEscrow.set_fees 100 50 ae_disputed) = Ok wr
       /\ moved (AgentEscrow.chain wr)
          = moved (AgentEscrow.chain ae_disputed) ++ paid
       /\ total paid = 1005 * 10 ^ 6.
Proof.
  assert (Hd : AgentEscrow.dispute AgentEscrow.quiet ae_id (mkMsg client 0 4) ae_submitted
               = Ok ae_disputed) by (vm_compute; reflexivity).
  assert (Hf : AgentEscrow.setFees 100 50 (mkMsg arbitrator 0 5) ae_disputed
               = Ok (AgentEscrow.set_fees 100 50 ae_disputed))
    by (vm_compute; reflexivity).
  split; [exact Hd|]. split; [exact Hf|].
  destruct (AgentEscrow.resolve AgentEscrow.quiet ae_id 70 (mkMsg arbitrator 0 6)
              (AgentEscrow.set_fees 100 50 ae_disputed)) as [wr|err] eqn:Hr;
    [|vm_compute in Hr; discriminate Hr].
  destruct (dispute_fee_is_repriced_at_resolution ae_id 70 100 50
              (mkMsg client 0 4) (mkMsg arbitrator 0 5) (mkMsg arbitrator 0 6)
              ae_submitted ae_disputed _ wr Hd Hf Hr)
    as (_ & paid & Hmv & Htot).
  - lia.
  - vm_compute. discriminate.
  - decided.
  - exists wr, paid. split; [reflexivity|]. split; [exact Hmv|].
    rewrite Htot. vm_compute. reflexivity.
Defined.

End AgentEscrowForeverWitnesses.

(** * Escrow.sol: creation, delivery, payment and cancellation *)

Section EscrowCustody.

Import Escrow.

Variable keccak256 : Z -> address -> Z -> bytes32.

Lemma takeValue_bal_v1 accepts m w w0 :
  takeValue accepts m w = Ok w0 ->
  exists c,
    w0 = set_chain c w
    /\ shouldFail c = shouldFail (chain w)
    /\ rejecting c = rejecting (chain w)
    /\ allowance c = allowance (chain w)
    /\ moved c = moved (chain w)
                 ++ payout 0 (msg_sender m) (self w) (msg_value m)
    /\ (forall a x, bal c a x =
          bal (chain w) a x
          - (if decide ((a, x) = (0, msg_sender m)) then msg_value m else 0)
          + (if decide ((a, x) = (0, self w)) then msg_value m else 0)).
Proof.
  unfold takeValue, payout. intros H.
  destruct (decide (msg_value m = 0)) as [Hz|Hnz].
  - injection H as <-. exists (chain w). rewrite Hz, app_nil_r.
    destruct w; simpl. repeat split; auto.
    intros. repeat case_decide; lia.
  - destruct accepts; [|discriminate].
    destruct (move _ _ _ _ _) as [c|] eqn:Hm; [|discriminate].
    injection H as <-. exists c.
    pose proof (move_frame _ _ _ _ _ _ Hm) as (Hmv & Hal & Hsf & Hrj).
    repeat split; auto.
    intros a x. apply (bal_move _ _ _ _ _ _ a x Hm).
Qed.

(** The balances after a successful [_transferFunds]. *)
Lemma transferFunds_bal tok to amt w w' :
  _transferFunds tok to amt w = Ok w' ->
  forall a x,
    bal (chain w') a x =
      bal (chain w) a x
      - (if decide ((a, x) = (tok, self w)) then amt else 0)
      + (if decide ((a, x) = (tok, to)) then amt else 0).
Proof.
  unfold _transferFunds. intros H a x.
  destruct (decide (tok = 0)) as [->|Htok].
  - unfold send_value in H.
    destruct (decide (to ∈ rejecting (chain w))); [discriminate|].
    destruct (move 0 (self w) to amt (chain w)) as [c'|] eqn:Hm;
      [|discriminate].
    injection H as <-. simpl. apply (bal_move _ _ _ _ _ _ a x Hm).
  - unfold erc20_transfer in H.
    destruct (decide (tok = 0)); [contradiction|].
    destruct (decide (tok ∈ shouldFail (chain w))); [discriminate|].
    destruct (move tok (self w) to amt (chain w)) as [c'|] eqn:Hm;
      [|discriminate].
    injection H as <-. simpl. apply (bal_move _ _ _ _ _ _ a x Hm).
Qed.

(** A transfer the contract can afford, to a recipient that takes it, in an
    asset that honours transfers, goes through. *)
Lemma transferFunds_succeeds tok to amt w :
  honours (chain w) tok ->
  amt <= bal (chain w) tok (self w) ->
  bal (chain w) tok to - (if decide (to = self w) then amt else 0) + amt
    <= MAX_UINT256 ->
  (tok = 0 -> to ∉ rejecting (chain w)) ->
  exists w', _transferFunds tok to amt w = Ok w'.
Proof.
  intros Hh Hfunds Hroom Htakes. unfold _transferFunds.
  destruct (move_possible tok (self w) to amt (chain w) Hfunds Hroom)
    as (c' & Hm).
  destruct (decide (tok = 0)) as [->|Htok].
  - unfold send_value.
    destruct (decide (to ∈ rejecting (chain w))) as [Hin|_].
    { exfalso. apply Htakes; [reflexivity|exact Hin]. }
    rewrite Hm. eauto.
  - unfold erc20_transfer.
    destruct (decide (tok = 0)); [contradiction|].
    destruct (decide (tok ∈ shouldFail (chain w))).
    { destruct Hh; contradiction. }
    rewrite Hm. eauto.
Qed.

(** X21 — A native escrow of [Escrow] takes the value of the
    call into custody.  A successful [createEscrow] had a value within
    [MIN_ESCROW] and [MAX_ESCROW], a worker that is neither [address(0)] nor
    the caller and a deadline in the future; it records a [PENDING] escrow
    of that value with the protocol arbiter of the moment, leaves every
    other record alone, and the contract's balance is up, the caller's down,
    by the value. *)
Theorem create_for_worker_takes_custody worker_ d crit m w w' :
  call keccak256 (CreateEscrow worker_ d crit) m w = Ok w' ->
  msg_sender m <> self w ->
  let i := keccak256 (block_timestamp m) (msg_sender m) (_escrowCounter w) in
  MIN_ESCROW <= msg_value m <= MAX_ESCROW
  /\ worker_ <> 0
  /\ worker_ <> msg_sender m
  /\ block_timestamp m < d
  /\ getEscrow w' i =
       mkEscrowData (msg_sender m) worker_ (protocolArbiter w) 0 (msg_value m)
         d crit 0 PENDING (block_timestamp m) 0
  /\ (forall j, j <> i -> getEscrow w' j = getEscrow w j)
  /\ bal (chain w') 0 (self w) = bal (chain w) 0 (self w) + msg_value m
  /\ bal (chain w') 0 (msg_sender m)
     = bal (chain w) 0 (msg_sender m) - msg_value m.
Proof.
  intros H Hself i. unfold call in H.
  apply bind_Ok in H as (w0 & Hv & H).
  apply takeValue_bal_v1 in Hv as (c0 & -> & _ & _ & _ & _ & Hbal).
  apply bind_Ok in H as ([i' w1] & H & [= <-]). simpl.
  unfold createEscrow, _generateEscrowId in H. simpl in H.
  destruct (decide (msg_value m < MIN_ESCROW \/ msg_value m > MAX_ESCROW))
    as [|Hrange]; [discriminate|].
  destruct (decide (worker_ = 0 \/ worker_ = msg_sender m))
    as [|Hw]; [discriminate|].
  destruct (decide (d <= block_timestamp m)) as [|Hd]; [discriminate|].
  apply bind_Ok in H as ([i'' w2] & Hg & H).
  apply bind_Ok in Hg as (next & Hn & [= <- <-]).
  injection H as <- <-.
  assert (Hvalue : MIN_ESCROW <= msg_value m <= MAX_ESCROW) by lia.
  assert (Hnamed : worker_ <> 0 /\ worker_ <> msg_sender m) by tauto.
  assert (Hfuture : block_timestamp m < d) by lia.
  destruct Hnamed as [Hnz Hother].
  do 4 (apply conj; [assumption|]).
  split; [apply getEscrow_set_escrow_eq'|].
  split.
  { intros j Hj. rewrite getEscrow_set_escrow'.
    case_decide as Hij; [subst i; congruence|reflexivity]. }
  simpl. rewrite !Hbal.
  split; repeat case_decide; congruence || lia.
Qed.

Lemma erc20_transferFrom_succeeds tok spender from to amt c :
  tok <> 0 ->
  tok ∉ shouldFail c ->
  amt <= allowed c tok from spender ->
  amt <= bal c tok from ->
  bal c tok to - (if decide (to = from) then amt else 0) + amt
    <= MAX_UINT256 ->
  exists c', erc20_transferFrom tok spender from to amt c = Returned true c'.
Proof.
  intros Htok Hsf Hal Hfunds Hroom. unfold erc20_transferFrom.
  destruct (decide (tok = 0)); [contradiction|].
  destruct (decide (tok ∈ shouldFail c)); [contradiction|].
  destruct (checked_sub _ _) as [r|] eqn:Hs.
  2:{ apply checked_sub_None in Hs. lia. }
  match goal with
  | |- context [move ?a ?f ?t ?x ?c1] =>
      destruct (move_possible a f t x c1) as (c2 & Hm)
  end; [exact Hfunds|exact Hroom|].
  rewrite Hm. eauto.
Qed.

(** X22 — [createEscrowERC20] applies no limits.  For any
    nonzero amount, also below [MIN_ESCROW] or above [MAX_ESCROW], a client
    with the allowance and the funds gets the escrow and the contract the
    tokens; a token that returns [false] aborts the creation with
    [TransferFailed], and [address(0)] as token reverts. *)
Theorem create_token_for_worker_has_no_limits worker_ tok amt d crit m w :
  amt <> 0 ->
  worker_ <> 0 ->
  worker_ <> msg_sender m ->
  block_timestamp m < d ->
  (tok = 0 ->
   createEscrowERC20 keccak256 worker_ tok amt d crit m w
   = Revert CalleeReverted)
  /\ (tok <> 0 -> tok ∈ shouldFail (chain w) ->
      createEscrowERC20 keccak256 worker_ tok amt d crit m w
      = Revert TransferFailed)
  /\ (tok <> 0 -> tok ∉ shouldFail (chain w) ->
      amt <= allowed (chain w) tok (msg_sender m) (self w) ->
      amt <= bal (chain w) tok (msg_sender m) ->
      msg_sender m <> self w ->
      bal (chain w) tok (self w) + amt <= MAX_UINT256 ->
      _escrowCounter w < MAX_UINT256 ->
      exists w',
        createEscrowERC20 keccak256 worker_ tok amt d crit m w
        = Ok (keccak256 (block_timestamp m) (msg_sender m) (_escrowCounter w),
              w')
        /\ getEscrow w'
             (keccak256 (block_timestamp m) (msg_sender m) (_escrowCounter w))
           = mkEscrowData (msg_sender m) worker_ (protocolArbiter w) tok amt
               d crit 0 PENDING (block_timestamp m) 0
        /\ bal (chain w') tok (self w) = bal (chain w) tok (self w) + amt).
Proof.
  intros Hamt Hw0 Hw1 Hd. unfold createEscrowERC20.
  destruct (decide (amt = 0)); [contradiction|].
  destruct (decide (worker_ = 0 \/ worker_ = msg_sender m)); [tauto|].
  destruct (decide (d <= block_timestamp m)); [lia|].
  repeat apply conj.
  - intros ->. reflexivity.
  - intros Htok Hsf. unfold erc20_transferFrom.
    destruct (decide (tok = 0)); [contradiction|].
    destruct (decide (tok ∈ shouldFail (chain w)));
      [reflexivity|contradiction].
  - intros Htok Hsf Hal Hfunds Hself Hroom Hcount.
    destruct (erc20_transferFrom_succeeds tok (self w) (msg_sender m) (self w)
                amt (chain w) Htok Hsf Hal Hfunds) as (c' & Hpull).
    { destruct (decide (self w = msg_sender m)); [congruence|lia]. }
    rewrite Hpull. simpl. unfold _generateEscrowId. simpl.
    assert (Hnext : _escrowCounter w + 1 <= MAX_UINT256) by lia.
    rewrite (proj2 (checked_add_Some (_escrowCounter w) 1 _)
               (conj Hnext eq_refl)). simpl.
    eexists. split; [reflexivity|]. split; [apply getEscrow_set_escrow_eq'|].
    simpl.
    apply erc20_transferFrom_true in Hpull as (_ & _ & _ & _ & _ & Hbal & _).
    rewrite Hbal. repeat case_decide; congruence || lia.
Qed.

(** X23 — Every outcome of a [submitDeliverable] transaction.
    Value is refused; then an unknown escrow is [EscrowNotFound], a state
    other than [ACTIVE] is [InvalidState], a caller other than the worker is
    [NotAuthorized]: existence and state are checked before the caller.
    Otherwise the evidence and the time are recorded and the escrow is
    [SUBMITTED], whatever the deadline. *)
Theorem submitDeliverable_outcomes i ev m w :
  let e := getEscrow w i in
  (msg_value m <> 0 ->
   call keccak256 (SubmitDeliverable i ev) m w = Revert ValueRejected)
  /\ (msg_value m = 0 -> client e = 0 ->
      call keccak256 (SubmitDeliverable i ev) m w = Revert EscrowNotFound)
  /\ (msg_value m = 0 -> client e <> 0 -> state e <> ACTIVE ->
      call keccak256 (SubmitDeliverable i ev) m w = Revert InvalidState)
  /\ (msg_value m = 0 -> client e <> 0 -> state e = ACTIVE ->
      msg_sender m <> worker e ->
      call keccak256 (SubmitDeliverable i ev) m w = Revert NotAuthorized)
  /\ (msg_value m = 0 -> client e <> 0 -> state e = ACTIVE ->
      msg_sender m = worker e ->
      call keccak256 (SubmitDeliverable i ev) m w
      = Ok (set_escrow i (delivered ev (block_timestamp m) e) w)).
Proof.
  intros e. subst e.
  unfold call, takeValue, submitDeliverable, escrowExists, inState.
  simpl payable.
  repeat apply conj; intros; repeat (case_decide; simpl; try congruence).
Qed.

(** The anatomy of a payment of the whole amount: [releasePayment] and
    [claimExpiredEscrow] to the worker, [cancelEscrow] to the client. *)
Lemma pays_in_full i s to w w' :
  _transferFunds (token (getEscrow w i)) to (amount (getEscrow w i))
    (set_escrow i (with_state s (getEscrow w i)) w) = Ok w' ->
  let e := getEscrow w i in
  getEscrow w' i = with_state s e
  /\ moved (chain w') =
       moved (chain w) ++ [mkTransfer (token e) (self w) to (amount e)]
  /\ (forall a x,
        bal (chain w') a x =
          bal (chain w) a x
          - (if decide ((a, x) = (token e, self w)) then amount e else 0)
          + (if decide ((a, x) = (token e, to)) then amount e else 0)).
Proof.
  intros H e. fold e in H.
  pose proof (transferFunds_bal _ _ _ _ _ H) as Hb.
  apply transferFunds_Ok in H as (c' & -> & _ & _ & Hmv).
  split; [apply getEscrow_set_escrow_eq'|]. split; [exact Hmv|exact Hb].
Qed.

(** X24 — [releasePayment] pays the worker the whole amount.  A
    successful call was made by the client on an existing [SUBMITTED]
    escrow; it marks the escrow [RESOLVED] and makes one movement, of the
    full amount, from the contract to the worker: no fee is taken. *)
Theorem releasePayment_pays_in_full i m w w' :
  releasePayment i m w = Ok w' ->
  let e := getEscrow w i in
  client e <> 0
  /\ state e = SUBMITTED
  /\ msg_sender m = client e
  /\ getEscrow w' i = with_state RESOLVED e
  /\ moved (chain w') =
       moved (chain w) ++ [mkTransfer (token e) (self w) (worker e) (amount e)]
  /\ (forall x,
        bal (chain w') (token e) x =
          bal (chain w) (token e) x
          - (if decide (x = self w) then amount e else 0)
          + (if decide (x = worker e) then amount e else 0)).
Proof.
  intros H e. unfold releasePayment in H. fold e in H.
  apply bind_Ok in H as ([] & Hex & H). apply escrowExists_Ok in Hex.
  apply bind_Ok in H as ([] & Hst & H). apply inState_Ok' in Hst.
  destruct (decide (msg_sender m ≠ client e)) as [|Hcl]; [discriminate|].
  apply dec_stable in Hcl.
  apply pays_in_full in H as (Hrec & Hmv & Hb).
  repeat apply conj; try assumption.
  intros x. rewrite Hb. fold e. repeat case_decide; congruence || lia.
Qed.

(** X25 — The client can cancel a pending escrow at any time.  As
    long as the escrow is [PENDING], the contract holds its amount and the
    client can receive it, [cancelEscrow] succeeds for the client at every
    timestamp, marks the escrow [CANCELLED] and refunds the full amount in
    one movement. *)
Theorem cancel_refunds_at_any_time i w :
  let e := getEscrow w i in
  let c := chain w in
  client e <> 0 ->
  state e = PENDING ->
  honours c (token e) ->
  amount e <= bal c (token e) (self w) ->
  bal c (token e) (client e) + amount e <= MAX_UINT256 ->
  client e <> self w ->
  (token e = 0 -> client e ∉ rejecting c) ->
  forall m,
    msg_sender m = client e ->
    exists w',
      cancelEscrow i m w = Ok w'
      /\ getEscrow w' i = with_state CANCELLED e
      /\ moved (chain w') =
           moved c ++ [mkTransfer (token e) (self w) (client e) (amount e)]
      /\ bal (chain w') (token e) (client e)
         = bal c (token e) (client e) + amount e.
Proof.
  intros e c Hex Hst Hh Hfunds Hroom Hself Htakes m Hcl.
  unfold cancelEscrow, escrowExists, inState. fold e.
  destruct (decide (client e = 0)); [contradiction|].
  destruct (decide (state e ≠ PENDING)); [contradiction|]. simpl.
  destruct (decide (msg_sender m ≠ client e)); [contradiction|].
  destruct (transferFunds_succeeds (token e) (client e) (amount e)
              (set_escrow i (with_state CANCELLED e) w)) as (w' & Hw');
    simpl; fold c; try assumption.
  { destruct (decide (client e = self w)); [contradiction|lia]. }
  exists w'. split; [exact Hw'|].
  apply pays_in_full in Hw' as (Hrec & Hmv & Hb). fold e c in Hrec, Hmv, Hb.
  split; [exact Hrec|]. split; [exact Hmv|].
  rewrite Hb. repeat case_decide; congruence || lia.
Qed.

End EscrowCustody.

(** * Escrow.sol: ownership, the arbiter and existence *)

Section EscrowForever.

Import Escrow.

Variable keccak256 : Z -> address -> Z -> bytes32.

Lemma onlyOwner_Ok m w u : onlyOwner m w = Ok u <-> msg_sender m = owner w.
Proof.
  unfold onlyOwner. destruct u. case_decide; split; intros; try done;
    match goal with H : ¬ ¬ _ |- _ => apply dec_stable in H end; done.
Qed.

Ltac inv_record_v1 :=
  repeat match goal with
  | H : bind _ _ = Ok _ |- _ => apply bind_Ok in H as (? & ? & H)
  | H : Revert _ = Ok _ |- _ => discriminate H
  | H : Ok _ = Ok _ |- _ => injection H as H
  | H : (_, _) = (_, _) |- _ => injection H as ? ?
  | H : (if decide ?P then _ else _) = Ok _ |- _ => destruct (decide P)
  | H : (let '(_, _) := ?r in _) = Ok _ |- _ => destruct r
  | H : _transferFunds _ _ _ _ = Ok _ |- _ =>
      apply transferFunds_Ok in H as (? & H & _)
  | H : takeValue _ _ _ = Ok _ |- _ => apply takeValue_Ok_v1 in H as (? & H)
  | H : match ?x with Returned _ _ => _ | Reverted => _ end = Ok _ |- _ =>
      destruct x as [[|] ?|]
  | H : arith _ = Ok _ |- _ => apply arith_Ok' in H
  | H : inState _ _ _ = Ok _ |- _ => apply inState_Ok' in H
  | H : escrowExists _ _ = Ok _ |- _ => apply escrowExists_Ok in H
  | H : onlyArbiter _ _ = Ok _ |- _ => apply onlyArbiter_Ok in H
  | H : onlyOwner _ _ = Ok _ |- _ => apply onlyOwner_Ok in H
  end; subst.

(** Every way one transaction can rewrite the record of an escrow. *)
Lemma call_record_v1 c m w w' j :
  call keccak256 c m w = Ok w' ->
  let e := getEscrow w j in
  (getEscrow w' j = e /\ creates keccak256 c m w <> Some j)
  \/ (creates keccak256 c m w = Some j
      /\ client (getEscrow w' j) = msg_sender m
      /\ state (getEscrow w' j) = PENDING)
  \/ (client e <> 0
      /\ exists s, advances (state e) s /\ getEscrow w' j = with_state s e)
  \/ (client e <> 0 /\ state e = ACTIVE
      /\ exists ev, getEscrow w' j = delivered ev (block_timestamp m) e).
Proof.
  intros H e. subst e. unfold call in H.
  apply bind_Ok in H as (w0 & Hv & H).
  apply takeValue_Ok_v1 in Hv as (c0 & ->).
  destruct c;
    unfold createEscrow, createEscrowERC20, _generateEscrowId, acceptEscrow,
      submitDeliverable, releasePayment, dispute, resolveDispute, cancelEscrow,
      claimExpiredEscrow, setProtocolArbiter, transferOwnership in H;
    inv_record_v1; simpl;
    rewrite ?getEscrow_set_chain' in *;
    try (left; split; [reflexivity|discriminate]);
    (rewrite getEscrow_set_escrow'; case_decide as Hj;
     [subst|left; split; [reflexivity|try discriminate; congruence]]).
  all: simpl in *; rewrite ?getEscrow_set_chain' in *.
  all: first
    [ solve [right; left; repeat split; reflexivity]
    | solve [do 2 right; left; split; [assumption|];
             eexists; split; [|reflexivity];
             match goal with H : state _ = _ |- _ => rewrite H end;
             constructor]
    | solve [do 3 right; repeat split; eauto] ].
Qed.

Lemma call_admin c m w w' :
  call keccak256 c m w = Ok w' ->
  (owner w' = owner w /\ protocolArbiter w' = protocolArbiter w)
  \/ (msg_sender m = owner w
      /\ ((exists a, c = TransferOwnership a /\ owner w' = a
                     /\ protocolArbiter w' = protocolArbiter w)
          \/ (exists a, c = SetProtocolArbiter a /\ protocolArbiter w' = a
                        /\ owner w' = owner w))).
Proof.
  intros H. unfold call in H.
  apply bind_Ok in H as (w0 & Hv & H).
  apply takeValue_Ok_v1 in Hv as (c0 & ->).
  destruct c;
    unfold createEscrow, createEscrowERC20, _generateEscrowId, acceptEscrow,
      submitDeliverable, releasePayment, dispute, resolveDispute, cancelEscrow,
      claimExpiredEscrow, setProtocolArbiter, transferOwnership in H;
    inv_record_v1; simpl in *;
    try (left; split; reflexivity).
  - right. split; [assumption|]. right. eauto.
  - right. split; [assumption|]. left. eauto.
Qed.

Lemma call_self_v1 c m w w' :
  call keccak256 c m w = Ok w' -> self w' = self w.
Proof.
  intros H. unfold call in H.
  apply bind_Ok in H as (w0 & Hv & H).
  apply takeValue_Ok_v1 in Hv as (c0 & ->).
  destruct c;
    unfold createEscrow, createEscrowERC20, _generateEscrowId, acceptEscrow,
      submitDeliverable, releasePayment, dispute, resolveDispute, cancelEscrow,
      claimExpiredEscrow, setProtocolArbiter, transferOwnership in H;
    inv_record_v1; reflexivity.
Qed.

(** X26 — Ownership changes hands in one call.  After the owner's
    [transferOwnership], which checks nothing about the new owner and
    touches nothing else, the new owner administers the contract and every
    other caller, the previous owner included, gets [NotAuthorized]. *)
Theorem ownership_handover_is_immediate a m w :
  msg_sender m = owner w ->
  msg_value m = 0 ->
  let w1 := exec keccak256 (TransferOwnership a) m w in
  owner w1 = a
  /\ protocolArbiter w1 = protocolArbiter w
  /\ escrows w1 = escrows w
  /\ chain w1 = chain w
  /\ (forall b m', msg_sender m' = a ->
        setProtocolArbiter b m' w1 = Ok (set_protocolArbiter b w1))
  /\ (forall b m', msg_sender m' <> a ->
        setProtocolArbiter b m' w1 = Revert NotAuthorized
        /\ transferOwnership b m' w1 = Revert NotAuthorized).
Proof.
  intros Ho Hv w1.
  assert (Hw1 : w1 = set_owner a w).
  { subst w1. unfold exec, call, takeValue, transferOwnership, onlyOwner.
    destruct (decide (msg_value m = 0)); [|contradiction]. simpl.
    destruct (decide (msg_sender m ≠ owner w)); [contradiction|].
    reflexivity. }
  rewrite Hw1. simpl. repeat apply conj; try reflexivity.
  - intros b m' Hm. unfold setProtocolArbiter, onlyOwner. simpl.
    destruct (decide (msg_sender m' ≠ a)); [contradiction|reflexivity].
  - intros b m' Hm. unfold setProtocolArbiter, transferOwnership, onlyOwner.
    simpl. destruct (decide (msg_sender m' ≠ a)); [|contradiction].
    split; reflexivity.
Qed.

(** X27 — Nobody but the owner changes the owner or the protocol
    arbiter: through every sequence of transactions in which the owner is
    never the caller, both stay what they are. *)
Theorem administration_is_the_owners calls : forall w,
  Forall (fun cm => msg_sender (snd cm) <> owner w) calls ->
  Forall (fun w' => owner w' = owner w
                    /\ protocolArbiter w' = protocolArbiter w)
    (run keccak256 calls w).
Proof.
  induction calls as [|[c m] rest IH]; intros w Hnot; simpl; [constructor|].
  apply Forall_cons in Hnot as [Hm Hnot]. simpl in Hm.
  assert (Hsame : owner (exec keccak256 c m w) = owner w
                  /\ protocolArbiter (exec keccak256 c m w)
                     = protocolArbiter w).
  { unfold exec. destruct (call keccak256 c m w) as [w'|err] eqn:Hc;
      [|split; reflexivity].
    destruct (call_admin c m w w' Hc) as [H|[H _]];
      [exact H|contradiction]. }
  destruct Hsame as [Ho Ha].
  constructor; [split; assumption|].
  rewrite <- Ho, <- Ha. apply IH. rewrite Ho. exact Hnot.
Qed.

(** X28 — The arbiter's fee goes to the arbiter recorded at
    creation.  After the owner has replaced the protocol arbiter, only the
    new one can resolve a dispute, and the first payout of its resolution,
    the 5% fee, goes to the arbiter stored in the escrow's record. *)
Theorem resolution_fee_goes_to_recorded_arbiter i pct a mo m w w' :
  msg_sender mo = owner w ->
  msg_value mo = 0 ->
  0 <= pct ->
  0 <= amount (getEscrow w i) ->
  let w1 := exec keccak256 (SetProtocolArbiter a) mo w in
  resolveDispute i pct m w1 = Ok w' ->
  let e := getEscrow w i in
  msg_sender m = a
  /\ (exists rest,
        moved (chain w') =
          moved (chain w)
          ++ payout (token e) (self w) (arbiter e)
               (amount e * ARBITER_FEE_BPS / BPS_DENOMINATOR)
          ++ rest)
  /\ (protocolArbiter w <> a ->
      forall m', msg_sender m' = protocolArbiter w ->
                 resolveDispute i pct m' w1 = Revert NotAuthorized).
Proof.
  intros Ho Hv Hpct Hamt w1.
  assert (Hw1 : w1 = set_protocolArbiter a w).
  { subst w1. unfold exec, call, takeValue.
    destruct (decide (msg_value mo = 0)); [|contradiction]. simpl.
    rewrite (setProtocolArbiter_Ok a mo w Ho). reflexivity. }
  rewrite Hw1. intros H e.
  apply resolveDispute_Ok in H
    as (fee & wa & ca & Harb & _ & _ & _ & Hfee & _ & _ & _ & _ & Hmv);
    [|exact Hpct|exact Hamt].
  change (getEscrow (set_protocolArbiter a w) i) with e in *.
  simpl in Harb, Hmv. subst fee.
  split; [exact Harb|]. split; [eexists; exact Hmv|].
  intros Hne m' Hm'. unfold resolveDispute, onlyArbiter. simpl.
  destruct (decide (msg_sender m' ≠ a)) as [|Heq]; [reflexivity|].
  apply dec_stable in Heq. congruence.
Qed.

(** X29 — [escrowExistsCheck].  An identifier never written
    does not exist; the identifier a successful creation by a nonzero caller
    made does; and an escrow that exists keeps existing through every
    sequence of transactions: no function deletes a record or clears its
    client. *)
Theorem existence_is_permanent i :
  (forall w, escrows w !! i = None -> escrowExistsCheck w i = false)
  /\ (forall c m w w',
        call keccak256 c m w = Ok w' ->
        creates keccak256 c m w = Some i ->
        msg_sender m <> 0 ->
        escrowExistsCheck w' i = true)
  /\ (forall calls w,
        escrowExistsCheck w i = true ->
        Forall (fun cm => msg_sender (snd cm) <> 0) calls ->
        Forall (fun w' => escrowExistsCheck w' i = true)
          (run keccak256 calls w)).
Proof.
  assert (Hstep : forall c m w w',
             call keccak256 c m w = Ok w' ->
             msg_sender m <> 0 ->
             escrowExistsCheck w i = true
             \/ creates keccak256 c m w = Some i ->
             escrowExistsCheck w' i = true).
  { intros c m w w' Hc Hm Hor. unfold escrowExistsCheck in *.
    apply bool_decide_eq_true.
    destruct (call_record_v1 c m w w' i Hc)
      as [[H Hn]|[(_ & H & _)|[(Hex & s & _ & H)|(Hex & _ & ev & H)]]].
    - rewrite H. destruct Hor as [Hor|Hor]; [|contradiction].
      apply bool_decide_eq_true in Hor. exact Hor.
    - rewrite H. exact Hm.
    - rewrite H. exact Hex.
    - rewrite H. exact Hex. }
  repeat apply conj.
  - intros w Hnone. unfold escrowExistsCheck, getEscrow. rewrite Hnone.
    reflexivity.
  - intros c m w w' Hc Hcr Hm. eapply Hstep; eauto.
  - induction calls as [|[c m] rest IH]; intros w Hex Hall; simpl;
      [constructor|].
    apply Forall_cons in Hall as [Hm Hall]. simpl in Hm.
    assert (Hex1 : escrowExistsCheck (exec keccak256 c m w) i = true).
    { unfold exec. destruct (call keccak256 c m w) as [w'|err] eqn:Hc;
        [|exact Hex]. eapply Hstep; eauto. }
    constructor; [exact Hex1|]. apply IH; assumption.
Qed.

End EscrowForever.

(** * Escrow.sol: the contract holds what it owes *)

Section EscrowSolvency.

Import Escrow.

Variable keccak256 : Z -> address -> Z -> bytes32.

Lemma held_zeroEscrow a : held a zeroEscrow = 0.
Proof. unfold held, zeroEscrow. simpl. case_decide; reflexivity. Qed.

Lemma held_nonneg a e : 0 <= amount e -> 0 <= held a e.
Proof. unfold held. intros. case_decide; [destruct (holdsFunds _)|]; lia. Qed.

Lemma held_with_state a s e :
  holdsFunds s = holdsFunds (state e) -> held a (with_state s e) = held a e.
Proof. unfold held. simpl. intros ->. reflexivity. Qed.

Lemma held_settled a s e :
  holdsFunds s = false -> held a (with_state s e) = 0.
Proof. unfold held. simpl. intros ->. case_decide; reflexivity. Qed.

(** Rewriting one record changes what is owed by the difference of what
    the old and the new record hold. *)
Lemma owed_set_escrow i e' w a :
  owed (set_escrow i e' w) a = owed w a - held a (getEscrow w i) + held a e'.
Proof.
  unfold owed, getEscrow. simpl.
  destruct (escrows w !! i) as [e0|] eqn:Hi; simpl.
  - rewrite <- (insert_delete_eq (escrows w)).
    rewrite map_fold_insert_L; [|intros; lia|apply lookup_delete_eq].
    rewrite (map_fold_delete_L _ _ i e0 (escrows w));
      [lia|intros; lia|exact Hi].
  - rewrite map_fold_insert_L; [|intros; lia|exact Hi].
    rewrite held_zeroEscrow. lia.
Qed.

Lemma amount_nonneg w i :
  map_Forall (fun _ e => 0 <= amount e) (escrows w) ->
  0 <= amount (getEscrow w i).
Proof.
  intros Hall. unfold getEscrow.
  destruct (escrows w !! i) as [e|] eqn:Hi; simpl; [|reflexivity].
  exact (Hall i e Hi).
Qed.

(** One record rewritten and the balances moved accordingly. *)
Lemma solvent_step i e' c' n w :
  solvent w ->
  0 <= amount e' ->
  (forall a,
      bal (chain w) a (self w) - held a (getEscrow w i) + held a e'
      <= bal c' a (self w)) ->
  solvent (set_chain c' (set_counter n (set_escrow i e' w))).
Proof.
  intros [Hnn Hs] He' Hb. split.
  - simpl. apply map_Forall_insert_2; assumption.
  - intros a. simpl.
    change (owed (set_chain c' (set_counter n (set_escrow i e' w))) a)
      with (owed (set_escrow i e' w) a).
    rewrite owed_set_escrow. specialize (Hs a). specialize (Hb a). lia.
Qed.

(** A guarded payout takes at most its amount from the contract. *)
Lemma guarded_transferFunds_bal tok to amt w w' :
  0 <= amt ->
  (if decide (amt > 0) then _transferFunds tok to amt w else Ok w) = Ok w' ->
  exists c',
    w' = set_chain c' w
    /\ forall a,
         bal (chain w) a (self w) - (if decide (a = tok) then amt else 0)
         <= bal c' a (self w).
Proof.
  intros Hnn H. destruct (decide (amt > 0)).
  - pose proof (transferFunds_bal _ _ _ _ _ H) as Hb.
    apply transferFunds_Ok in H as (c' & -> & _). exists c'.
    split; [reflexivity|]. intros a. specialize (Hb a (self w)). simpl in Hb.
    rewrite Hb. repeat case_decide; try congruence; lia.
  - injection H as <-. exists (chain w). split; [destruct w; reflexivity|].
    intros a. case_decide; lia.
Qed.

Lemma held_delivered a ev now e :
  state e = ACTIVE -> held a (delivered ev now e) = held a e.
Proof. unfold held. simpl. intros ->. reflexivity. Qed.

(** A record that moves between two states that both hold the funds. *)
Lemma solvent_same_funds i e' w :
  solvent w ->
  amount e' = amount (getEscrow w i) ->
  (forall a, held a e' = held a (getEscrow w i)) ->
  solvent (set_escrow i e' w).
Proof.
  intros Hsol Ha Hh.
  apply (solvent_step i e' (chain w) (_escrowCounter w) w Hsol).
  - rewrite Ha. apply amount_nonneg, Hsol.
  - intros a. rewrite Hh. lia.
Qed.

(** A record settled by paying its whole amount out. *)
Lemma solvent_paid_out i s to w w' :
  solvent w ->
  holdsFunds s = false ->
  holdsFunds (state (getEscrow w i)) = true ->
  _transferFunds (token (getEscrow w i)) to (amount (getEscrow w i))
    (set_escrow i (with_state s (getEscrow w i)) w) = Ok w' ->
  solvent w'.
Proof.
  intros Hsol Hs Hopen H.
  pose proof (amount_nonneg w i (proj1 Hsol)) as Hnn.
  pose proof (transferFunds_bal _ _ _ _ _ H) as Hb.
  apply transferFunds_Ok in H as (c' & -> & _).
  apply (solvent_step i (with_state s (getEscrow w i)) c' (_escrowCounter w) w
           Hsol).
  - exact Hnn.
  - intros a. rewrite (held_settled a s _ Hs).
    specialize (Hb a (self w)). simpl in Hb. rewrite Hb.
    unfold held. rewrite Hopen.
    repeat case_decide; try congruence; lia.
Qed.

(** No transaction makes the contract owe more than it holds. *)
Lemma solvency_is_preserved c m w w' :
  solvent w ->
  delivered_by_evm (self w) (c, m) ->
  call keccak256 c m w = Ok w' ->
  solvent w'.
Proof.
  intros Hsol (Hself & Hval & Hargs) H. simpl in Hself, Hval, Hargs.
  pose proof Hsol as [Hnn Hs].
  unfold call in H.
  apply bind_Ok in H as (w0 & Hv & H).
  destruct c; simpl payable in Hv.
  2-11: (unfold takeValue in Hv;
         destruct (decide (msg_value m = 0)); [|discriminate Hv];
         injection Hv as <-).
  - (* createEscrow *)
    apply takeValue_bal_v1 in Hv as (c0 & -> & _ & _ & _ & _ & Hb0).
    apply bind_Ok in H as ([i w1] & H & [= <-]). simpl.
    unfold createEscrow, _generateEscrowId in H. simpl in H.
    destruct (decide (msg_value m < MIN_ESCROW \/ msg_value m > MAX_ESCROW))
      as [|Hr]; [discriminate|].
    destruct (decide (worker_ = 0 \/ worker_ = msg_sender m)); [discriminate|].
    destruct (decide (deadline_ <= block_timestamp m)); [discriminate|].
    apply bind_Ok in H as ([i' w2] & Hg & H).
    apply bind_Ok in Hg as (next & Hn & [= <- <-]).
    injection H as <- <-.
    match goal with
    | |- solvent (set_escrow ?i ?e _) =>
        apply (solvent_step i e c0 next w Hsol);
          [simpl; lia|];
          intros a; rewrite Hb0;
          pose proof (held_nonneg a (getEscrow w i) (amount_nonneg w i Hnn));
          unfold held at 2; simpl
    end.
    repeat case_decide; try congruence; lia.
  - (* createEscrowERC20 *)
    apply bind_Ok in H as ([i w1] & H & [= <-]). simpl.
    unfold createEscrowERC20, _generateEscrowId in H.
    destruct (decide (amt = 0)); [discriminate|].
    destruct (decide (worker_ = 0 \/ worker_ = msg_sender m)); [discriminate|].
    destruct (decide (deadline_ <= block_timestamp m)); [discriminate|].
    apply bind_Ok in H as (w0 & Hpull & H).
    destruct (erc20_transferFrom tok (self w) (msg_sender m) (self w) amt
                (chain w)) as [[|] c0|] eqn:Hp; try discriminate.
    injection Hpull as <-.
    apply erc20_transferFrom_true in Hp as (_ & _ & _ & _ & _ & Hb0 & _).
    apply bind_Ok in H as ([i' w2] & Hg & H).
    apply bind_Ok in Hg as (next & Hn & [= <- <-]).
    injection H as <- <-.
    match goal with
    | |- solvent (set_escrow ?i ?e _) =>
        apply (solvent_step i e c0 next w Hsol);
          [simpl; lia|];
          intros a; rewrite Hb0;
          pose proof (held_nonneg a (getEscrow w i) (amount_nonneg w i Hnn));
          unfold held at 2; simpl
    end.
    repeat case_decide; try congruence; lia.
  - (* acceptEscrow *)
    unfold acceptEscrow in H.
    apply bind_Ok in H as ([] & _ & H).
    apply bind_Ok in H as ([] & Hst & H). apply inState_Ok' in Hst.
    repeat (destruct (decide _); [discriminate|]). injection H as <-.
    apply solvent_same_funds; [exact Hsol|reflexivity|].
    intros a. apply held_with_state. rewrite Hst. reflexivity.
  - (* submitDeliverable *)
    unfold submitDeliverable in H.
    apply bind_Ok in H as ([] & _ & H).
    apply bind_Ok in H as ([] & Hst & H). apply inState_Ok' in Hst.
    repeat (destruct (decide _); [discriminate|]). injection H as <-.
    apply solvent_same_funds; [exact Hsol|reflexivity|].
    intros a. apply held_delivered. exact Hst.
  - (* releasePayment *)
    unfold releasePayment in H.
    apply bind_Ok in H as ([] & _ & H).
    apply bind_Ok in H as ([] & Hst & H). apply inState_Ok' in Hst.
    destruct (decide _); [discriminate|].
    apply (solvent_paid_out _ _ _ _ _ Hsol) in H;
      [exact H|reflexivity|rewrite Hst; reflexivity].
  - (* dispute *)
    unfold dispute in H.
    apply bind_Ok in H as ([] & _ & H).
    apply bind_Ok in H as ([] & Hst & H). apply inState_Ok' in Hst.
    destruct (decide _); [discriminate|].
    apply bind_Ok in H as (closes & _ & H).
    destruct (decide _); [discriminate|]. injection H as <-.
    apply solvent_same_funds; [exact Hsol|reflexivity|].
    intros a. apply held_with_state. rewrite Hst. reflexivity.
  - (* resolveDispute *)
    unfold resolveDispute in H.
    apply bind_Ok in H as ([] & _ & H).
    apply bind_Ok in H as ([] & _ & H).
    apply bind_Ok in H as ([] & Hst & H). apply inState_Ok' in Hst.
    destruct (decide (workerPct > 100)) as [|Hle]; [discriminate|].
    set (rec := getEscrow w escrowId) in *.
    pose proof (amount_nonneg w escrowId Hnn) as Hamt. fold rec in Hamt.
    apply bind_Ok in H as (product & Hp & H).
    apply arith_Ok', checked_mul_Some in Hp as [_ ->].
    apply bind_Ok in H as (remaining & Hrem & H).
    apply arith_Ok', checked_sub_Some in Hrem as [Hfle ->].
    apply bind_Ok in H as (scaled & Hsc & H).
    apply arith_Ok', checked_mul_Some in Hsc as [_ ->].
    apply bind_Ok in H as (clientAmount & Hca & H).
    apply arith_Ok', checked_sub_Some in Hca as [Hwle ->].
    apply bind_Ok in H as (w2 & H2 & H).
    apply bind_Ok in H as (w3 & H3 & H).
    set (arbiterFee := amount rec * ARBITER_FEE_BPS / BPS_DENOMINATOR) in *.
    set (workerAmount := (amount rec - arbiterFee) * workerPct / 100) in *.
    assert (Hf0 : 0 <= arbiterFee).
    { subst arbiterFee. apply Z.div_pos;
        unfold ARBITER_FEE_BPS, BPS_DENOMINATOR; lia. }
    assert (Hw0 : 0 <= workerAmount).
    { apply Z.div_pos; [|lia]. apply Z.mul_nonneg_nonneg; lia. }
    apply guarded_transferFunds_bal in H2 as (c2 & -> & Hb2); [|exact Hf0].
    apply guarded_transferFunds_bal in H3 as (c3 & -> & Hb3); [|exact Hw0].
    apply guarded_transferFunds_bal in H as (c4 & -> & Hb4); [|lia].
    simpl in Hb2, Hb3, Hb4.
    apply (solvent_step escrowId (with_state RESOLVED rec) c4 (_escrowCounter w)
             w Hsol).
    + exact Hamt.
    + intros a. rewrite (held_settled a RESOLVED rec eq_refl).
      specialize (Hb2 a). specialize (Hb3 a). specialize (Hb4 a).
      fold rec. unfold held. rewrite Hst. simpl.
      repeat case_decide; try congruence; lia.
  - (* cancelEscrow *)
    unfold cancelEscrow in H.
    apply bind_Ok in H as ([] & _ & H).
    apply bind_Ok in H as ([] & Hst & H). apply inState_Ok' in Hst.
    destruct (decide _); [discriminate|].
    apply (solvent_paid_out _ _ _ _ _ Hsol) in H;
      [exact H|reflexivity|rewrite Hst; reflexivity].
  - (* claimExpiredEscrow *)
    unfold claimExpiredEscrow in H.
    apply bind_Ok in H as ([] & _ & H).
    apply bind_Ok in H as ([] & Hst & H). apply inState_Ok' in Hst.
    destruct (decide _); [discriminate|].
    apply bind_Ok in H as (closes & _ & H).
    destruct (decide _); [discriminate|].
    apply (solvent_paid_out _ _ _ _ _ Hsol) in H;
      [exact H|reflexivity|rewrite Hst; reflexivity].
  - (* setProtocolArbiter *)
    unfold setProtocolArbiter in H.
    apply bind_Ok in H as ([] & _ & [= <-]). exact Hsol.
  - (* transferOwnership *)
    unfold transferOwnership in H.
    apply bind_Ok in H as ([] & _ & [= <-]). exact Hsol.
Qed.

(** X30 — [Escrow] holds what it owes.  If, in every asset, the
    contract's balance covers the amounts of the escrows that are neither
    resolved nor cancelled, it still does after every sequence of
    transactions: creation takes in exactly what the record says, each
    payout releases an escrow and moves no more than its amount. *)
Theorem escrow_contract_stays_solvent calls : forall w,
  solvent w ->
  Forall (delivered_by_evm (self w)) calls ->
  Forall solvent (run keccak256 calls w).
Proof.
  induction calls as [|[c m] rest IH]; intros w Hsol Hall; simpl;
    [constructor|].
  apply Forall_cons in Hall as [Hcm Hall].
  assert (H1 : solvent (exec keccak256 c m w)
               /\ self (exec keccak256 c m w) = self w).
  { unfold exec. destruct (call keccak256 c m w) as [w'|err] eqn:Hc;
      [|split; [exact Hsol|reflexivity]].
    split; [exact (solvency_is_preserved c m w w' Hsol Hcm Hc)|].
    exact (call_self_v1 keccak256 c m w w' Hc). }
  destruct H1 as [Hsol1 Hself1].
  constructor; [exact Hsol1|].
  apply IH; [exact Hsol1|]. rewrite Hself1. exact Hall.
Qed.

End EscrowSolvency.

Section EscrowWitnesses.

Import Scenario.

Lemma create_for_worker_takes_custody_witness :
  Escrow.call packed (Escrow.CreateEscrow worker (1 + day) criteria)
    (mkMsg client (10 ^ 18) 1) v1_deployed = Ok v1_created
  /\ client <> Escrow.self v1_deployed
  /\ bal (Escrow.chain v1_created) 0 escrowContract = 10 ^ 18.
Proof.
  assert (H : Escrow.call packed (Escrow.CreateEscrow worker (1 + day) criteria)
                (mkMsg client (10 ^ 18) 1) v1_deployed = Ok v1_created)
    by (vm_compute; reflexivity).
  assert (Hs : client <> Escrow.self v1_deployed) by (vm_compute; discriminate).
  split; [exact H|]. split; [exact Hs|].
  destruct (create_for_worker_takes_custody packed _ _ _ _ _ _ H Hs)
    as (_ & _ & _ & _ & _ & _ & Hb & _).
  simpl in Hb. rewrite Hb. vm_compute. reflexivity.
Defined.

Lemma create_token_for_worker_has_no_limits_witness :
  5 <> 0
  /\ worker <> 0
  /\ 5 < Escrow.MIN_ESCROW
  /\ exists w',
       Escrow.createEscrowERC20 packed worker usdc 5 (1 + day) criteria
         (mkMsg client 0 1) v1_deployed
       = Ok (packed 1 client 0, w')
       /\ bal (Escrow.chain w') usdc escrowContract = 5.
Proof.
  assert (H0 : 5 <> 0) by discriminate.
  assert (H1 : worker <> 0) by (vm_compute; discriminate).
  split; [exact H0|]. split; [exact H1|]. split; [reflexivity|].
  destruct (proj2 (proj2 (create_token_for_worker_has_no_limits packed worker
                            usdc 5 (1 + day) criteria (mkMsg client 0 1)
                            v1_deployed H0 H1
                            ltac:(vm_compute; discriminate)
                            ltac:(vm_compute; reflexivity))))
    as (w' & Hc & _ & Hb).
  - vm_compute. discriminate.
  - decided.
  - vm_compute. discriminate.
  - vm_compute. discriminate.
  - vm_compute. discriminate.
  - vm_compute. discriminate.
  - vm_compute. reflexivity.
  - exists w'. split; [exact Hc|]. simpl in Hb. rewrite Hb.
    vm_compute. reflexivity.
Defined.

Lemma submitDeliverable_outcomes_witness :
  Escrow.call packed (Escrow.SubmitDeliverable v1_id evidence)
    (mkMsg worker 0 (2 + day)) v1_accepted
  = Ok (Escrow.set_escrow v1_id
          (Escrow.delivered evidence (2 + day)
             (Escrow.getEscrow v1_accepted v1_id))
          v1_accepted)
  /\ Escrow.call packed (Escrow.SubmitDeliverable unknown_id evidence)
       (mkMsg worker 0 3) v1_accepted
     = Revert Escrow.EscrowNotFound.
Proof.
  split.
  - apply (proj2 (proj2 (proj2 (proj2
             (submitDeliverable_outcomes packed v1_id evidence
                (mkMsg worker 0 (2 + day)) v1_accepted)))));
      vm_compute; first [reflexivity|discriminate].
  - apply (proj1 (proj2 (submitDeliverable_outcomes packed unknown_id evidence
                           (mkMsg worker 0 3) v1_accepted)));
      vm_compute; reflexivity.
Defined.

Lemma releasePayment_pays_in_full_witness :
  exists w',
    Escrow.releasePayment v1_id (mkMsg client 0 4) v1_submitted = Ok w'
    /\ moved (Escrow.chain w')
       = moved (Escrow.chain v1_submitted)
         ++ [mkTransfer 0 escrowContract worker (10 ^ 18)].
Proof.
  destruct (Escrow.releasePayment v1_id (mkMsg client 0 4) v1_submitted)
    as [w'|err] eqn:H; [|vm_compute in H; discriminate H].
  exists w'. split; [reflexivity|].
  destruct (releasePayment_pays_in_full _ _ _ _ H)
    as (_ & _ & _ & _ & Hmv & _).
  rewrite Hmv. vm_compute. reflexivity.
Defined.

Lemma cancel_refunds_at_any_time_witness :
  Escrow.state (Escrow.getEscrow v1_created v1_id) = Escrow.PENDING
  /\ exists w',
       Escrow.cancelEscrow v1_id (mkMsg client 0 (10 ^ 12)) v1_created = Ok w'
       /\ bal (Escrow.chain w') 0 client = 100 * 10 ^ 18.
Proof.
  assert (Hs : Escrow.state (Escrow.getEscrow v1_created v1_id)
               = Escrow.PENDING) by (vm_compute; reflexivity).
  split; [exact Hs|].
  destruct (cancel_refunds_at_any_time v1_id v1_created)
    with (m := mkMsg client 0 (10 ^ 12)) as (w' & Hc & _ & _ & Hb).
  - vm_compute. discriminate.
  - exact Hs.
  - left. vm_compute. reflexivity.
  - vm_compute. discriminate.
  - vm_compute. discriminate.
  - vm_compute. discriminate.
  - intros _. decided.
  - vm_compute. reflexivity.
  - exists w'. split; [exact Hc|].
    vm_compute in Hb. vm_compute. exact Hb.
Defined.

Lemma ownership_handover_is_immediate_witness :
  msg_sender (mkMsg deployer 0 1) = Escrow.owner v1_deployed
  /\ Escrow.owner
       (Escrow.exec packed (Escrow.TransferOwnership successor)
          (mkMsg deployer 0 1) v1_deployed) = successor
  /\ Escrow.setProtocolArbiter attacker (mkMsg deployer 0 2)
       (Escrow.exec packed (Escrow.TransferOwnership successor)
          (mkMsg deployer 0 1) v1_deployed)
     = Revert Escrow.NotAuthorized.
Proof.
  assert (Ho : msg_sender (mkMsg deployer 0 1) = Escrow.owner v1_deployed)
    by reflexivity.
  split; [exact Ho|].
  destruct (ownership_handover_is_immediate packed successor
              (mkMsg deployer 0 1) v1_deployed Ho eq_refl)
    as (H1 & _ & _ & _ & _ & H2).
  split; [exact H1|].
  apply (H2 attacker (mkMsg deployer 0 2)). vm_compute. discriminate.
Defined.

Lemma administration_is_the_owners_witness :
  Forall (fun w' => Escrow.owner w' = deployer
                    /\ Escrow.protocolArbiter w' = arbitrator)
    (Escrow.run packed
       [ (Escrow.TransferOwnership attacker, mkMsg attacker 0 1);
         (Escrow.SetProtocolArbiter attacker, mkMsg arbitrator 0 2) ]
       v1_deployed).
Proof.
  apply (administration_is_the_owners packed _ v1_deployed).
  repeat constructor; vm_compute; discriminate.
Defined.

Lemma resolution_fee_goes_to_recorded_arbiter_witness :
  msg_sender (mkMsg deployer 0 5) = Escrow.owner v1_disputed
  /\ exists w' rest,
       Escrow.resolveDispute v1_id 70 (mkMsg successor 0 6)
         (Escrow.exec packed (Escrow.SetProtocolArbiter successor)
            (mkMsg deployer 0 5) v1_disputed) = Ok w'
       /\ moved (Escrow.chain w')
          = moved (Escrow.chain v1_disputed)
            ++ [mkTransfer 0 escrowContract arbitrator (5 * 10 ^ 16)] ++ rest.
Proof.
  assert (Ho : msg_sender (mkMsg deployer 0 5) = Escrow.owner v1_disputed)
    by reflexivity.
  split; [exact Ho|].
  destruct (Escrow.resolveDispute v1_id 70 (mkMsg successor 0 6)
              (Escrow.exec packed (Escrow.SetProtocolArbiter successor)
                 (mkMsg deployer 0 5) v1_disputed)) as [w'|err] eqn:H;
    [|vm_compute in H; discriminate H].
  destruct (resolution_fee_goes_to_recorded_arbiter packed v1_id 70 successor
              (mkMsg deployer 0 5) (mkMsg successor 0 6) v1_disputed w'
              Ho eq_refl ltac:(lia) ltac:(vm_compute; discriminate) H)
    as (_ & (rest & Hmv) & _).
  exists w', rest. split; [reflexivity|]. rewrite Hmv. vm_compute. reflexivity.
Defined.

Lemma existence_is_permanent_witness :
  Escrow.escrowExistsCheck v1_created v1_id = true
  /\ Escrow.escrowExistsCheck v1_created unknown_id = false
  /\ Forall (fun w' => Escrow.escrowExistsCheck w' v1_id = true)
       (Escrow.run packed v1_cancel_path v1_created).
Proof.
  destruct (existence_is_permanent packed v1_id) as (_ & _ & Hperm).
  destruct (existence_is_permanent packed unknown_id) as (Hnone & _).
  assert (He : Escrow.escrowExistsCheck v1_created v1_id = true)
    by (vm_compute; reflexivity).
  split; [exact He|]. split.
  - apply Hnone. vm_compute. reflexivity.
  - apply (Hperm v1_cancel_path v1_created He).
    repeat constructor; vm_compute; discriminate.
Defined.

Lemma deployed_is_solvent : solvent v1_deployed.
Proof.
  split.
  - apply map_Forall_empty.
  - intros a. unfold owed. simpl. rewrite map_fold_empty.
    unfold bal, funded. simpl.
    rewrite !lookup_insert_ne by (intros [= ? ?]; discriminate).
    rewrite lookup_empty. reflexivity.
Defined.

Lemma escrow_contract_stays_solvent_witness :
  solvent v1_deployed
  /\ Forall solvent
       (Escrow.run packed
          [ (Escrow.CreateEscrow worker (1 + day) criteria,
             mkMsg client (10 ^ 18) 1);
            (Escrow.CreateEscrowERC20 worker usdc 5 (1 + day) criteria,
             mkMsg client 0 1);
            (Escrow.AcceptEscrow v1_id, mkMsg worker 0 2);
            (Escrow.CancelEscrow (packed 1 client 1), mkMsg client 0 3) ]
          v1_deployed).
Proof.
  split; [exact deployed_is_solvent|].
  apply (escrow_contract_stays_solvent packed _ v1_deployed
           deployed_is_solvent).
  repeat constructor; vm_compute; try discriminate; exact I.
Defined.

End EscrowWitnesses.
